(** * Storage and logger utilities: a shallow embedding

    The JavaScript sources modelled here are
    - [StorageManager] (static wrappers over [localStorage] /
      [sessionStorage]) together with its parameter guard [DomValidator];
    - [LoggerBase] and [LoggerValidation] (the level-filtered in-memory log);
    - the loggers built on [LoggerBase]: [EventLogger], [FileLogger] and
      [AuditLogger].

    Host and third-party facilities the sources call ([JSON], the Web
    Storage objects, [setTimeout], [Date.now], the Joi schemas) are given
    executable models in the modules [JS], [JSON], [Joi] and [Host]. *)

From Stdlib Require Import ZArith NArith List String Ascii Bool Lia.
From Stdlib Require Import Decimal DecimalFacts DecimalPos DecimalN.
From stdpp Require Import gmap strings.

Import ListNotations.
Local Open Scope string_scope.
Local Open Scope list_scope.

(** ** JavaScript values *)

Module JS.

(** The fragment of JavaScript values the modelled methods exchange with
    their callers and with [JSON].  Numbers are the integers, printed in
    plain decimal (as the host prints every safe integer); strings are
    sequences of 8-bit characters; an object is its list of own properties
    in insertion order. *)
#[local] Unset Elimination Schemes.
Inductive value : Type :=
  | VUndefined
  | VNull
  | VBool (b : bool)
  | VNum (n : Z)
  | VStr (s : string)
  | VArr (elems : list value)
  | VObj (props : list (string * value)).
#[local] Set Elimination Schemes.

(** Induction over values, with the hypothesis available for every element
    of an array and every property value of an object. *)
Definition value_ind (P : value -> Prop)
  (Hundef : P VUndefined) (Hnull : P VNull)
  (Hbool : forall b, P (VBool b)) (Hnum : forall n, P (VNum n))
  (Hstr : forall s, P (VStr s))
  (Harr : forall elems, Forall P elems -> P (VArr elems))
  (Hobj : forall props, Forall (fun kv => P (snd kv)) props -> P (VObj props))
  : forall v, P v :=
  fix go (v : value) : P v :=
    match v with
    | VUndefined => Hundef
    | VNull => Hnull
    | VBool b => Hbool b
    | VNum n => Hnum n
    | VStr s => Hstr s
    | VArr elems =>
        Harr elems
          ((fix go_elems (l : list value) : Forall P l :=
              match l with
              | [] => @List.Forall_nil _ P
              | e :: l' => @List.Forall_cons _ P e l' (go e) (go_elems l')
              end) elems)
    | VObj props =>
        Hobj props
          ((fix go_props (l : list (string * value))
              : Forall (fun kv => P (snd kv)) l :=
              match l with
              | [] => @List.Forall_nil _ _
              | kv :: l' => @List.Forall_cons _ _ kv l' (go (snd kv)) (go_props l')
              end) props)
    end.

(** [s] between double quotes. *)
Definition quoted (s : string) : string :=
  String.String "034"%char (s +:+ String.String "034"%char "").

(** [typeof v] *)
Definition typeof (v : value) : string :=
  match v with
  | VUndefined => "undefined"
  | VNull => "object"
  | VBool _ => "boolean"
  | VNum _ => "number"
  | VStr _ => "string"
  | VArr _ => "object"
  | VObj _ => "object"
  end.

(** [Array.isArray(v)] *)
Definition isArray (v : value) : bool :=
  match v with VArr _ => true | _ => false end.

(** Truthiness, as used by [cond ? a : b], [if (cond)] and [||]. *)
Definition truthy (v : value) : bool :=
  match v with
  | VUndefined | VNull => false
  | VBool b => b
  | VNum n => negb (n =? 0)%Z
  | VStr s => negb (String.eqb s "")
  | VArr _ | VObj _ => true
  end.

(** Decimal digits of a natural number and of an integer. *)
Fixpoint uint_chars (d : Decimal.uint) : list ascii :=
  match d with
  | Nil => []
  | D0 d => "0"%char :: uint_chars d
  | D1 d => "1"%char :: uint_chars d
  | D2 d => "2"%char :: uint_chars d
  | D3 d => "3"%char :: uint_chars d
  | D4 d => "4"%char :: uint_chars d
  | D5 d => "5"%char :: uint_chars d
  | D6 d => "6"%char :: uint_chars d
  | D7 d => "7"%char :: uint_chars d
  | D8 d => "8"%char :: uint_chars d
  | D9 d => "9"%char :: uint_chars d
  end.

Definition nat_chars (n : N) : list ascii := uint_chars (N.to_uint n).

Definition num_chars (z : Z) : list ascii :=
  if (z <? 0)%Z then "-"%char :: nat_chars (Z.abs_N z) else nat_chars (Z.abs_N z).

(** [xs.join(sep)] on already converted elements. *)
Fixpoint join (sep : list ascii) (xs : list (list ascii)) : list ascii :=
  match xs with
  | [] => []
  | [x] => x
  | x :: rest => x ++ sep ++ join sep rest
  end.

(** [ToString(v)], written [String(v)] in programs: the conversion the host applies to a value that is used
    where a string is expected ([storage.setItem(k, v)], [JSON.parse(v)],
    a template literal). *)
Fixpoint to_chars (v : value) : list ascii :=
  match v with
  | VUndefined => list_ascii_of_string "undefined"
  | VNull => list_ascii_of_string "null"
  | VBool true => list_ascii_of_string "true"
  | VBool false => list_ascii_of_string "false"
  | VNum n => num_chars n
  | VStr s => list_ascii_of_string s
  | VArr elems =>
      join [","%char]
        (map (fun e => match e with
                       | VUndefined | VNull => []
                       | _ => to_chars e
                       end) elems)
  | VObj _ => list_ascii_of_string "[object Object]"
  end.

Definition ToString (v : value) : string := string_of_list_ascii (to_chars v).

(** [v.toString()]: a [TypeError] ([None]) on [undefined] and [null]. *)
Definition toString (v : value) : option string :=
  match v with
  | VUndefined | VNull => None
  | _ => Some (ToString v)
  end.

(** [v === null] *)
Definition is_null (v : value) : bool :=
  match v with VNull => true | _ => false end.

(** [p = d] in a parameter list: the default replaces [undefined]. *)
Definition default_arg (v d : value) : value :=
  match v with VUndefined => d | _ => v end.

(** The [i]-th actual argument of a call: [undefined] when it is missing.
    Arguments beyond a function's parameters are ignored by the callee. *)
Definition arg (i : nat) (args : list value) : value := nth i args VUndefined.

(** Own-property access on an object literal. *)
Fixpoint get_prop (k : string) (props : list (string * value)) : value :=
  match props with
  | [] => VUndefined
  | (k', v) :: rest => if String.eqb k k' then v else get_prop k rest
  end.

Fixpoint has_prop (k : string) (props : list (string * value)) : bool :=
  match props with
  | [] => false
  | (k', _) :: rest => String.eqb k k' || has_prop k rest
  end.

Fixpoint distinct_keys (props : list (string * value)) : bool :=
  match props with
  | [] => true
  | (k, _) :: rest => negb (has_prop k rest) && distinct_keys rest
  end.

(** The values [JSON] can carry: no [undefined] anywhere, and no property
    name twice in an object. *)
Fixpoint serializable (v : value) : bool :=
  match v with
  | VUndefined => false
  | VNull | VBool _ | VNum _ | VStr _ => true
  | VArr elems => forallb serializable elems
  | VObj props =>
      forallb (fun kv => serializable (snd kv)) props && distinct_keys props
  end.

(** [obj[k] = v]: overwrite in place, or append a new own property. *)
Fixpoint set_prop (k : string) (v : value) (props : list (string * value))
  : list (string * value) :=
  match props with
  | [] => [(k, v)]
  | (k', v') :: rest =>
      if String.eqb k k' then (k', v) :: rest else (k', v') :: set_prop k v rest
  end.

(** [k in v], for the property names the sources test (none of them is
    inherited from a prototype). *)
Definition has_in (k : string) (v : value) : bool :=
  match v with VObj props => has_prop k props | _ => false end.

(** *** Where the model and the host agree to the letter

    The host's numbers are doubles: beyond the safe integers they round,
    and from [1e21] on they print with an exponent.  The host also lists
    the properties of an object that are named by an array index before
    the others.  [modelled v] keeps [v] clear of both: it has no
    [undefined] inside, every number in it is a safe integer, and no
    property of an object in it is named by digits only (nor twice). *)
Definition safe_integer (n : Z) : bool := (Z.abs n <=? 9007199254740991)%Z.

Definition is_digit (c : ascii) : bool :=
  (48 <=? N_of_ascii c)%N && (N_of_ascii c <=? 57)%N.

Fixpoint all_digits (s : string) : bool :=
  match s with
  | EmptyString => true
  | String.String c rest => is_digit c && all_digits rest
  end.

Definition digits_only (s : string) : bool :=
  negb (String.eqb s "") && all_digits s.

Fixpoint modelled (v : value) : bool :=
  match v with
  | VUndefined => false
  | VNull | VBool _ | VStr _ => true
  | VNum n => safe_integer n
  | VArr elems => forallb modelled elems
  | VObj props =>
      forallb (fun kv => negb (digits_only (fst kv)) && modelled (snd kv)) props
      && distinct_keys props
  end.

(** For [ToString]: every number that is printed is a safe integer (an
    object prints as [[object Object]], whatever it holds). *)
Fixpoint safe_numbers (v : value) : bool :=
  match v with
  | VNum n => safe_integer n
  | VArr elems => forallb safe_numbers elems
  | _ => true
  end.

(** [xs.indexOf(x)] on an array of strings: [-1] when absent. *)
Fixpoint indexOf (x : string) (xs : list string) : Z :=
  match xs with
  | [] => (-1)%Z
  | y :: rest =>
      if String.eqb x y then 0%Z
      else let i := indexOf x rest in if (i <? 0)%Z then (-1)%Z else (i + 1)%Z
  end.

(** [s.startsWith(p)] *)
Fixpoint startsWith (p s : string) : bool :=
  match p, s with
  | EmptyString, _ => true
  | String.String a p', String.String b s' => Ascii.eqb a b && startsWith p' s'
  | String.String _ _, EmptyString => false
  end.

(** [s.split(sep)] for a non-empty separator.  [skip] counts the characters
    of a matched separator still to be dropped; [cur] is the current part,
    reversed. *)
Fixpoint split_go (sep : string) (skip : nat) (cur : list ascii) (s : string)
  : list string :=
  match s with
  | EmptyString => [string_of_list_ascii (rev cur)]
  | String.String c s' =>
      match skip with
      | S k => split_go sep k cur s'
      | O =>
          if startsWith sep s
          then string_of_list_ascii (rev cur)
                 :: split_go sep (String.length sep - 1) [] s'
          else split_go sep 0 (c :: cur) s'
      end
  end.

Definition split (sep s : string) : list string := split_go sep 0 [] s.

(** [a === b].  Arrays and objects are equal only to themselves; wherever
    the sources compare with [===] or [indexOf], one side is a primitive or
    comes fresh out of [JSON.parse], so two objects are never the same. *)
Definition strict_eq (a b : value) : bool :=
  match a, b with
  | VUndefined, VUndefined => true
  | VNull, VNull => true
  | VBool x, VBool y => Bool.eqb x y
  | VNum x, VNum y => (x =? y)%Z
  | VStr x, VStr y => String.eqb x y
  | _, _ => false
  end.

(** [xs.indexOf(x)] on an array of values: [-1] when absent. *)
Fixpoint array_indexOf (x : value) (xs : list value) : Z :=
  match xs with
  | [] => (-1)%Z
  | y :: rest =>
      if strict_eq y x then 0%Z
      else let i := array_indexOf x rest in if (i <? 0)%Z then (-1)%Z else (i + 1)%Z
  end.

(** [xs[i]] for an integer [i]: [undefined] out of range. *)
Definition array_get (xs : list value) (i : Z) : value :=
  if (i <? 0)%Z then VUndefined else nth (Z.to_nat i) xs VUndefined.

(** [xs.splice(i, 1)], [xs.splice(i, 0, x)] and [xs[i] = x] for an index
    [i] within the array. *)
Definition remove_at {A} (i : nat) (xs : list A) : list A :=
  firstn i xs ++ skipn (S i) xs.

Definition insert_at {A} (i : nat) (x : A) (xs : list A) : list A :=
  firstn i xs ++ x :: skipn i xs.

Definition set_at {A} (i : nat) (x : A) (xs : list A) : list A :=
  firstn i xs ++ x :: skipn (S i) xs.

(** [xs.splice(0, n)]: the delete count is clamped to the array. *)
Definition splice_front {A} (n : Z) (xs : list A) : list A :=
  skipn (Z.to_nat (Z.max 0 (Z.min n (Z.of_nat (List.length xs))))) xs.

(** [v.name] for a property name that is neither an array index nor
    [length] nor a member of a prototype: a [TypeError] ([None]) on [null]
    and [undefined], the own property of an object, [undefined] otherwise. *)
Definition get_member (v : value) (name : string) : option value :=
  match v with
  | VUndefined | VNull => None
  | VObj props => Some (get_prop name props)
  | _ => Some VUndefined
  end.

End JS.

(** ** The host's [JSON] object *)

Module JSON.
Import JS.

Definition dquote : ascii := "034"%char.
Definition backslash : ascii := "092"%char.

Definition hex_digit (n : N) : ascii :=
  if (n <? 10)%N then ascii_of_N (48 + n) else ascii_of_N (87 + n).

(** The escape [JSON.stringify] writes for one character of a string. *)
Definition escape (c : ascii) : list ascii :=
  if Ascii.eqb c dquote then [backslash; dquote]
  else if Ascii.eqb c backslash then [backslash; backslash]
  else if Ascii.eqb c "008"%char then [backslash; "b"%char]
  else if Ascii.eqb c "012"%char then [backslash; "f"%char]
  else if Ascii.eqb c "010"%char then [backslash; "n"%char]
  else if Ascii.eqb c "013"%char then [backslash; "r"%char]
  else if Ascii.eqb c "009"%char then [backslash; "t"%char]
  else if (N_of_ascii c <? 32)%N
       then [backslash; "u"%char; "0"%char; "0"%char;
             hex_digit (N_of_ascii c / 16); hex_digit (N_of_ascii c mod 16)]
  else [c].

Definition quote (s : string) : list ascii :=
  dquote :: flat_map escape (list_ascii_of_string s) ++ [dquote].

(** [JSON.stringify(v)]: [None] is the result [undefined].  Inside an array
    an unserialisable element is written [null]; inside an object such a
    property is left out. *)
Fixpoint serialize (v : value) : option (list ascii) :=
  match v with
  | VUndefined => None
  | VNull => Some (list_ascii_of_string "null")
  | VBool true => Some (list_ascii_of_string "true")
  | VBool false => Some (list_ascii_of_string "false")
  | VNum n => Some (num_chars n)
  | VStr s => Some (quote s)
  | VArr elems =>
      Some ("["%char ::
            join [","%char]
              (map (fun e => match serialize e with
                             | Some cs => cs
                             | None => list_ascii_of_string "null"
                             end) elems)
            ++ ["]"%char])
  | VObj props =>
      Some ("{"%char ::
            join [","%char]
              (flat_map (fun kv => match kv with
                                   | (k, e) =>
                                       match serialize e with
                                       | Some cs => [quote k ++ ":"%char :: cs]
                                       | None => []
                                       end
                                   end) props)
            ++ ["}"%char])
  end.

(** The text of an array element and of an object member that is kept. *)
Definition elem_text (e : value) : list ascii :=
  match serialize e with
  | Some cs => cs
  | None => list_ascii_of_string "null"
  end.

Definition member_text (kv : string * value) : list ascii :=
  quote (fst kv) ++ ":"%char :: elem_text (snd kv).

Definition stringify (v : value) : value :=
  match serialize v with
  | Some cs => VStr (string_of_list_ascii cs)
  | None => VUndefined
  end.

(** *** Reading JSON text *)

Definition is_ws (c : ascii) : bool :=
  Ascii.eqb c " "%char || Ascii.eqb c "009"%char
  || Ascii.eqb c "010"%char || Ascii.eqb c "013"%char.

Fixpoint skip_ws (s : list ascii) : list ascii :=
  match s with
  | c :: r => if is_ws c then skip_ws r else s
  | [] => []
  end.

(** [strip p s]: the rest of [s] after the prefix [p]. *)
Fixpoint strip (p s : list ascii) : option (list ascii) :=
  match p, s with
  | [], _ => Some s
  | a :: p', b :: s' => if Ascii.eqb a b then strip p' s' else None
  | _ :: _, [] => None
  end.

Definition hex_val (c : ascii) : option N :=
  let n := N_of_ascii c in
  if (48 <=? n)%N && (n <=? 57)%N then Some (n - 48)%N
  else if (97 <=? n)%N && (n <=? 102)%N then Some (n - 87)%N
  else if (65 <=? n)%N && (n <=? 70)%N then Some (n - 55)%N
  else None.

(** The character denoted by a one-letter escape. *)
Definition unescape (c : ascii) : option ascii :=
  if Ascii.eqb c dquote then Some dquote
  else if Ascii.eqb c backslash then Some backslash
  else if Ascii.eqb c "/"%char then Some "/"%char
  else if Ascii.eqb c "b"%char then Some "008"%char
  else if Ascii.eqb c "f"%char then Some "012"%char
  else if Ascii.eqb c "n"%char then Some "010"%char
  else if Ascii.eqb c "r"%char then Some "013"%char
  else if Ascii.eqb c "t"%char then Some "009"%char
  else None.

(** The body of a string literal, after its opening quote.  A [\uXXXX]
    escape above [\u00ff] has no character in this model and is refused. *)
Fixpoint read_string (s : list ascii) : option (list ascii * list ascii) :=
  match s with
  | [] => None
  | c :: r =>
      if Ascii.eqb c dquote then Some ([], r)
      else if Ascii.eqb c backslash then
        match r with
        | [] => None
        | e :: r1 =>
            if Ascii.eqb e "u"%char then
              match r1 with
              | h1 :: h2 :: h3 :: h4 :: r2 =>
                  match hex_val h1, hex_val h2, hex_val h3, hex_val h4 with
                  | Some a, Some b, Some c3, Some d =>
                      if (a =? 0)%N && (b =? 0)%N then
                        match read_string r2 with
                        | Some (cs, rest) => Some (ascii_of_N (c3 * 16 + d) :: cs, rest)
                        | None => None
                        end
                      else None
                  | _, _, _, _ => None
                  end
              | _ => None
              end
            else
              match unescape e with
              | Some ch =>
                  match read_string r1 with
                  | Some (cs, rest) => Some (ch :: cs, rest)
                  | None => None
                  end
              | None => None
              end
        end
      else if (N_of_ascii c <? 32)%N then None
      else
        match read_string r with
        | Some (cs, rest) => Some (c :: cs, rest)
        | None => None
        end
  end.

Definition digit_of (c : ascii) : option (Decimal.uint -> Decimal.uint) :=
  if Ascii.eqb c "0"%char then Some D0
  else if Ascii.eqb c "1"%char then Some D1
  else if Ascii.eqb c "2"%char then Some D2
  else if Ascii.eqb c "3"%char then Some D3
  else if Ascii.eqb c "4"%char then Some D4
  else if Ascii.eqb c "5"%char then Some D5
  else if Ascii.eqb c "6"%char then Some D6
  else if Ascii.eqb c "7"%char then Some D7
  else if Ascii.eqb c "8"%char then Some D8
  else if Ascii.eqb c "9"%char then Some D9
  else None.

Fixpoint read_digits (s : list ascii) : Decimal.uint * list ascii :=
  match s with
  | [] => (Nil, [])
  | c :: r =>
      match digit_of c with
      | Some d => let (ds, rest) := read_digits r in (d ds, rest)
      | None => (Nil, s)
      end
  end.

(** What may not follow the integer part of a number in this model: a
    further digit, or the start of a fraction or exponent. *)
Definition extends_number (s : list ascii) : bool :=
  match s with
  | [] => false
  | c :: _ =>
      match digit_of c with
      | Some _ => true
      | None => Ascii.eqb c "."%char || Ascii.eqb c "e"%char || Ascii.eqb c "E"%char
      end
  end.

(** The characters a JSON value can begin with. *)
Definition opens_value (c : ascii) : bool :=
  Ascii.eqb c "n"%char || Ascii.eqb c "t"%char || Ascii.eqb c "f"%char
  || Ascii.eqb c dquote || Ascii.eqb c "["%char || Ascii.eqb c "{"%char
  || Ascii.eqb c "-"%char
  || match digit_of c with Some _ => true | None => false end.

Definition opens_number (c : ascii) : bool :=
  Ascii.eqb c "-"%char
  || match digit_of c with Some _ => true | None => false end.

(** An integer literal: an optional sign, then [0] or a digit string without
    leading zero.  Fractions and exponents are outside the model's numbers
    and are refused. *)
Definition read_number (s : list ascii) : option (Z * list ascii) :=
  let (neg, s1) :=
    match s with
    | c :: r => if Ascii.eqb c "-"%char then (true, r) else (false, s)
    | [] => (false, s)
    end in
  match s1 with
  | [] => None
  | c :: r =>
      match digit_of c with
      | None => None
      | Some _ =>
          let (ds, rest) :=
            if Ascii.eqb c "0"%char then (D0 Nil, r) else read_digits s1 in
          if match rest with
             | [] => false
             | c' :: _ => Ascii.eqb c' "."%char || Ascii.eqb c' "e"%char
                          || Ascii.eqb c' "E"%char
             end
          then None
          else
            let n := Z.of_N (N.of_uint ds) in
            Some (if neg then (- n)%Z else n, rest)
      end
  end.

Fixpoint read_value (fuel : nat) (s : list ascii) : option (value * list ascii) :=
  match fuel with
  | O => None
  | S f =>
      match skip_ws s with
      | [] => None
      | c :: r =>
          if Ascii.eqb c "n"%char then
            match strip (list_ascii_of_string "ull") r with
            | Some rest => Some (VNull, rest)
            | None => None
            end
          else if Ascii.eqb c "t"%char then
            match strip (list_ascii_of_string "rue") r with
            | Some rest => Some (VBool true, rest)
            | None => None
            end
          else if Ascii.eqb c "f"%char then
            match strip (list_ascii_of_string "alse") r with
            | Some rest => Some (VBool false, rest)
            | None => None
            end
          else if Ascii.eqb c dquote then
            match read_string r with
            | Some (cs, rest) => Some (VStr (string_of_list_ascii cs), rest)
            | None => None
            end
          else if Ascii.eqb c "["%char then
            match strip ["]"%char] (skip_ws r) with
            | Some rest => Some (VArr [], rest)
            | None =>
                match read_elems f r with
                | Some (vs, rest) => Some (VArr vs, rest)
                | None => None
                end
            end
          else if Ascii.eqb c "{"%char then
            match strip ["}"%char] (skip_ws r) with
            | Some rest => Some (VObj [], rest)
            | None =>
                match read_props f [] r with
                | Some (ps, rest) => Some (VObj ps, rest)
                | None => None
                end
            end
          else
            match read_number (c :: r) with
            | Some (n, rest) => Some (VNum n, rest)
            | None => None
            end
      end
  end
with read_elems (fuel : nat) (s : list ascii) : option (list value * list ascii) :=
  match fuel with
  | O => None
  | S f =>
      match read_value f s with
      | None => None
      | Some (v, r) =>
          match skip_ws r with
          | [] => None
          | c :: r' =>
              if Ascii.eqb c ","%char then
                match read_elems f r' with
                | Some (vs, rest) => Some (v :: vs, rest)
                | None => None
                end
              else if Ascii.eqb c "]"%char then Some ([v], r')
              else None
          end
      end
  end
with read_props (fuel : nat) (acc : list (string * value)) (s : list ascii)
  : option (list (string * value) * list ascii) :=
  match fuel with
  | O => None
  | S f =>
      match skip_ws s with
      | [] => None
      | c :: r =>
          if Ascii.eqb c dquote then
            match read_string r with
            | None => None
            | Some (k, r1) =>
                match strip [":"%char] (skip_ws r1) with
                | None => None
                | Some r2 =>
                    match read_value f r2 with
                    | None => None
                    | Some (v, r3) =>
                        let acc' := set_prop (string_of_list_ascii k) v acc in
                        match skip_ws r3 with
                        | [] => None
                        | c3 :: r4 =>
                            if Ascii.eqb c3 ","%char then read_props f acc' r4
                            else if Ascii.eqb c3 "}"%char then Some (acc', r4)
                            else None
                        end
                    end
                end
            end
          else None
      end
  end.

(** [v] is read back from its own text, whatever follows it (as long as
    what follows cannot be taken for more of a number). *)
Definition reads_back (v : value) : Prop :=
  serializable v = true ->
  forall fuel rest,
    List.length (elem_text v) <= fuel ->
    extends_number rest = false ->
    read_value fuel (elem_text v ++ rest) = Some (v, rest).

(** A whole text: one value, then only white space.  [None] is the
    [SyntaxError] the host raises. *)
Definition parse_text (s : string) : option value :=
  let cs := list_ascii_of_string s in
  match read_value (S (List.length cs)) cs with
  | Some (v, rest) =>
      match skip_ws rest with
      | [] => Some v
      | _ :: _ => None
      end
  | None => None
  end.

(** [JSON.parse(x)]: the argument is first converted to a string, so
    [JSON.parse(null)] reads the text [null]. *)
Definition parse (x : value) : option value := parse_text (ToString x).

End JSON.

(** ** Completions and the state monad of the methods *)

Module Eff.

Inductive exn : Type :=
  | Error (message : string)
  | SyntaxError
  | TypeError.

Inductive completion (A : Type) : Type :=
  | Normal (a : A)
  | Throw (e : exn).
Arguments Normal {A} a.
Arguments Throw {A} e.

(** A method body over a mutable state [St]: it completes normally or
    abruptly, and leaves a state behind either way. *)
Definition M (St A : Type) : Type := St -> completion A * St.

Definition ret {St A} (a : A) : M St A := fun st => (Normal a, st).

Definition throw {St A} (e : exn) : M St A := fun st => (Throw e, st).

Definition bind {St A B} (m : M St A) (k : A -> M St B) : M St B :=
  fun st =>
    match m st with
    | (Normal a, st') => k a st'
    | (Throw e, st') => (Throw e, st')
    end.

(** [try { body } catch (error) { handler }] *)
Definition try_catch {St A} (body : M St A) (handler : exn -> M St A) : M St A :=
  fun st =>
    match body st with
    | (Normal a, st') => (Normal a, st')
    | (Throw e, st') => handler e st'
    end.

(** [xs.forEach(f)] *)
Fixpoint forEach {St A} (xs : list A) (f : A -> M St unit) : M St unit :=
  match xs with
  | [] => ret tt
  | x :: rest => bind (f x) (fun _ => forEach rest f)
  end.

Definition is_Error (e : exn) : bool :=
  match e with Error _ => true | _ => false end.

(** [error.message].  The text a host error carries is engine-specific and
    is left empty. *)
Definition message_of (e : exn) : string :=
  match e with Error m => m | _ => "" end.

End Eff.

Notation "'let*' x ':=' c1 'in' c2" := (Eff.bind c1 (fun x => c2))
  (at level 10, x name, c1 at level 100, c2 at level 200).
Notation "c1 ';;' c2" := (Eff.bind c1 (fun _ => c2))
  (at level 100, c2 at level 200, right associativity).

(** ** The Joi schemas used by the validators *)

Module Joi.
Import JS.

Definition label (name : string) : string := quoted name.

(** [Joi.string().required()]: the detail of the validation error, or
    [None] when the value is accepted.  Joi's string type accepts strings
    only and, unless [allow('')] is given, refuses the empty string. *)
Definition string_required (name : string) (v : value) : option string :=
  match v with
  | VUndefined => Some (label name +:+ " is required")
  | VStr s =>
      if String.eqb s "" then Some (label name +:+ " is not allowed to be empty")
      else None
  | _ => Some (label name +:+ " must be a string")
  end.

Fixpoint commas (xs : list string) : string :=
  match xs with
  | [] => ""
  | [x] => x
  | x :: rest => x +:+ ", " +:+ commas rest
  end.

(** [Joi.string().valid(...allowed).default(d)]: the key is optional, so
    [undefined] is accepted; any other value must be one of [allowed]. *)
Definition string_valid_default (name : string) (allowed : list string) (v : value)
  : option string :=
  match v with
  | VUndefined => None
  | VStr s =>
      if existsb (String.eqb s) allowed then None
      else Some (label name +:+ " must be one of [" +:+ commas allowed +:+ "]")
  | _ => Some (label name +:+ " must be one of [" +:+ commas allowed +:+ "]")
  end.

Definition MAX_SAFE_INTEGER : Z := 9007199254740991.

(** [Joi.number().required()] on a number: it must lie in the safe range. *)
Definition number_required (name : string) (n : Z) : option string :=
  if (Z.abs n <=? MAX_SAFE_INTEGER)%Z then None
  else Some (label name +:+ " must be a safe number").

End Joi.

(** ** [DomValidator] *)

Module DomValidator.
Import JS Eff.

(** [validateParams(schema, params, throwOnError)], given the [error] that
    [schema.validate(params)] reports. *)
Definition validateParams {St} (error : option string) (throwOnError : bool)
  : M St bool :=
  match error with
  | Some detail =>
      if throwOnError then throw (Error ("Invalid parameters: " +:+ detail))
      else ret false
  | None => ret true
  end.

(** [isString({ param, throwOnError })].  [throwOnError] is a boolean in
    every modelled call, so its own schema entry always passes. *)
Definition isString {St} (param : value) (throwOnError : bool) : M St bool :=
  validateParams (Joi.string_required "param" param) throwOnError.

(** The values the [isString] guard lets through: non-empty strings. *)
Definition accepts_string (v : value) : bool :=
  match v with
  | VStr s => negb (String.eqb s "")
  | _ => false
  end.

(** [isNumber({ param, throwOnError })], for a caller that passes a number. *)
Definition isNumber {St} (param : Z) (throwOnError : bool) : M St bool :=
  validateParams (Joi.number_required "param" param) throwOnError.

Definition throwOrReturnOnError {St} (throwOnError : bool) (message : string)
  : M St value :=
  if throwOnError then throw (Error message) else ret VNull.

End DomValidator.

(** ** The host: Web Storage, timers, clock *)

Module Host.
Import JS Eff.

(** A pending [setTimeout] callback.  The only callback the sources
    register is [() => { storage.removeItem(key); console.log(...) }], so a
    timer records its delay and the storage and key it captured. *)
Record timer : Type := mkTimer {
  delay : Z;
  captured_session : bool;
  captured_key : string
}.

(** The mutating calls made on a storage object, in program order. *)
Inductive call : Type :=
  | SetItem (session : bool) (k v : string)
  | RemoveItem (session : bool) (k : string)
  | Clear (session : bool).

Record state : Type := mkState {
  localStorage : gmap string string;
  sessionStorage : gmap string string;
  timers : list timer;
  calls : list call;
  now : Z
}.

(** An empty host: nothing stored, no timer pending, the clock at one
    second past the epoch. *)
Definition empty_host : state := mkState ∅ ∅ [] [] 1000.

(** A host whose [localStorage] holds the two items [a = 1] and [b = 2]. *)
Definition two_items : state :=
  mkState (<["a" := "1"]> (<["b" := "2"]> ∅)) ∅ [] [] 1000.

(** A host whose [localStorage] holds a number, an array, a flag, an
    object, a text that is not JSON, and another one under the name of a
    member of the storage object. *)
Definition mixed_items : state :=
  mkState (<["n" := "1"]> (<["xs" := "[2,3]"]> (<["flag" := "true"]>
            (<["o" := "{}"]> (<["raw" := "hello"]>
              (<["length" := "hello"]> ∅)))))) ∅ [] [] 1000.

(** [useSessionStorage ? sessionStorage : localStorage] *)
Definition storage (useSessionStorage : bool) (st : state) : gmap string string :=
  if useSessionStorage then sessionStorage st else localStorage st.

Definition with_storage (useSessionStorage : bool) (m : gmap string string)
  (c : call) (st : state) : state :=
  if useSessionStorage
  then mkState (localStorage st) m (timers st) (calls st ++ [c]) (now st)
  else mkState m (sessionStorage st) (timers st) (calls st ++ [c]) (now st).

(** [storage.getItem(key)]: the stored string, or [null]. *)
Definition getItem (useSessionStorage : bool) (key : value) : M state value :=
  fun st =>
    match storage useSessionStorage st !! ToString key with
    | Some s => (Normal (VStr s), st)
    | None => (Normal VNull, st)
    end.

(** [storage.setItem(key, v)]: key and value are converted to strings. *)
Definition setItem (useSessionStorage : bool) (key v : value) : M state unit :=
  fun st =>
    (Normal tt,
     with_storage useSessionStorage
       (<[ToString key := ToString v]> (storage useSessionStorage st))
       (SetItem useSessionStorage (ToString key) (ToString v)) st).

Definition removeItem (useSessionStorage : bool) (key : value) : M state unit :=
  fun st =>
    (Normal tt,
     with_storage useSessionStorage
       (delete (ToString key) (storage useSessionStorage st))
       (RemoveItem useSessionStorage (ToString key)) st).

Definition clear (useSessionStorage : bool) : M state unit :=
  fun st =>
    (Normal tt, with_storage useSessionStorage ∅ (Clear useSessionStorage) st).

(** The keys of the stored items, as [storage.key(i)] yields them for
    [i] below [storage.length]. *)
Definition keys (useSessionStorage : bool) : M state (list string) :=
  fun st => (Normal (map fst (map_to_list (storage useSessionStorage st))), st).

(** The names of the members of [Storage.prototype] and of
    [Object.prototype].  An item stored under such a name is reached by
    [getItem], [key(i)] and [removeItem], but it is no own property of the
    storage object: the inherited member hides it. *)
Definition inherited_names : list string :=
  ["length"; "key"; "getItem"; "setItem"; "removeItem"; "clear";
   "constructor"; "toString"; "toLocaleString"; "valueOf"; "hasOwnProperty";
   "isPrototypeOf"; "propertyIsEnumerable"; "__proto__";
   "__defineGetter__"; "__defineSetter__"; "__lookupGetter__";
   "__lookupSetter__"].

Definition inherited_name (k : string) : bool :=
  existsb (String.eqb k) inherited_names.

(** [Object.keys(storage)]: the keys of the stored items that no inherited
    member hides. *)
Definition Object_keys (useSessionStorage : bool) : M state (list string) :=
  fun st =>
    (Normal (List.filter (fun k => negb (inherited_name k))
               (map fst (map_to_list (storage useSessionStorage st)))), st).

(** [Date.now()] *)
Definition Date_now : M state Z := fun st => (Normal (now st), st).

(** [setTimeout(() => storage.removeItem(key), ms)] *)
Definition setTimeout (useSessionStorage : bool) (key : value) (ms : Z)
  : M state unit :=
  fun st =>
    (Normal tt,
     mkState (localStorage st) (sessionStorage st)
       (timers st ++ [mkTimer ms useSessionStorage (ToString key)])
       (calls st) (now st)).


(** The same host at a later (or any other) clock reading. *)
Definition at_clock (t : Z) (st : state) : state :=
  mkState (localStorage st) (sessionStorage st) (timers st) (calls st) t.

End Host.

(** ** [StorageManager] *)

Module StorageManager.
Import JS Eff Host DomValidator.

(** What a method hands back: the class itself ([return this]) or a value;
    [RVal VUndefined] is a plain [return;] or falling off the end. *)
Inductive ret_val : Type :=
  | RThis
  | RVal (v : value).

(** [JSON.parse(x)] as a step of a method: a [SyntaxError] when the text is
    not JSON. *)
Definition JSON_parse (x : value) : M state value :=
  match JSON.parse x with
  | Some v => ret v
  | None => throw SyntaxError
  end.

Definition key_must_be_string : string :=
  "Invalid parameters: " +:+ Joi.label "key" +:+ " must be a string.".

Definition setValue (key value : value) (useSessionStorage throwOnError : bool)
  : M state ret_val :=
  let* ok := isString key throwOnError in
  if negb ok then
    throwOrReturnOnError throwOnError key_must_be_string ;;
    ret (RVal VUndefined)
  else
    setItem useSessionStorage key (JSON.stringify value) ;;
    ret RThis.

Definition getValue (key : value) (useSessionStorage throwOnError : bool)
  : M state value :=
  let* ok := isString key throwOnError in
  if negb ok then
    throwOrReturnOnError throwOnError key_must_be_string ;;
    ret VUndefined
  else
    let* storedValue := getItem useSessionStorage key in
    if truthy storedValue then JSON_parse storedValue else ret VNull.

Definition removeValue (key : value) (useSessionStorage throwOnError : bool)
  : M state ret_val :=
  let* ok := isString key throwOnError in
  if negb ok then
    throwOrReturnOnError throwOnError key_must_be_string ;;
    ret (RVal VUndefined)
  else
    removeItem useSessionStorage key ;;
    ret RThis.

Definition clearStorage (useSessionStorage : bool) : M state ret_val :=
  clear useSessionStorage ;;
  ret (RVal VUndefined).

Definition getObject (key : value) (useSessionStorage throwOnError : bool)
  : M state value :=
  let* ok := isString key throwOnError in
  if negb ok then
    throwOrReturnOnError throwOnError key_must_be_string ;;
    ret VNull
  else
    let* storedValue := getItem useSessionStorage key in
    try_catch
      (let* parsedValue := JSON_parse storedValue in
       if negb (is_null parsedValue)
          && String.eqb (typeof parsedValue) "object"
          && negb (isArray parsedValue)
       then ret parsedValue
       else
         throwOrReturnOnError throwOnError "Stored value must be a non-array object." ;;
         ret VNull)
      (fun error =>
         throwOrReturnOnError throwOnError "Stored value must be an object." ;;
         ret VNull).

Definition getArray (key : value) (useSessionStorage throwOnError : bool)
  : M state value :=
  let* ok := isString key throwOnError in
  if negb ok then
    throwOrReturnOnError throwOnError key_must_be_string ;;
    ret VNull
  else
    let* item := getItem useSessionStorage key in
    let* storedValue := JSON_parse item in
    if negb (isArray storedValue) then
      throwOrReturnOnError throwOnError "Stored value must be an array." ;;
      ret VNull
    else ret storedValue.

Definition setNumber (key value : value) (useSessionStorage throwOnError : bool)
  : M state ret_val :=
  let* ok := isString key throwOnError in
  if negb ok then
    throwOrReturnOnError throwOnError key_must_be_string ;;
    ret (RVal VUndefined)
  else
    let* existing := getItem useSessionStorage key in
    if is_null existing then
      setItem useSessionStorage key (JSON.stringify value) ;;
      ret RThis
    else ret (RVal VUndefined).

Definition getNumber (key : value) (useSessionStorage throwOnError : bool)
  : M state value :=
  let* ok := isString key throwOnError in
  if negb ok then
    throwOrReturnOnError throwOnError key_must_be_string ;;
    ret VNull
  else
    let* item := getItem useSessionStorage key in
    let* storedValue := JSON_parse item in
    if negb (String.eqb (typeof storedValue) "number") then
      throwOrReturnOnError throwOnError "Stored value must be a number." ;;
      ret VNull
    else ret storedValue.

Definition getBoolean (key : value) (useSessionStorage throwOnError : bool)
  : M state value :=
  let* ok := isString key throwOnError in
  if negb ok then
    throwOrReturnOnError throwOnError key_must_be_string ;;
    ret VNull
  else
    let* item := getItem useSessionStorage key in
    let* storedValue := JSON_parse item in
    if negb (String.eqb (typeof storedValue) "boolean") && negb (is_null storedValue)
    then
      throwOrReturnOnError throwOnError "Stored value must be a boolean." ;;
      ret VNull
    else ret storedValue.

(** [!isString(key) || !isString(value)]: the second guard runs only when
    the first one passed. *)
Definition either_invalid (a b : M state bool) : M state bool :=
  let* ok := a in
  if negb ok then ret true
  else let* ok' := b in ret (negb ok').

Definition setString (key value : value) (useSessionStorage throwOnError : bool)
  : M state ret_val :=
  let* bad := either_invalid (isString key throwOnError)
                             (isString value throwOnError) in
  if bad then
    throwOrReturnOnError throwOnError key_must_be_string ;;
    ret (RVal VUndefined)
  else
    setItem useSessionStorage key value ;;
    ret RThis.

Definition getString (key : value) (useSessionStorage throwOnError : bool)
  : M state value :=
  let* ok := isString key throwOnError in
  if negb ok then
    throwOrReturnOnError throwOnError key_must_be_string ;;
    ret VNull
  else
    let* storedValue := getItem useSessionStorage key in
    ret storedValue.

(** [storage.setItem] does not fail in this model (there is no quota), so
    the handler of the [try] around it is never entered.  The sum and the
    product are the integers'; they are the host's as long as they are
    safe integers, which the statements about the stored expiry and the
    delay of the timer assume. *)
Definition setExpiration (key value : value) (secondsToExpiration : Z)
  (useSessionStorage throwOnError : bool) : M state ret_val :=
  let* bad := either_invalid (isString key throwOnError)
                             (isNumber secondsToExpiration throwOnError) in
  if bad then
    throwOrReturnOnError throwOnError key_must_be_string ;;
    ret (RVal VUndefined)
  else
    let* expirationTime :=
      (if truthy (VNum secondsToExpiration)
       then let* t := Date_now in ret (VNum (t + secondsToExpiration * 1000))
       else ret VNull) in
    let storedValue := VObj [("value", value); ("expirationTime", expirationTime)] in
    try_catch
      (setItem useSessionStorage key (JSON.stringify storedValue))
      (fun error =>
         throwOrReturnOnError throwOnError
           ("Error storing value for key '" +:+ ToString key +:+ "': "
              +:+ message_of error) ;;
         ret tt) ;;
    (if truthy expirationTime
     then setTimeout useSessionStorage key (secondsToExpiration * 1000)
     else ret tt) ;;
    ret RThis.

(** The two setters that store the output of a third-party encoder.  The
    encoders are parameters: [AES_encrypt data passphrase] stands for
    [CryptoJS.AES.encrypt(data, passphrase).toString()] (the text one run
    of the library yields), [LZ_compress data] for [LZString.compress(data)]. *)
Section ThirdParty.
Variable AES_encrypt : value -> string -> string.
Variable LZ_compress : value -> string.

Definition setEncrypted (key data : value) (useSessionStorage throwOnError : bool)
  : M state ret_val :=
  let* ok := isString key throwOnError in
  if negb ok then
    throwOrReturnOnError throwOnError key_must_be_string ;;
    ret (RVal VUndefined)
  else
    let encryptedData := AES_encrypt data "your-secret-key" in
    setItem useSessionStorage key (VStr encryptedData) ;;
    ret RThis.

Definition setCompressed (key data : value) (useSessionStorage throwOnError : bool)
  : M state ret_val :=
  let* ok := isString key throwOnError in
  if negb ok then
    throwOrReturnOnError throwOnError key_must_be_string ;;
    ret (RVal VUndefined)
  else
    let compressedData := LZ_compress data in
    setItem useSessionStorage key (VStr compressedData) ;;
    ret (RVal VUndefined).
End ThirdParty.

Definition removeAllTimingItems (useSessionStorage : bool) : M state ret_val :=
  let* ks := Object_keys useSessionStorage in
  forEach ks (fun key =>
    try_catch
      (let* item := getItem useSessionStorage (VStr key) in
       let* storedValue := JSON_parse item in
       if truthy storedValue
          && String.eqb (typeof storedValue) "object"
          && has_in "expirationTime" storedValue
       then removeItem useSessionStorage (VStr key)
       else ret tt)
      (fun error => ret tt)) ;;
  ret (RVal VUndefined).

Definition swapValues (key1 key2 : value) (useSessionStorage throwOnError : bool)
  : M state ret_val :=
  let* bad := either_invalid (isString key1 throwOnError)
                             (isString key2 throwOnError) in
  if bad then
    throwOrReturnOnError throwOnError
      ("Invalid parameters: " +:+ Joi.label "key1" +:+ " and "
         +:+ Joi.label "key2" +:+ " must be strings.") ;;
    ret (RVal VUndefined)
  else
    let* value1 := getItem useSessionStorage key1 in
    let* value2 := getItem useSessionStorage key2 in
    try_catch
      (if negb (is_null value1) && negb (is_null value2) then
         setItem useSessionStorage key1 value2 ;;
         setItem useSessionStorage key2 value1
       else
         throwOrReturnOnError throwOnError
           ("No stored value found for one or both of the keys: '"
              +:+ ToString key1 +:+ "', '" +:+ ToString key2 +:+ "'.") ;;
         ret tt)
      (fun error =>
         throwOrReturnOnError throwOnError
           ("Error swapping values for keys '" +:+ ToString key1 +:+ "' and '"
              +:+ ToString key2 +:+ "': " +:+ message_of error) ;;
         ret tt) ;;
    ret (RVal VUndefined).

(** The [expirationTime] that [setExpiration] computes at clock reading
    [t], and the record it persists. *)
Definition expirationTime_at (t secondsToExpiration : Z) : value :=
  if (secondsToExpiration =? 0)%Z then VNull
  else VNum (t + secondsToExpiration * 1000).

Definition expiring_record (v expirationTime : value) : value :=
  VObj [("value", v); ("expirationTime", expirationTime)].

(** The state in which a new timer is pending. *)
Definition with_timer (tm : timer) (st : state) : state :=
  mkState (localStorage st) (sessionStorage st) (timers st ++ [tm])
    (calls st) (now st).

(** The modelled calls, as data: one constructor per method. *)
Inductive invocation : Type :=
  | SetValue (key value : value) (useSessionStorage throwOnError : bool)
  | GetValue (key : value) (useSessionStorage throwOnError : bool)
  | RemoveValue (key : value) (useSessionStorage throwOnError : bool)
  | ClearStorage (useSessionStorage : bool)
  | GetObject (key : value) (useSessionStorage throwOnError : bool)
  | GetArray (key : value) (useSessionStorage throwOnError : bool)
  | SetNumber (key value : value) (useSessionStorage throwOnError : bool)
  | GetNumber (key : value) (useSessionStorage throwOnError : bool)
  | GetBoolean (key : value) (useSessionStorage throwOnError : bool)
  | SetString (key value : value) (useSessionStorage throwOnError : bool)
  | GetString (key : value) (useSessionStorage throwOnError : bool)
  | SetExpiration (key value : value) (secondsToExpiration : Z)
      (useSessionStorage throwOnError : bool)
  | RemoveAllTimingItems (useSessionStorage : bool)
  | SwapValues (key1 key2 : value) (useSessionStorage throwOnError : bool).

Definition returning (m : M state value) : M state ret_val :=
  let* v := m in ret (RVal v).

Definition invoke (c : invocation) : M state ret_val :=
  match c with
  | SetValue k v s t => setValue k v s t
  | GetValue k s t => returning (getValue k s t)
  | RemoveValue k s t => removeValue k s t
  | ClearStorage s => clearStorage s
  | GetObject k s t => returning (getObject k s t)
  | GetArray k s t => returning (getArray k s t)
  | SetNumber k v s t => setNumber k v s t
  | GetNumber k s t => returning (getNumber k s t)
  | GetBoolean k s t => returning (getBoolean k s t)
  | SetString k v s t => setString k v s t
  | GetString k s t => returning (getString k s t)
  | SetExpiration k v n s t => setExpiration k v n s t
  | RemoveAllTimingItems s => removeAllTimingItems s
  | SwapValues k1 k2 s t => swapValues k1 k2 s t
  end.

(** [undefined] or [null], as a method result. *)
Definition nullish (r : ret_val) : bool :=
  match r with
  | RVal VUndefined | RVal VNull => true
  | _ => false
  end.

(** The storage keys named in the arguments of a call. *)
Definition named_keys (c : invocation) : list string :=
  match c with
  | SetValue k _ _ _ | GetValue k _ _ | RemoveValue k _ _
  | GetObject k _ _ | GetArray k _ _ | SetNumber k _ _ _ | GetNumber k _ _
  | GetBoolean k _ _ | SetString k _ _ _ | GetString k _ _
  | SetExpiration k _ _ _ _ => [ToString k]
  | SwapValues k1 k2 _ _ => [ToString k1; ToString k2]
  | ClearStorage _ | RemoveAllTimingItems _ => []
  end.

(** The methods that work on one key. *)
Definition single_key (c : invocation) : bool :=
  match c with
  | SwapValues _ _ _ _ | ClearStorage _ | RemoveAllTimingItems _ => false
  | _ => true
  end.

(** The guard pattern: with [throwOnError = true] the call throws an
    [Error], with [throwOnError = false] it returns [undefined] or [null];
    either way the host is left as it was. *)
Definition guarded (m : bool -> M state ret_val) (st : state) : Prop :=
  (exists msg, m true st = (Throw (Error msg), st))
  /\ (exists r, m false st = (Normal r, st) /\ nullish r = true).

(** What [storage.getItem(key)] yields in a state. *)
Definition item (useSessionStorage : bool) (k : string) (st : state) : value :=
  match storage useSessionStorage st !! k with
  | Some s => VStr s
  | None => VNull
  end.

(** *** Further methods *)

Definition quote_key (key : value) : string := "'" +:+ ToString key +:+ "'".

Definition replaceValue (key newValue : value) (useSessionStorage throwOnError : bool)
  : M state ret_val :=
  let* ok := isString key throwOnError in
  if negb ok then
    throwOrReturnOnError throwOnError key_must_be_string ;;
    ret (RVal VUndefined)
  else
    let* storedValue := getItem useSessionStorage key in
    try_catch
      (if negb (is_null storedValue) then
         setItem useSessionStorage key (JSON.stringify newValue)
       else
         throwOrReturnOnError throwOnError
           ("No stored value found for key " +:+ quote_key key +:+ ".") ;;
         ret tt)
      (fun error =>
         throwOrReturnOnError throwOnError
           ("Error replacing value for key " +:+ quote_key key +:+ ": "
              +:+ message_of error) ;;
         ret tt) ;;
    ret (RVal VUndefined).

Definition updateString (key value : value) (useSessionStorage throwOnError : bool)
  : M state ret_val :=
  let* ok := isString key throwOnError in
  if negb ok then
    throwOrReturnOnError throwOnError key_must_be_string ;;
    ret (RVal VUndefined)
  else
    let* storedValue := getItem useSessionStorage key in
    (if negb (is_null storedValue)
     then setItem useSessionStorage key value
     else ret tt) ;;
    ret RThis.

Definition removeString (key : value) (useSessionStorage throwOnError : bool)
  : M state ret_val :=
  let* ok := isString key throwOnError in
  if negb ok then
    throwOrReturnOnError throwOnError key_must_be_string ;;
    ret (RVal VUndefined)
  else
    let* storedValue := getItem useSessionStorage key in
    (if negb (is_null storedValue)
     then removeItem useSessionStorage key
     else ret tt) ;;
    ret (RVal VUndefined).

(** As in [setExpiration], the [try]/[catch] around a lone [setItem] or
    [removeItem] has no handler here: these host calls do not fail. *)
Definition setNull (key : value) (useSessionStorage throwOnError : bool)
  : M state ret_val :=
  let* ok := isString key throwOnError in
  if negb ok then
    throwOrReturnOnError throwOnError key_must_be_string ;;
    ret (RVal VUndefined)
  else
    setItem useSessionStorage key (VStr "null") ;;
    ret (RVal VUndefined).

Definition isNull (key : value) (useSessionStorage : bool) : M state value :=
  let* storedValue := getItem useSessionStorage key in
  ret (VBool (strict_eq storedValue (VStr "null"))).

Definition removeNull (key : value) (useSessionStorage throwOnError : bool)
  : M state ret_val :=
  let* ok := isString key throwOnError in
  if negb ok then
    throwOrReturnOnError throwOnError key_must_be_string ;;
    ret (RVal VUndefined)
  else
    let* storedValue := getItem useSessionStorage key in
    (if strict_eq storedValue (VStr "null") then
       removeItem useSessionStorage key
     else
       throwOrReturnOnError throwOnError
         ("Value stored for key " +:+ quote_key key +:+ " is not a 'null' value.") ;;
       ret tt) ;;
    ret (RVal VUndefined).

Definition setUndefined (key : value) (useSessionStorage throwOnError : bool)
  : M state ret_val :=
  let* ok := isString key throwOnError in
  if negb ok then
    throwOrReturnOnError throwOnError key_must_be_string ;;
    ret (RVal VUndefined)
  else
    setItem useSessionStorage key VUndefined ;;
    ret (RVal VUndefined).

Definition isUndefined (key : value) (useSessionStorage throwOnError : bool)
  : M state value :=
  let* ok := isString key throwOnError in
  if negb ok then
    throwOrReturnOnError throwOnError key_must_be_string ;;
    ret VNull
  else
    let* storedValue := getItem useSessionStorage key in
    ret (VBool (strict_eq storedValue VUndefined)).

Definition removeUndefined (key : value) (useSessionStorage throwOnError : bool)
  : M state ret_val :=
  let* ok := isString key throwOnError in
  if negb ok then
    throwOrReturnOnError throwOnError key_must_be_string ;;
    ret (RVal VUndefined)
  else
    let* storedValue := getItem useSessionStorage key in
    (if strict_eq storedValue VUndefined
     then removeItem useSessionStorage key
     else ret tt) ;;
    ret (RVal VUndefined).

(** [removeBoolean], [removeArray] and [deleteObject] share one body: the
    guard, then [storage.removeItem(key)]. *)
Definition removeBoolean (key : value) (useSessionStorage throwOnError : bool)
  : M state ret_val :=
  let* ok := isString key throwOnError in
  if negb ok then
    throwOrReturnOnError throwOnError key_must_be_string ;;
    ret (RVal VUndefined)
  else
    let* storedValue := getItem useSessionStorage key in
    removeItem useSessionStorage key ;;
    ret (RVal VUndefined).

Definition removeArray (key : value) (useSessionStorage throwOnError : bool)
  : M state ret_val :=
  let* ok := isString key throwOnError in
  if negb ok then
    throwOrReturnOnError throwOnError key_must_be_string ;;
    ret (RVal VUndefined)
  else
    removeItem useSessionStorage key ;;
    ret (RVal VUndefined).

Definition deleteObject (key : value) (useSessionStorage throwOnError : bool)
  : M state ret_val :=
  let* ok := isString key throwOnError in
  if negb ok then
    throwOrReturnOnError throwOnError key_must_be_string ;;
    ret (RVal VUndefined)
  else
    removeItem useSessionStorage key ;;
    ret (RVal VUndefined).

(** *** The arrays kept under a key *)

Definition expected_an_array (key : value) : string :=
  "Invalid stored value for key " +:+ quote_key key +:+ ": Expected an array.".

(** The common opening of the array updaters: the stored text must parse
    to an array, else an [Error] whatever [throwOnError] is; then
    [JSON.parse(storedValue) || []]. *)
Definition stored_array (key storedValue : value) : M state value :=
  let* parsed := JSON_parse storedValue in
  if negb (isArray parsed) then throw (Error (expected_an_array key))
  else
    let* again := JSON_parse storedValue in
    ret (if truthy again then again else VArr []).

(** A method of arrays applied to [arrayValue]: a [TypeError] if it is not
    one. *)
Definition with_elems {A} (arrayValue : value) (k : list value -> M state A)
  : M state A :=
  match arrayValue with
  | VArr elems => k elems
  | _ => throw TypeError
  end.

Definition addToArray (key element : value) (useSessionStorage throwOnError : bool)
  : M state ret_val :=
  let* ok := isString key throwOnError in
  if negb ok then
    throwOrReturnOnError throwOnError key_must_be_string ;;
    ret (RVal VUndefined)
  else
    let* storedValue := getItem useSessionStorage key in
    let* arrayValue := stored_array key storedValue in
    with_elems arrayValue (fun elems =>
      setItem useSessionStorage key (JSON.stringify (VArr (elems ++ [element]))) ;;
      ret RThis).

Definition updateInArray (key oldElement newElement : value)
  (useSessionStorage throwOnError : bool) : M state ret_val :=
  let* ok := isString key throwOnError in
  if negb ok then
    throwOrReturnOnError throwOnError key_must_be_string ;;
    ret (RVal VUndefined)
  else
    let* storedValue := getItem useSessionStorage key in
    let* arrayValue := stored_array key storedValue in
    with_elems arrayValue (fun elems =>
      let index := array_indexOf oldElement elems in
      (if negb (index =? -1)%Z then
         setItem useSessionStorage key
           (JSON.stringify (VArr (set_at (Z.to_nat index) newElement elems)))
       else ret tt) ;;
      ret RThis).


Definition getFromArray (key : value) (index : Z) (useSessionStorage throwOnError : bool)
  : M state value :=
  let* bad := either_invalid (isString key throwOnError)
                             (isNumber index throwOnError) in
  if bad then
    throwOrReturnOnError throwOnError "Invalid parameters" ;;
    ret VNull
  else
    let* item := getItem useSessionStorage key in
    let* storedValue := JSON_parse item in
    match storedValue with
    | VArr elems =>
        if (index <? 0)%Z || (Z.of_nat (List.length elems) <=? index)%Z then
          throwOrReturnOnError throwOnError "Index out of bounds." ;;
          ret VNull
        else ret (array_get elems index)
    | _ =>
        throwOrReturnOnError throwOnError "Stored value must be an array." ;;
        ret VNull
    end.

Definition addToArrayByIndex (key element : value) (index : Z)
  (useSessionStorage throwOnError : bool) : M state ret_val :=
  let* bad := either_invalid (isString key throwOnError)
                             (isNumber index throwOnError) in
  if bad then
    throwOrReturnOnError throwOnError "Invalid parameters" ;;
    ret (RVal VUndefined)
  else
    let* storedValue := getItem useSessionStorage key in
    let* arrayValue := stored_array key storedValue in
    with_elems arrayValue (fun elems =>
      if (index <? 0)%Z || (Z.of_nat (List.length elems) <? index)%Z then
        throw (Error ("Index out of bounds for key " +:+ quote_key key +:+ "."))
      else
        setItem useSessionStorage key
          (JSON.stringify (VArr (insert_at (Z.to_nat index) element elems))) ;;
        ret RThis).

(** *** Sweeps over a whole storage *)

Definition removeAllStringItems (useSessionStorage throwOnError : bool)
  : M state ret_val :=
  let* ks := Object_keys useSessionStorage in
  forEach ks (fun key =>
    let* storedValue := getItem useSessionStorage (VStr key) in
    try_catch
      (JSON_parse storedValue ;; ret tt)
      (fun error => removeItem useSessionStorage (VStr key))) ;;
  ret (RVal VUndefined).

Definition error_removing_item (key : string) (error : exn) : string :=
  "Error removing item with key '" +:+ key +:+ "': " +:+ message_of error.

Definition removeAllObjectItems (useSessionStorage throwOnError : bool)
  : M state ret_val :=
  let* ks := Object_keys useSessionStorage in
  forEach ks (fun key =>
    let* storedValue := getItem useSessionStorage (VStr key) in
    try_catch
      (let* parsedValue := JSON_parse storedValue in
       if negb (is_null parsedValue)
          && String.eqb (typeof parsedValue) "object"
          && negb (isArray parsedValue)
       then removeItem useSessionStorage (VStr key)
       else ret tt)
      (fun error =>
         throwOrReturnOnError throwOnError (error_removing_item key error) ;;
         ret tt)) ;;
  ret (RVal VUndefined).

Definition removeAllArrayItems (useSessionStorage throwOnError : bool)
  : M state ret_val :=
  let* ks := Object_keys useSessionStorage in
  forEach ks (fun key =>
    let* storedValue := getItem useSessionStorage (VStr key) in
    try_catch
      (let* parsedValue := JSON_parse storedValue in
       if isArray parsedValue
       then removeItem useSessionStorage (VStr key)
       else ret tt)
      (fun error =>
         throwOrReturnOnError throwOnError (error_removing_item key error) ;;
         ret tt)) ;;
  ret (RVal VUndefined).

Definition removeAllBooleanItems (useSessionStorage throwOnError : bool)
  : M state ret_val :=
  let* ks := Object_keys useSessionStorage in
  forEach ks (fun key =>
    let* storedValue := getItem useSessionStorage (VStr key) in
    try_catch
      (let* parsedValue := JSON_parse storedValue in
       if String.eqb (typeof parsedValue) "boolean"
       then removeItem useSessionStorage (VStr key)
       else ret tt)
      (fun error =>
         throwOrReturnOnError throwOnError (error_removing_item key error) ;;
         ret tt)) ;;
  ret (RVal VUndefined).

(** *** Methods that lean on host operators outside the value model

    [later_than t x] stands for [t > x] and [not_after x t] for [x <= t]
    with a number on one side and any value on the other (the host
    converts the value to a number first); [Uint8Array_error x] is the
    exception [new Uint8Array(x)] throws, if it throws. *)
Section HostOperators.
Variable later_than : Z -> value -> bool.
Variable not_after : value -> Z -> bool.
Variable Uint8Array_error : value -> option exn.

Definition member (v : value) (name : string) : M state value :=
  match get_member v name with
  | Some x => ret x
  | None => throw TypeError
  end.

Definition checkExpiration (key : value) (useSessionStorage throwOnError : bool)
  : M state value :=
  let* ok := isString key throwOnError in
  if negb ok then
    throwOrReturnOnError throwOnError key_must_be_string ;;
    ret VNull
  else
    let* storedValue := getItem useSessionStorage key in
    if negb (is_null storedValue) then
      let* item := JSON_parse storedValue in
      let* currentTime := Date_now in
      let* expirationTime := member item "expirationTime" in
      if truthy expirationTime && later_than currentTime expirationTime
      then ret (VBool true)
      else ret (VBool false)
    else ret VNull.

Definition clearExpiredValues (key : value) (useSessionStorage throwOnError : bool)
  : M state ret_val :=
  let* ok := isString key throwOnError in
  if negb ok then
    throwOrReturnOnError throwOnError key_must_be_string ;;
    ret (RVal VUndefined)
  else
    let* storedValue := getItem useSessionStorage key in
    try_catch
      (let* parsedValue := JSON_parse storedValue in
       if negb (truthy parsedValue) || negb (String.eqb (typeof parsedValue) "object")
       then
         throwOrReturnOnError throwOnError "Stored value must be an object." ;;
         ret tt
       else
         let* expirationTime := member parsedValue "expirationTime" in
         let* now := Date_now in
         if truthy expirationTime && not_after expirationTime now
         then removeItem useSessionStorage key
         else ret tt)
      (fun error =>
         throwOrReturnOnError throwOnError
           ("Invalid JSON format in stored value for key " +:+ quote_key key
              +:+ ": " +:+ message_of error) ;;
         ret tt) ;;
    ret (RVal VUndefined).

(** [new Uint8Array(x)], for its failure only. *)
Definition new_Uint8Array (x : value) : M state unit :=
  match Uint8Array_error x with
  | Some e => throw e
  | None => ret tt
  end.

(** The loop of [removeAllBinaryItems] reads every key by index and
    removes nothing, so it visits the keys the storage has on entry. *)
Definition removeAllBinaryItems (useSessionStorage throwOnError : bool)
  : M state ret_val :=
  let* ks := keys useSessionStorage in
  forEach ks (fun key =>
    let* storedValue := getItem useSessionStorage (VStr key) in
    try_catch
      (if String.eqb (typeof storedValue) "string" then
         let* parsedArray := JSON_parse storedValue in
         new_Uint8Array parsedArray
       else
         throwOrReturnOnError throwOnError
           ("Value stored for key '" +:+ key +:+ "' is not valid binary data.") ;;
         ret tt)
      (fun error =>
         throwOrReturnOnError throwOnError
           ("Error removing binary data for key '" +:+ key +:+ "': "
              +:+ message_of error) ;;
         ret tt)) ;;
  clear useSessionStorage ;;
  ret (RVal VUndefined).

End HostOperators.

(** *** What the sweeps look for in a stored text *)

Definition unparseable (s : string) : bool :=
  match JSON.parse_text s with
  | None => true
  | Some _ => false
  end.

Definition parses_to (p : value -> bool) (s : string) : bool :=
  match JSON.parse_text s with
  | Some v => p v
  | None => false
  end.

(** The reader of [JSON] leaves out fractions, exponents and [\u] escapes
    above [\u00ff].  [beyond_reader cs] holds when [cs] has a digit followed
    by a point or an exponent mark, or a [\u] escape: only such a text can
    be refused by the reader and still be read by the host. *)
Fixpoint beyond_reader (cs : list ascii) : bool :=
  match cs with
  | [] => false
  | c :: r =>
      match r with
      | [] => false
      | d :: _ =>
          (match JSON.digit_of c with Some _ => true | None => false end
           && (Ascii.eqb d "."%char || Ascii.eqb d "e"%char || Ascii.eqb d "E"%char))
          || (Ascii.eqb c JSON.backslash && Ascii.eqb d "u"%char)
          || beyond_reader r
      end
  end.

(** A stored text on which the reader and the host agree: the reader reads
    it, or it refuses it and the text has none of the constructs above. *)
Definition within_model (s : string) : bool :=
  negb (unparseable s) || negb (beyond_reader (list_ascii_of_string s)).

(** A stored text on which the reader and the host agree to the letter:
    what the reader reads from it is a [modelled] value, and when the
    reader refuses it the text has none of the constructs above, so the
    host refuses it too. *)
Definition faithful_text (s : string) : bool :=
  match JSON.parse_text s with
  | Some v => modelled v
  | None => negb (beyond_reader (list_ascii_of_string s))
  end.

Definition is_plain_object (v : value) : bool :=
  negb (is_null v) && String.eqb (typeof v) "object" && negb (isArray v).

Definition is_boolean (v : value) : bool := String.eqb (typeof v) "boolean".

Definition is_timing_item (v : value) : bool :=
  truthy v && String.eqb (typeof v) "object" && has_in "expirationTime" v.

(** What the array updaters are meant to do, told on the list itself:
    drop, or replace, the first element strictly equal to [x]. *)
Fixpoint remove_first (x : value) (xs : list value) : list value :=
  match xs with
  | [] => []
  | y :: rest => if strict_eq y x then rest else y :: remove_first x rest
  end.

Fixpoint replace_first (x new : value) (xs : list value) : list value :=
  match xs with
  | [] => []
  | y :: rest =>
      if strict_eq y x then new :: rest else y :: replace_first x new rest
  end.

(** [typeof x === 'object' && x !== null]: an array or an object. *)
Definition is_reference (x : value) : bool :=
  String.eqb (typeof x) "object" && negb (is_null x).

(** A host whose [localStorage] holds the array [[1,2,1]] under [xs]. *)
Definition array_host : state :=
  mkState (<["xs" := "[1,2,1]"]> ∅) ∅ [] [] 1000.

(** Instances of the host's comparisons, for the places where those of
    [checkExpiration] and [clearExpiredValues] are instantiated.  They are
    the host's on a number, on [null] and on a boolean (which count as [0]
    and as [0] or [1]) and on [undefined] and an object (which are not
    numbers: every comparison with them is false).  On a string or an
    array the host first reads a number out of the text; the instances
    give the answer for a text that is no number. *)
Definition number_later_than (t : Z) (x : value) : bool :=
  match x with
  | VNum n => (n <? t)%Z
  | VNull | VBool false => (0 <? t)%Z
  | VBool true => (1 <? t)%Z
  | _ => false
  end.

Definition number_not_after (x : value) (t : Z) : bool :=
  match x with
  | VNum n => (n <=? t)%Z
  | VNull | VBool false => (0 <=? t)%Z
  | VBool true => (1 <=? t)%Z
  | _ => false
  end.

(** [k] is among the keys [ks] a loop visits. *)
Definition visited (k : string) (ks : list string) : bool :=
  existsb (String.eqb k) ks.

(** A stored item after a sweep that removes the [condemned] texts. *)
Definition keep_unless (condemned : string -> bool) (o : option string)
  : option string :=
  match o with
  | Some s => if condemned s then None else Some s
  | None => None
  end.

(** The item under [k] after a sweep over [Object.keys(storage)]: a key
    that an inherited member hides is not visited. *)
Definition swept (condemned : string -> bool) (k : string) (o : option string)
  : option string :=
  if inherited_name k then o else keep_unless condemned o.

End StorageManager.

(** ** What a method may do to the host *)

Module Frame.
Import JS Eff Host.

(** [m] always leaves the host in a state related by [R] to the one it
    started in, whether it returns or throws. *)
Definition respects {A} (R : state -> state -> Prop) (m : M state A) : Prop :=
  forall st, R st (snd (m st)).


(** Storage contents at keys outside [ks] are the same, in both storages. *)
Definition same_outside (ks : list string) (st st' : state) : Prop :=
  forall uss k, ~ In k ks -> storage uss st' !! k = storage uss st !! k.

Definition is_remove (uss : bool) (c : call) : Prop :=
  exists k, c = RemoveItem uss k.

(** The mutating calls made are all [removeItem] on the storage [uss]. *)
Definition only_removes (uss : bool) (st st' : state) : Prop :=
  exists new, calls st' = calls st ++ new /\ Forall (is_remove uss) new.

(** A call that sets or removes one of the keys [ks]. *)
Definition on_keys (ks : list string) (c : call) : Prop :=
  match c with
  | SetItem _ k _ | RemoveItem _ k => In k ks
  | Clear _ => False
  end.

(** [m] makes at most [n] mutating storage calls, each on a key of [ks]. *)
Definition writes {A} (n : nat) (ks : list string) (m : M state A) : Prop :=
  forall st, exists new,
    calls (snd (m st)) = calls st ++ new
    /\ List.length new <= n
    /\ Forall (on_keys ks) new.

End Frame.

(** ** [LoggerValidation] and [LoggerBase] *)

Module LoggerValidation.
Import JS Eff.

Definition validReturnTypes : list string := ["WARN"; "INFO"; "DEBUG"].

(** [_validateLogLevel({ level })] *)
Definition _validateLogLevel {St} (level : value) : M St unit :=
  match Joi.string_valid_default "level" validReturnTypes level with
  | Some detail => throw (Error ("Invalid parameters: " +:+ detail))
  | None => ret tt
  end.

(** [_validateLogMessage({ message })] *)
Definition _validateLogMessage {St} (message : value) : M St unit :=
  match Joi.string_required "message" message with
  | Some detail => throw (Error ("Invalid parameters: " +:+ detail))
  | None => ret tt
  end.

(** [_validateFileName({ fileName })] *)
Definition _validateFileName {St} (fileName : value) : M St unit :=
  match Joi.string_required "fileName" fileName with
  | Some detail => throw (Error ("Invalid parameters: " +:+ detail))
  | None => ret tt
  end.

End LoggerValidation.

Module LoggerBase.
Import JS Eff LoggerValidation.

Definition LOG_LEVELS : list (string * value) :=
  [("DEBUG", VStr "DEBUG"); ("INFO", VStr "INFO"); ("WARN", VStr "WARN")].

(** [Object.keys(LOG_LEVELS)] *)
Definition LOG_LEVEL_keys : list string := map fst LOG_LEVELS.

(** The fields of an instance. *)
Record logger : Type := mkLogger {
  level : value;
  logs : list string
}.

(** [new LoggerBase(level)] *)
Definition constructor (level : value) : completion logger :=
  let level := default_arg level (VStr "INFO") in
  match _validateLogLevel level tt with
  | (Throw e, _) => Throw e
  | (Normal _, _) => Normal (mkLogger level [])
  end.

Definition setLogLevel (level : value) : M logger unit :=
  _validateLogLevel level ;;
  fun this => (Normal tt, mkLogger level (logs this)).

(** [setLogLevel] as it is reached by a call with actual arguments [args]:
    it has one parameter. *)
Definition setLogLevel_call (args : list value) : M logger unit :=
  setLogLevel (arg 0 args).

(** [LOG_LEVELS[logLevel]] is read among the own properties of
    [LOG_LEVELS]; names inherited from [Object.prototype] are outside the
    model. *)
Definition getLogLevel (logMessage : string) : value :=
  let parts := split " - " logMessage in
  match parts with
  | logLevel :: _ => get_prop logLevel LOG_LEVELS
  | [] => VUndefined
  end.

Definition format (msg level : string) : string :=
  "[" +:+ level +:+ "] - " +:+ msg.

Definition isValidLogLevel (level : value) : bool :=
  match level with
  | VStr s => existsb (fun v => match v with
                                | VStr s' => String.eqb s s'
                                | _ => false
                                end) (map snd LOG_LEVELS)
  | _ => false
  end.

(** [v.toString()] as a step: a [TypeError] on [undefined] and [null]. *)
Definition toStringM (v : value) : M logger string :=
  match toString v with
  | Some s => ret s
  | None => throw TypeError
  end.

(** [addLog(message, level)]; [timestamp] is what
    [new Date().toISOString()] returns at the call. *)
Definition addLog (message level : value) (timestamp : string) : M logger unit :=
  let level := default_arg level (VStr "INFO") in
  _validateLogLevel level ;;
  _validateLogMessage message ;;
  let* levelName := toStringM level in
  let levelIndex := indexOf levelName LOG_LEVEL_keys in
  let* thisLevel := (fun this => (Normal (LoggerBase.level this), this)) in
  let* thisLevelName := toStringM thisLevel in
  let levelConstructorIndex := indexOf thisLevelName LOG_LEVEL_keys in
  if (levelIndex <? levelConstructorIndex)%Z then ret tt
  else
    let finalMessage :=
      ToString level +:+ " - " +:+ timestamp +:+ " - " +:+ ToString message in
    fun this => (Normal tt, mkLogger (LoggerBase.level this) (logs this ++ [finalMessage])).

(** The position of a level in [Object.keys(LOG_LEVELS)]. *)
Definition levelIndex (name : string) : Z := indexOf name LOG_LEVEL_keys.

Definition getLogs (this : logger) : list string := logs this.

Definition clearLogs : M logger unit :=
  fun this => (Normal tt, mkLogger (level this) []).

(** Calls on an instance, as data, and the instance a sequence of calls
    leaves behind; a call that throws leaves the instance as it is at the
    throw, and the caller goes on. *)
Inductive call : Type :=
  | AddLog (message level : value) (timestamp : string)
  | SetLogLevel (level : value)
  | ClearLogs.

Definition perform (c : call) : M logger unit :=
  match c with
  | AddLog message level timestamp => addLog message level timestamp
  | SetLogLevel level => setLogLevel level
  | ClearLogs => clearLogs
  end.

Fixpoint perform_all (cs : list call) (this : logger) : logger :=
  match cs with
  | [] => this
  | c :: rest => perform_all rest (snd (perform c this))
  end.

(** The place of a level in the ordering (DEBUG, INFO, WARN), written
    out from the words of the specification, to compare with what
    [addLog] computes by [indexOf] on the keys of [LOG_LEVELS]. *)
Definition place_in_ordering (name : string) : Z :=
  if String.eqb name "DEBUG" then 0
  else if String.eqb name "INFO" then 1
  else if String.eqb name "WARN" then 2
  else (-1).

(** An entry whose level [getLogLevel] recovers and [isValidLogLevel]
    accepts. *)
Definition tagged (e : string) : bool := isValidLogLevel (getLogLevel e).

(** The entry [addLog] writes for a level name, a clock reading and a
    message. *)
Definition entry (levelName timestamp message : string) : string :=
  levelName +:+ " - " +:+ timestamp +:+ " - " +:+ message.

End LoggerBase.

(** ** The loggers built on [LoggerBase] *)

Module EventLogger.
Import JS Eff LoggerValidation.

(** The fields of an instance.  The listeners of [this.emitter] are the
    caller's code and are not run here: [emitted] records, oldest first,
    every event handed to [this.emitter.emit]. *)
Record event_logger : Type := mkEventLogger {
  base : LoggerBase.logger;
  emitted : list (string * value)
}.

(** An inherited method, run on the [LoggerBase] part of the instance. *)
Definition inherited {A} (m : M LoggerBase.logger A) : M event_logger A :=
  fun this =>
    match m (base this) with
    | (c, base') => (c, mkEventLogger base' (emitted this))
    end.

(** [this.emitter.emit(event, payload)] *)
Definition emitter_emit (event : string) (payload : value) : M event_logger unit :=
  fun this => (Normal tt, mkEventLogger (base this) (emitted this ++ [(event, payload)])).

(** [new EventLogger()] *)
Definition constructor : completion event_logger :=
  match LoggerBase.constructor VUndefined with
  | Normal b => Normal (mkEventLogger b [])
  | Throw e => Throw e
  end.

Definition log (message level : value) (timestamp : string) : M event_logger unit :=
  inherited (LoggerBase.addLog message level timestamp) ;;
  _validateLogLevel level ;;
  emitter_emit "log" (VObj [("level", level); ("message", message)]).

End EventLogger.

Module FileLogger.
Import JS Eff LoggerValidation.

Definition newline : string := String.String "010"%char "".

(** The fields of an instance, and two traces of what it hands to the
    host: [saved] holds the name and text of every [saveAs(blob, name)],
    [warned] the text of every [console.warn]. *)
Record file_logger : Type := mkFileLogger {
  base : LoggerBase.logger;
  fileName : value;
  saved : list (string * string);
  warned : list string
}.

(** [new FileLogger(fileName)] *)
Definition constructor (fileName : value) : completion file_logger :=
  match LoggerBase.constructor VUndefined with
  | Throw e => Throw e
  | Normal b =>
      match _validateFileName fileName tt with
      | (Throw e, _) => Throw e
      | (Normal _, _) => Normal (mkFileLogger b fileName [] [])
      end
  end.

Definition setFileName (name : value) : M file_logger unit :=
  _validateFileName name ;;
  fun this => (Normal tt, mkFileLogger (base this) name (saved this) (warned this)).

Definition console_warn (text : string) : M file_logger unit :=
  fun this =>
    (Normal tt, mkFileLogger (base this) (fileName this) (saved this)
                  (warned this ++ [text])).

(** [saveAs(new Blob([text]), name)] *)
Definition saveAs (text name : string) : M file_logger unit :=
  fun this =>
    (Normal tt, mkFileLogger (base this) (fileName this)
                  (saved this ++ [(name, text)]) (warned this)).

Definition inherited {A} (m : M LoggerBase.logger A) : M file_logger A :=
  fun this =>
    match m (base this) with
    | (c, base') => (c, mkFileLogger base' (fileName this) (saved this) (warned this))
    end.

Definition this_logs : M file_logger (list string) :=
  fun this => (Normal (LoggerBase.logs (base this)), this).

Definition this_fileName : M file_logger value :=
  fun this => (Normal (fileName this), this).

Definition downloadLogs (clearLogsAfterDownload : value) : M file_logger unit :=
  let clearLogsAfterDownload := default_arg clearLogsAfterDownload (VBool true) in
  let* logs := this_logs in
  if (List.length logs =? 0)%nat then console_warn "No logs to download."
  else
    let logContent := String.concat newline logs in
    let* name := this_fileName in
    saveAs logContent (ToString name) ;;
    if truthy clearLogsAfterDownload then inherited LoggerBase.clearLogs
    else ret tt.

Definition downloadLogsByLevel (level : value) : M file_logger unit :=
  _validateLogLevel level ;;
  let* logs := this_logs in
  let filteredLogs :=
    List.filter (fun log => strict_eq (LoggerBase.getLogLevel log) level) logs in
  if (List.length filteredLogs =? 0)%nat then
    console_warn ("No logs found for level: " +:+ ToString level)
  else
    let logContent := String.concat newline filteredLogs in
    let* name := this_fileName in
    saveAs logContent (ToString name +:+ "-" +:+ ToString level +:+ ".txt").

(** Entries as [addLog] writes them, from their level, clock reading and
    message, and the ones among them of a given level. *)
Definition entries_of (triples : list (string * string * string)) : list string :=
  map (fun t => LoggerBase.entry (fst (fst t)) (snd (fst t)) (snd t)) triples.

Definition of_level (lvl : string) (triples : list (string * string * string))
  : list (string * string * string) :=
  List.filter (fun t => String.eqb (fst (fst t)) lvl) triples.

End FileLogger.

Module AuditLogger.
Import JS Eff.

(** The fields of an instance ([maxLogs] is a number), and two traces of
    what it hands to the host: [saved] holds the text and the name argument
    of every [saveAs], [printed] the text of every [console.log]. *)
Record audit_logger : Type := mkAuditLogger {
  base : LoggerBase.logger;
  auditLogPath : value;
  logRotation : value;
  maxLogs : Z;
  saveIntoFile : value;
  saved : list (value * string);
  printed : list string
}.

(** [new AuditLogger(auditLogPath, logRotation, maxLogs, saveIntoFile)];
    [None] is an omitted [maxLogs]. *)
Definition constructor (auditLogPath logRotation : value) (maxLogs : option Z)
  (saveIntoFile : value) : completion audit_logger :=
  match LoggerBase.constructor VUndefined with
  | Throw e => Throw e
  | Normal b =>
      Normal (mkAuditLogger b auditLogPath
                (default_arg logRotation (VBool false))
                (match maxLogs with Some n => n | None => 10%Z end)
                (default_arg saveIntoFile (VBool true)) [] [])
  end.

Definition with_logs (logs : list string) (this : audit_logger) : audit_logger :=
  mkAuditLogger (LoggerBase.mkLogger (LoggerBase.level (base this)) logs)
    (auditLogPath this) (logRotation this) (maxLogs this) (saveIntoFile this)
    (saved this) (printed this).

Definition inherited {A} (m : M LoggerBase.logger A) : M audit_logger A :=
  fun this =>
    match m (base this) with
    | (c, base') =>
        (c, mkAuditLogger base' (auditLogPath this) (logRotation this)
              (maxLogs this) (saveIntoFile this) (saved this) (printed this))
    end.

Definition rotateLogsIfNeeded : M audit_logger unit :=
  fun this =>
    let logs := LoggerBase.logs (base this) in
    let length := Z.of_nat (List.length logs) in
    if (maxLogs this <? length)%Z
    then (Normal tt, with_logs (splice_front (length - maxLogs this) logs) this)
    else (Normal tt, this).

Definition logToFileSystem (log : string) : M audit_logger unit :=
  (fun this =>
     (Normal tt,
      mkAuditLogger (base this) (auditLogPath this) (logRotation this)
        (maxLogs this) (saveIntoFile this)
        (saved this ++ [(auditLogPath this, log +:+ FileLogger.newline)])
        (printed this))) ;;
  let* rotation := (fun this => (Normal (logRotation this), this)) in
  if truthy rotation then rotateLogsIfNeeded else ret tt.

(** [ConsoleLogger.log(message)], which is [console.log(message)]. *)
Definition ConsoleLogger_log (message : string) : M audit_logger unit :=
  fun this =>
    (Normal tt,
     mkAuditLogger (base this) (auditLogPath this) (logRotation this)
       (maxLogs this) (saveIntoFile this) (saved this) (printed this ++ [message])).

(** [logAuditAction(action, metadata)]; [timestamp] is what
    [new Date().toISOString()] returns at the call. *)
Definition logAuditAction (action metadata : value) (timestamp : string)
  : M audit_logger unit :=
  let log :=
    timestamp +:+ " - " +:+ ToString action +:+ " - "
      +:+ ToString (JSON.stringify metadata) in
  let* toFile := (fun this => (Normal (saveIntoFile this), this)) in
  if truthy toFile then logToFileSystem log else ConsoleLogger_log log.

End AuditLogger.

(** * Properties *)

(** ** Facts about the [JSON] model *)

Module JSONFacts.
Import JS JSON.

(** *** The model on sample texts *)

Example stringify_nested :
  stringify (VObj [("a", VArr [VNum 1; VUndefined; VNum (-20)]); ("b", VUndefined)])
  = VStr ("{" +:+ quoted "a" +:+ ":[1,null,-20]}").
Proof. reflexivity. Qed.

Example stringify_undefined : stringify VUndefined = VUndefined.
Proof. reflexivity. Qed.

Example stringify_escapes :
  stringify (VStr (String.String "010"%char (quoted "x")))
  = VStr (quoted ("\n\" +:+ quoted "x\")).
Proof. reflexivity. Qed.

Example parse_text_word : parse_text "hello" = None.
Proof. reflexivity. Qed.

Example parse_text_white_space :
  parse_text " [1, 2 ,true , null, {}] "
  = Some (VArr [VNum 1; VNum 2; VBool true; VNull; VObj []]).
Proof. reflexivity. Qed.

Example parse_text_leading_zero : parse_text "01" = None.
Proof. reflexivity. Qed.

Example parse_text_trailing_comma : parse_text "[1,]" = None.
Proof. reflexivity. Qed.

Example parse_text_repeated_key :
  parse_text ("{" +:+ quoted "a" +:+ ":1," +:+ quoted "b" +:+ ":2,"
                +:+ quoted "a" +:+ ":3}")
  = Some (VObj [("a", VNum 3); ("b", VNum 2)]).
Proof. reflexivity. Qed.

Example parse_null_argument : parse VNull = Some VNull.
Proof. reflexivity. Qed.

Example parse_undefined_argument : parse VUndefined = None.
Proof. reflexivity. Qed.

Example split_entry :
  split " - " "INFO - 2024-01-12T10:00:00.000Z - a - b"
  = ["INFO"; "2024-01-12T10:00:00.000Z"; "a"; "b"].
Proof. reflexivity. Qed.

(** *** Strings *)

Lemma read_string_escape (c : ascii) (body rest cs : list ascii) :
  read_string body = Some (cs, rest) ->
  read_string (escape c ++ body) = Some (c :: cs, rest).
Proof.
  intros Hbody.
  destruct c as [[] [] [] [] [] [] [] []];
    cbv [escape Ascii.eqb Bool.eqb dquote backslash N_of_ascii N_of_digits N.ltb N.compare
         Pos.compare Pos.compare_cont N.add N.mul Pos.add Pos.mul Pos.succ];
    cbn; rewrite Hbody; reflexivity.
Qed.

Lemma read_string_body (cs rest : list ascii) :
  read_string (flat_map escape cs ++ dquote :: rest) = Some (cs, rest).
Proof.
  induction cs as [|c cs IH]; [reflexivity|].
  cbn [flat_map]. rewrite <- app_assoc.
  now apply read_string_escape.
Qed.

Lemma read_string_quote (s : string) (rest : list ascii) :
  exists body, quote s ++ rest = dquote :: body
    /\ read_string body = Some (list_ascii_of_string s, rest).
Proof.
  exists (flat_map escape (list_ascii_of_string s) ++ dquote :: rest). split.
  - unfold quote. cbn [app]. now rewrite <- app_assoc.
  - apply read_string_body.
Qed.

(** *** Numbers *)

Lemma nzhead_not_D0 (d d' : Decimal.uint) : nzhead d <> D0 d'.
Proof. induction d; cbn; try discriminate. exact IHd. Qed.

Lemma unorm_lead_zero (d d' : Decimal.uint) : unorm d = D0 d' -> d' = Nil.
Proof.
  unfold unorm. destruct (nzhead d) eqn:E; intros H; try discriminate.
  - now injection H as <-.
  - exfalso. now apply (nzhead_not_D0 d u).
Qed.

Lemma to_uint_normal (n : N) : unorm (N.to_uint n) = N.to_uint n.
Proof.
  rewrite <- DecimalN.Unsigned.to_of. now rewrite DecimalN.Unsigned.of_to.
Qed.

Lemma to_uint_nonnil (n : N) : N.to_uint n <> Nil.
Proof.
  destruct n; cbn; [discriminate|]. apply DecimalPos.Unsigned.to_uint_nonnil.
Qed.

Lemma read_digits_chars (d : Decimal.uint) (rest : list ascii) :
  extends_number rest = false ->
  read_digits (uint_chars d ++ rest) = (d, rest).
Proof.
  intros Hrest.
  induction d; cbn [uint_chars app]; try (cbn; rewrite IHd; reflexivity).
  destruct rest as [|c r]; [reflexivity|].
  cbn in Hrest |- *. destruct (digit_of c); [discriminate|reflexivity].
Qed.

Lemma extends_number_tail (rest : list ascii) :
  extends_number rest = false ->
  match rest with
  | [] => false
  | c :: _ => Ascii.eqb c "."%char || Ascii.eqb c "e"%char || Ascii.eqb c "E"%char
  end = false.
Proof.
  destruct rest as [|c r]; [reflexivity|]. cbn.
  now destruct (digit_of c).
Qed.

Lemma read_unsigned (n : N) (rest : list ascii) :
  extends_number rest = false ->
  exists c r, nat_chars n ++ rest = c :: r
    /\ Ascii.eqb c "-"%char = false
    /\ digit_of c <> None
    /\ (if Ascii.eqb c "0"%char then (D0 Nil, r) else read_digits (c :: r))
       = (N.to_uint n, rest).
Proof.
  intros Hrest. unfold nat_chars.
  pose proof (to_uint_nonnil n) as Hnil.
  pose proof (to_uint_normal n) as Hnorm.
  pose proof (read_digits_chars (N.to_uint n) rest Hrest) as Hread.
  destruct (N.to_uint n) as [|d|d|d|d|d|d|d|d|d|d] eqn:E; [congruence| ..];
    cbn [uint_chars app] in *; eexists _, _; (split; [reflexivity|]);
    (split; [reflexivity|]); (split; [discriminate|]);
    try exact Hread.
  apply unorm_lead_zero in Hnorm. subst d. reflexivity.
Qed.

Lemma read_number_chars (z : Z) (rest : list ascii) :
  extends_number rest = false ->
  read_number (num_chars z ++ rest) = Some (z, rest).
Proof.
  intros Hrest.
  destruct (read_unsigned (Z.abs_N z) rest Hrest) as (c & r & Heq & Hminus & Hdig & Hread).
  pose proof (extends_number_tail rest Hrest) as Htail.
  unfold num_chars, read_number.
  destruct (z <? 0)%Z eqn:Hneg.
  - cbn [app]. rewrite Heq. cbn [Ascii.eqb Bool.eqb].
    destruct (digit_of c); [|congruence].
    rewrite Hread, Htail. rewrite DecimalN.Unsigned.of_to.
    f_equal. f_equal. apply Z.ltb_lt in Hneg. lia.
  - rewrite Heq, Hminus.
    destruct (digit_of c); [|congruence].
    rewrite Hread, Htail. rewrite DecimalN.Unsigned.of_to.
    f_equal. f_equal. apply Z.ltb_ge in Hneg. lia.
Qed.

(** *** One step of the reader, by the first character *)

Lemma read_value_string (f : nat) (body : list ascii) :
  read_value (S f) (dquote :: body)
  = match read_string body with
    | Some (cs, rest) => Some (VStr (string_of_list_ascii cs), rest)
    | None => None
    end.
Proof. reflexivity. Qed.

Lemma read_value_array (f : nat) (r : list ascii) :
  read_value (S f) ("["%char :: r)
  = match strip ["]"%char] (skip_ws r) with
    | Some rest => Some (VArr [], rest)
    | None =>
        match read_elems f r with
        | Some (vs, rest) => Some (VArr vs, rest)
        | None => None
        end
    end.
Proof. reflexivity. Qed.

Lemma read_value_object (f : nat) (r : list ascii) :
  read_value (S f) ("{"%char :: r)
  = match strip ["}"%char] (skip_ws r) with
    | Some rest => Some (VObj [], rest)
    | None =>
        match read_props f [] r with
        | Some (ps, rest) => Some (VObj ps, rest)
        | None => None
        end
    end.
Proof. reflexivity. Qed.

Lemma read_value_number (f : nat) (c : ascii) (r : list ascii) :
  opens_number c = true ->
  read_value (S f) (c :: r)
  = match read_number (c :: r) with
    | Some (n, rest) => Some (VNum n, rest)
    | None => None
    end.
Proof.
  destruct c as [[] [] [] [] [] [] [] []]; intros H;
    solve [discriminate H | reflexivity].
Qed.

Lemma read_elems_step (f : nat) (s : list ascii) :
  read_elems (S f) s
  = match read_value f s with
    | None => None
    | Some (v, r) =>
        match skip_ws r with
        | [] => None
        | c :: r' =>
            if Ascii.eqb c ","%char then
              match read_elems f r' with
              | Some (vs, rest) => Some (v :: vs, rest)
              | None => None
              end
            else if Ascii.eqb c "]"%char then Some ([v], r')
            else None
        end
    end.
Proof. reflexivity. Qed.

Lemma read_props_step (f : nat) (acc : list (string * value)) (body : list ascii) :
  read_props (S f) acc (dquote :: body)
  = match read_string body with
    | None => None
    | Some (k, r1) =>
        match strip [":"%char] (skip_ws r1) with
        | None => None
        | Some r2 =>
            match read_value f r2 with
            | None => None
            | Some (v, r3) =>
                let acc' := set_prop (string_of_list_ascii k) v acc in
                match skip_ws r3 with
                | [] => None
                | c3 :: r4 =>
                    if Ascii.eqb c3 ","%char then read_props f acc' r4
                    else if Ascii.eqb c3 "}"%char then Some (acc', r4)
                    else None
                end
            end
        end
    end.
Proof. reflexivity. Qed.

(** *** What a serialised value begins with *)

Lemma opens_value_facts (c : ascii) :
  opens_value c = true ->
  is_ws c = false /\ Ascii.eqb "]"%char c = false /\ Ascii.eqb "}"%char c = false.
Proof.
  destruct c as [[] [] [] [] [] [] [] []]; intros H;
    solve [discriminate H | repeat split].
Qed.

Lemma nat_chars_head (n : N) :
  exists c r, nat_chars n = c :: r /\ opens_number c = true.
Proof.
  destruct (read_unsigned n [] eq_refl) as (c & r & Heq & _ & Hdig & _).
  rewrite app_nil_r in Heq. exists c, r. split; [exact Heq|].
  unfold opens_number. destruct (digit_of c); [|congruence].
  apply orb_true_r.
Qed.

Lemma num_chars_head (z : Z) :
  exists c r, num_chars z = c :: r /\ opens_number c = true.
Proof.
  unfold num_chars. destruct (z <? 0)%Z.
  - now eexists _, _.
  - apply nat_chars_head.
Qed.

Lemma opens_number_value (c : ascii) : opens_number c = true -> opens_value c = true.
Proof.
  unfold opens_number, opens_value. intros H.
  apply orb_prop in H as [H|H]; rewrite H; now rewrite ?orb_true_r.
Qed.

Lemma serialize_head (v : value) (cs : list ascii) :
  serialize v = Some cs -> exists c r, cs = c :: r /\ opens_value c = true.
Proof.
  destruct v as [| |[]|n|s|l|ps]; cbn; intros H; try discriminate;
    injection H as <-; try (now eexists _, _).
  destruct (num_chars_head n) as (c & r & -> & Hc).
  exists c, r. split; [reflexivity|]. now apply opens_number_value.
Qed.

Lemma serializable_serialize (v : value) :
  serializable v = true -> serialize v = Some (elem_text v).
Proof. destruct v as [| |[]| | | |]; intros H; try discriminate H; reflexivity. Qed.

Lemma elem_text_head (v : value) :
  exists c r, elem_text v = c :: r /\ opens_value c = true.
Proof.
  unfold elem_text. destruct (serialize v) eqn:E.
  - now apply (serialize_head v).
  - now eexists _, _.
Qed.

Lemma skip_ws_opens (c : ascii) (r : list ascii) :
  opens_value c = true -> skip_ws (c :: r) = c :: r.
Proof.
  intros H. apply opens_value_facts in H as (Hws & _). cbn. now rewrite Hws.
Qed.

(** *** Arrays *)

Lemma join_cons2 (sep x y : list ascii) (l : list (list ascii)) :
  join sep (x :: y :: l) = x ++ sep ++ join sep (y :: l).
Proof. reflexivity. Qed.

Lemma read_elems_back (l : list value) :
  Forall reads_back l ->
  forallb serializable l = true ->
  l <> [] ->
  forall fuel rest,
    List.length (join [","%char] (map elem_text l)) < fuel ->
    read_elems fuel (join [","%char] (map elem_text l) ++ "]"%char :: rest)
    = Some (l, rest).
Proof.
  induction l as [|e l IH]; [congruence|].
  intros HP Hser _ fuel rest Hfuel.
  inversion HP as [|? ? He Hl]; subst.
  cbn [forallb] in Hser. apply andb_prop in Hser as [Hse Hsl].
  destruct fuel as [|f]; [lia|]. rewrite read_elems_step.
  destruct l as [|e' l'].
  - cbn [map join] in *.
    rewrite (He Hse f ("]"%char :: rest)); [reflexivity | lia | reflexivity].
  - cbn [map] in *. rewrite join_cons2 in *.
    rewrite !length_app in Hfuel. cbn [List.length] in Hfuel.
    rewrite <- !app_assoc. cbn [app].
    rewrite (He Hse f); [| lia | reflexivity].
    cbn [skip_ws is_ws Ascii.eqb Bool.eqb orb].
    rewrite (IH Hl Hsl); [reflexivity | discriminate | lia].
Qed.

(** *** Objects *)

Lemma members_kept (props : list (string * value)) :
  forallb (fun kv => serializable (snd kv)) props = true ->
  flat_map (fun kv => match kv with
                      | (k, e) =>
                          match serialize e with
                          | Some cs => [quote k ++ ":"%char :: cs]
                          | None => []
                          end
                      end) props
  = map member_text props.
Proof.
  induction props as [|[k e] props IH]; [reflexivity|].
  cbn [forallb flat_map map snd]. intros H. apply andb_prop in H as [He Hps].
  rewrite (IH Hps). unfold member_text. cbn [fst snd].
  now rewrite (serializable_serialize e He).
Qed.

Lemma read_props_back (props : list (string * value)) :
  Forall (fun kv => reads_back (snd kv)) props ->
  forallb (fun kv => serializable (snd kv)) props = true ->
  props <> [] ->
  forall fuel acc rest,
    List.length (join [","%char] (map member_text props)) < fuel ->
    read_props fuel acc (join [","%char] (map member_text props) ++ "}"%char :: rest)
    = Some (fold_left (fun a kv => set_prop (fst kv) (snd kv) a) props acc, rest).
Proof.
  induction props as [|[k e] props IH]; [congruence|].
  intros HP Hser _ fuel acc rest Hfuel.
  inversion HP as [|? ? He Hl]; subst. cbn [snd] in He.
  cbn [forallb snd] in Hser. apply andb_prop in Hser as [Hse Hsl].
  destruct fuel as [|f]; [lia|].
  assert (Hstep : forall tail,
             List.length (elem_text e) <= f ->
             extends_number tail = false ->
             read_props (S f) acc (member_text (k, e) ++ tail)
             = match skip_ws tail with
               | [] => None
               | c3 :: r4 =>
                   if Ascii.eqb c3 ","%char then read_props f (set_prop k e acc) r4
                   else if Ascii.eqb c3 "}"%char then Some (set_prop k e acc, r4)
                   else None
               end).
  { intros tail Hlen Htail. unfold member_text. cbn [fst snd].
    rewrite <- app_assoc. cbn [app].
    destruct (read_string_quote k (":"%char :: elem_text e ++ tail))
      as (body & -> & Hbody).
    rewrite read_props_step, Hbody.
    cbn [skip_ws is_ws Ascii.eqb Bool.eqb orb strip].
    rewrite (He Hse f tail Hlen Htail).
    now rewrite string_of_list_ascii_of_string. }
  destruct props as [|kv' props'].
  - cbn [map join fold_left fst snd] in *.
    unfold member_text in Hfuel. rewrite length_app in Hfuel.
    cbn [List.length fst snd] in Hfuel.
    rewrite Hstep; [reflexivity | lia | reflexivity].
  - cbn [map] in *. rewrite join_cons2 in *.
    rewrite !length_app in Hfuel. unfold member_text at 1 in Hfuel.
    rewrite length_app in Hfuel. cbn [List.length fst snd] in Hfuel.
    rewrite <- !app_assoc. cbn [app].
    rewrite Hstep; [| lia | reflexivity].
    cbn [skip_ws is_ws Ascii.eqb Bool.eqb orb fold_left fst snd].
    rewrite (IH Hl Hsl); [reflexivity | discriminate | lia].
Qed.

Lemma has_prop_app (k : string) (a b : list (string * value)) :
  has_prop k (a ++ b) = has_prop k a || has_prop k b.
Proof.
  induction a as [|[k' v'] a IH]; [reflexivity|].
  cbn. rewrite IH. now rewrite orb_assoc.
Qed.

Lemma set_prop_fresh (k : string) (v : value) (acc : list (string * value)) :
  has_prop k acc = false -> set_prop k v acc = acc ++ [(k, v)].
Proof.
  induction acc as [|[k' v'] acc IH]; [reflexivity|].
  cbn. intros H. apply orb_false_elim in H as [Hk Hacc].
  rewrite Hk. now rewrite (IH Hacc).
Qed.

Lemma fold_set_prop_distinct (props acc : list (string * value)) :
  distinct_keys (acc ++ props) = true ->
  fold_left (fun a kv => set_prop (fst kv) (snd kv) a) props acc = acc ++ props.
Proof.
  revert acc. induction props as [|[k v] props IH]; intros acc H.
  - now rewrite app_nil_r.
  - cbn [fold_left fst snd].
    assert (Hfresh : has_prop k acc = false).
    { clear IH. induction acc as [|[k' v'] acc IHa]; [reflexivity|].
      cbn in H. apply andb_prop in H as [Hk' Hrest].
      rewrite has_prop_app in Hk'. cbn in Hk'.
      apply negb_true_iff in Hk'.
      apply orb_false_elim in Hk' as [_ Hk'].
      apply orb_false_elim in Hk' as [Hk' _].
      cbn. rewrite (IHa Hrest), orb_false_r.
      rewrite String.eqb_sym. exact Hk'. }
    rewrite (set_prop_fresh k v acc Hfresh).
    rewrite IH; rewrite <- app_assoc; [reflexivity | exact H].
Qed.

(** *** Every serialisable value is read back *)

Lemma join_head (l : list value) :
  l <> [] ->
  exists c r, join [","%char] (map elem_text l) = c :: r /\ opens_value c = true.
Proof.
  destruct l as [|e l]; [congruence|]. intros _.
  destruct (elem_text_head e) as (c & r & He & Hc).
  destruct l as [|e' l'].
  - cbn [map join]. now exists c, r.
  - cbn [map]. rewrite join_cons2, He. cbn [app]. now eexists _, _.
Qed.

Lemma member_head (props : list (string * value)) :
  props <> [] ->
  exists r, join [","%char] (map member_text props) = dquote :: r.
Proof.
  destruct props as [|kv props]; [congruence|]. intros _.
  destruct props as [|kv' props'].
  - cbn [map join]. unfold member_text, quote. cbn [app]. now eexists.
  - cbn [map]. rewrite join_cons2. unfold member_text at 1, quote.
    cbn [app]. now eexists.
Qed.

Lemma serialize_reads_back (v : value) : reads_back v.
Proof.
  induction v as [| |b|n|s|l IH|ps IH] using value_ind;
    intros Hser fuel rest Hfuel Hrest; try discriminate Hser.
  - destruct fuel as [|f]; [cbn in Hfuel; lia|]. reflexivity.
  - destruct fuel as [|f]; [destruct b; cbn in Hfuel; lia|].
    destruct b; reflexivity.
  - change (elem_text (VNum n)) with (num_chars n) in *.
    destruct (num_chars_head n) as (c & r & Heq & Hc).
    destruct fuel as [|f]; [rewrite Heq in Hfuel; cbn in Hfuel; lia|].
    pose proof (read_number_chars n rest Hrest) as Hnum.
    rewrite Heq in *. cbn [app] in *.
    now rewrite (read_value_number f c _ Hc), Hnum.
  - change (elem_text (VStr s)) with (quote s) in *.
    destruct (read_string_quote s rest) as (body & -> & Hbody).
    destruct fuel as [|f]; [unfold quote in Hfuel; cbn in Hfuel; lia|].
    rewrite read_value_string, Hbody.
    now rewrite string_of_list_ascii_of_string.
  - change (elem_text (VArr l))
      with ("["%char :: join [","%char] (map elem_text l) ++ ["]"%char]) in *.
    cbn [List.length] in Hfuel. rewrite length_app in Hfuel. cbn [List.length] in Hfuel.
    destruct fuel as [|f]; [lia|].
    cbn [app]. rewrite <- app_assoc. cbn [app].
    rewrite read_value_array.
    destruct l as [|e l'] eqn:El; [reflexivity|]. rewrite <- El in *.
    assert (Hne : l <> []) by (rewrite El; discriminate).
    destruct (join_head l Hne) as (c & r & Hj & Hc).
    rewrite Hj at 1. cbn [app]. rewrite (skip_ws_opens c _ Hc).
    apply opens_value_facts in Hc as (_ & Hclose & _).
    cbn [strip]. rewrite Hclose.
    rewrite (read_elems_back l IH Hser Hne); [reflexivity | lia].
  - cbn [serializable] in Hser. apply andb_prop in Hser as [Hvals Hkeys].
    assert (Htext : elem_text (VObj ps)
                    = "{"%char :: join [","%char] (map member_text ps) ++ ["}"%char]).
    { unfold elem_text. cbn [serialize]. now rewrite (members_kept ps Hvals). }
    rewrite Htext in *.
    cbn [List.length] in Hfuel. rewrite length_app in Hfuel. cbn [List.length] in Hfuel.
    destruct fuel as [|f]; [lia|].
    cbn [app]. rewrite <- app_assoc. cbn [app].
    rewrite read_value_object.
    destruct ps as [|kv ps'] eqn:Eps; [reflexivity|]. rewrite <- Eps in *.
    assert (Hne : ps <> []) by (rewrite Eps; discriminate).
    destruct (member_head ps Hne) as (r & Hj).
    rewrite Hj at 1. cbn [app skip_ws is_ws Ascii.eqb Bool.eqb orb strip dquote].
    rewrite (read_props_back ps IH Hvals Hne); [| lia].
    now rewrite (fold_set_prop_distinct ps []).
Qed.

(** [JSON.parse(JSON.stringify(v))] is [v] for a serialisable [v]. *)
Lemma parse_text_serialize (v : value) :
  serializable v = true ->
  parse_text (string_of_list_ascii (elem_text v)) = Some v.
Proof.
  intros Hser. unfold parse_text.
  rewrite list_ascii_of_string_of_list_ascii.
  pose proof (serialize_reads_back v Hser (S (List.length (elem_text v))) []) as H.
  rewrite app_nil_r in H. rewrite H; [reflexivity | lia | reflexivity].
Qed.

Lemma stringify_serializable (v : value) :
  serializable v = true ->
  stringify v = VStr (string_of_list_ascii (elem_text v)).
Proof.
  intros Hser. unfold stringify. now rewrite (serializable_serialize v Hser).
Qed.

Lemma parse_stringify (v : value) :
  serializable v = true -> parse (stringify v) = Some v.
Proof.
  intros Hser. rewrite (stringify_serializable v Hser).
  unfold parse, ToString. cbn [to_chars].
  rewrite list_ascii_of_string_of_list_ascii.
  now apply parse_text_serialize.
Qed.

Lemma ToString_string (s : string) : ToString (VStr s) = s.
Proof. unfold ToString. cbn [to_chars]. apply string_of_list_ascii_of_string. Qed.

(** The text of a value is never the empty string. *)
Lemma stringify_truthy (v : value) :
  serializable v = true -> truthy (stringify v) = true.
Proof.
  intros Hser. rewrite (stringify_serializable v Hser).
  destruct (elem_text_head v) as (c & r & -> & _). reflexivity.
Qed.

(** A [modelled] value is one [JSON] can carry. *)
Lemma modelled_serializable (v : value) :
  modelled v = true -> serializable v = true.
Proof.
  induction v as [| |b|n|s|elems IH|props IH] using value_ind;
    cbn [modelled serializable]; try reflexivity; try discriminate.
  - induction IH as [|e l He _ IHl]; [reflexivity|].
    cbn [forallb]. intros H. apply andb_true_iff in H. destruct H as [H1 H2].
    now rewrite (He H1), (IHl H2).
  - intros H. apply andb_true_iff in H. destruct H as [H ->].
    rewrite andb_true_r.
    induction IH as [|kv l Hkv _ IHl]; [reflexivity|].
    cbn [forallb] in *. apply andb_true_iff in H. destruct H as [H1 H2].
    apply andb_true_iff in H1. destruct H1 as [_ H1].
    now rewrite (Hkv H1), (IHl H2).
Qed.

Lemma modelled_all_serializable (elems : list value) :
  forallb modelled elems = true -> forallb serializable elems = true.
Proof. intros H. exact (modelled_serializable (VArr elems) H). Qed.

End JSONFacts.

(** ** [LoggerBase] *)

Module LoggerFacts.
Import JS Eff LoggerValidation LoggerBase JSONFacts.

Lemma nonempty_eqb (s : string) : s <> "" -> String.eqb s "" = false.
Proof. intros H. now apply String.eqb_neq. Qed.

Lemma level_cases (name : string) :
  In name LOG_LEVEL_keys -> name = "DEBUG" \/ name = "INFO" \/ name = "WARN".
Proof. cbn. intuition. Qed.

(** What [addLog] does on well-formed arguments, in one equation. *)
Lemma addLog_run (this : logger) (msg lvl cur ts : string) :
  In lvl LOG_LEVEL_keys -> msg <> "" ->
  level this = VStr cur -> In cur LOG_LEVEL_keys ->
  addLog (VStr msg) (VStr lvl) ts this
  = (Normal tt,
     mkLogger (level this)
       (if (levelIndex lvl <? levelIndex cur)%Z then logs this
        else logs this ++ [lvl +:+ " - " +:+ ts +:+ " - " +:+ msg])).
Proof.
  intros Hlvl Hmsg Hcur Hin. destruct this as [l ls]. cbn in Hcur. subst l.
  apply nonempty_eqb in Hmsg.
  unfold addLog, bind, _validateLogMessage, Joi.string_required, toStringM, toString.
  rewrite Hmsg, !ToString_string.
  apply level_cases in Hlvl as [-> | [-> | ->]];
    apply level_cases in Hin as [-> | [-> | ->]]; reflexivity.
Qed.

Lemma levelIndex_place (name : string) :
  In name LOG_LEVEL_keys -> levelIndex name = place_in_ordering name.
Proof.
  intros H. apply level_cases in H as [-> | [-> | ->]]; reflexivity.
Qed.

(** C3 (where the code keeps the claim, and the input at which it does
    not): for a non-empty string message and a level among DEBUG, INFO,
    WARN.  On a logger whose level is one of the three,
    [addLog(message, level)] returns normally, never changes the logger's
    level, and appends exactly the one entry [level - timestamp - message]
    when the place of [level] in the ordering (DEBUG, INFO, WARN) is at
    least the place of the logger's level; otherwise it leaves the logs as
    they were.  But [setLogLevel(undefined)] returns normally on any
    logger and leaves its level [undefined], and on that logger the same
    [addLog] throws a [TypeError] and appends nothing.  An omitted level
    of [addLog] counts as INFO. *)
Theorem addLog_filters_by_level (this : logger) (msg lvl ts : string) :
  In lvl LOG_LEVEL_keys -> msg <> "" ->
  (forall cur, level this = VStr cur -> In cur LOG_LEVEL_keys ->
     exists this',
       addLog (VStr msg) (VStr lvl) ts this = (Normal tt, this')
       /\ level this' = level this
       /\ logs this'
          = (if (place_in_ordering cur <=? place_in_ordering lvl)%Z
             then logs this ++ [lvl +:+ " - " +:+ ts +:+ " - " +:+ msg]
             else logs this)
       /\ (logs this' = logs this ++ [lvl +:+ " - " +:+ ts +:+ " - " +:+ msg]
           <-> (place_in_ordering cur <= place_in_ordering lvl)%Z))
  /\ setLogLevel VUndefined this = (Normal tt, mkLogger VUndefined (logs this))
  /\ addLog (VStr msg) (VStr lvl) ts (mkLogger VUndefined (logs this))
     = (Throw TypeError, mkLogger VUndefined (logs this))
  /\ addLog (VStr msg) VUndefined ts this = addLog (VStr msg) (VStr "INFO") ts this.
Proof.
  intros Hlvl Hmsg. split; [|split; [|split]]; [| reflexivity | | reflexivity].
  - intros cur Hcur Hin.
    eexists. split; [now apply (addLog_run this msg lvl cur ts)|].
    cbn [level logs]. split; [reflexivity|].
    rewrite (levelIndex_place lvl Hlvl), (levelIndex_place cur Hin).
    destruct (place_in_ordering lvl <? place_in_ordering cur)%Z eqn:E.
    + apply Z.ltb_lt in E.
      replace (place_in_ordering cur <=? place_in_ordering lvl)%Z with false
        by (symmetry; apply Z.leb_gt; lia).
      split; [reflexivity|]. split; [|lia].
      intros Heq. exfalso.
      rewrite <- (app_nil_r (logs this)) in Heq at 1.
      apply app_inv_head in Heq. discriminate Heq.
    + apply Z.ltb_ge in E.
      replace (place_in_ordering cur <=? place_in_ordering lvl)%Z with true
        by (symmetry; apply Z.leb_le; lia).
      split; [reflexivity|]. split; [lia|reflexivity].
  - apply nonempty_eqb in Hmsg.
    unfold addLog, bind, _validateLogMessage, Joi.string_required, toStringM, toString.
    rewrite Hmsg, !ToString_string.
    apply level_cases in Hlvl as [-> | [-> | ->]]; reflexivity.
Qed.

Lemma addLog_filters_by_level_witness :
  (forall cur, VStr "INFO" = VStr cur -> In cur LOG_LEVEL_keys ->
     exists this',
       addLog (VStr "starting") (VStr "DEBUG") "2024-01-12T10:00:00.000Z"
         (mkLogger (VStr "INFO") ["WARN - t0 - old"])
       = (Normal tt, this')
       /\ level this' = VStr "INFO"
       /\ logs this'
          = (if (place_in_ordering cur <=? place_in_ordering "DEBUG")%Z
             then ["WARN - t0 - old"]
                    ++ ["DEBUG" +:+ " - " +:+ "2024-01-12T10:00:00.000Z" +:+ " - "
                          +:+ "starting"]
             else ["WARN - t0 - old"])
       /\ (logs this'
           = ["WARN - t0 - old"]
               ++ ["DEBUG" +:+ " - " +:+ "2024-01-12T10:00:00.000Z" +:+ " - "
                     +:+ "starting"]
           <-> (place_in_ordering cur <= place_in_ordering "DEBUG")%Z))
  /\ setLogLevel VUndefined (mkLogger (VStr "INFO") ["WARN - t0 - old"])
     = (Normal tt, mkLogger VUndefined ["WARN - t0 - old"])
  /\ addLog (VStr "starting") (VStr "DEBUG") "2024-01-12T10:00:00.000Z"
       (mkLogger VUndefined ["WARN - t0 - old"])
     = (Throw TypeError, mkLogger VUndefined ["WARN - t0 - old"])
  /\ addLog (VStr "starting") VUndefined "2024-01-12T10:00:00.000Z"
       (mkLogger (VStr "INFO") ["WARN - t0 - old"])
     = addLog (VStr "starting") (VStr "INFO") "2024-01-12T10:00:00.000Z"
         (mkLogger (VStr "INFO") ["WARN - t0 - old"]).
Proof.
  apply (addLog_filters_by_level (mkLogger (VStr "INFO") ["WARN - t0 - old"])
           "starting" "DEBUG" "2024-01-12T10:00:00.000Z").
  - cbn. tauto.
  - discriminate.
Defined.

(** The failing input, run: a fresh logger, [setLogLevel(undefined)], then
    [addLog('disk full', 'WARN')]. *)
Example addLog_on_undefined_level_throws :
  constructor VUndefined = Normal (mkLogger (VStr "INFO") [])
  /\ setLogLevel VUndefined (mkLogger (VStr "INFO") [])
     = (Normal tt, mkLogger VUndefined [])
  /\ addLog (VStr "disk full") (VStr "WARN") "2024-01-12T10:00:00.000Z"
       (mkLogger VUndefined [])
     = (Throw TypeError, mkLogger VUndefined []).
Proof. repeat split. Qed.

(** The filter at work: a DEBUG entry does not reach an INFO logger, a
    WARN entry does. *)
Example addLog_filters_debug_on_info :
  logs (snd (addLog (VStr "starting") (VStr "DEBUG") "t1" (mkLogger (VStr "INFO") [])))
  = []
  /\ logs (snd (addLog (VStr "disk full") (VStr "WARN") "t2"
                  (mkLogger (VStr "INFO") [])))
     = ["WARN - t2 - disk full"].
Proof. split; reflexivity. Qed.

Example addLog_twice :
  let this := mkLogger (VStr "INFO") [] in
  let this1 := snd (addLog (VStr "starting") (VStr "DEBUG") "t1" this) in
  let this2 := snd (addLog (VStr "started") VUndefined "t2" this1) in
  logs this1 = [] /\ logs this2 = ["INFO - t2 - started"].
Proof. split; reflexivity. Qed.

Example addLog_empty_message :
  exists msg,
    addLog (VStr "") (VStr "INFO") "t" (mkLogger (VStr "INFO") [])
    = (Throw (Error msg), mkLogger (VStr "INFO") []).
Proof. eexists. reflexivity. Qed.

Lemma getLogLevel_entry (lvl rest : string) :
  In lvl LOG_LEVEL_keys -> getLogLevel (lvl +:+ " - " +:+ rest) = VStr lvl.
Proof.
  intros H. apply level_cases in H as [-> | [-> | ->]]; reflexivity.
Qed.

(** C10: the entry that [addLog(message, level)] appends, for a valid
    message and level on a logger that lets the level through, has the form
    [level - timestamp - message], and [getLogLevel] applied to it returns
    that same level. *)
Theorem getLogLevel_of_added_entry (this : logger) (msg lvl cur ts : string) :
  In lvl LOG_LEVEL_keys -> msg <> "" ->
  level this = VStr cur -> In cur LOG_LEVEL_keys ->
  (levelIndex cur <= levelIndex lvl)%Z ->
  exists entry,
    addLog (VStr msg) (VStr lvl) ts this
    = (Normal tt, mkLogger (level this) (logs this ++ [entry]))
    /\ entry = lvl +:+ " - " +:+ ts +:+ " - " +:+ msg
    /\ getLogLevel entry = VStr lvl.
Proof.
  intros Hlvl Hmsg Hcur Hin Hle.
  exists (lvl +:+ " - " +:+ ts +:+ " - " +:+ msg). split; [|split].
  - rewrite (addLog_run this msg lvl cur ts) by assumption.
    apply Z.ltb_ge in Hle. now rewrite Hle.
  - reflexivity.
  - now apply getLogLevel_entry.
Qed.

Lemma getLogLevel_of_added_entry_witness :
  exists entry,
    addLog (VStr "a - b") (VStr "DEBUG") "2024-01-12T10:00:00.000Z"
      (mkLogger (VStr "DEBUG") ["INFO - t - old"])
    = (Normal tt, mkLogger (VStr "DEBUG") (["INFO - t - old"] ++ [entry]))
    /\ entry = "DEBUG" +:+ " - " +:+ "2024-01-12T10:00:00.000Z" +:+ " - " +:+ "a - b"
    /\ getLogLevel entry = VStr "DEBUG".
Proof.
  apply (getLogLevel_of_added_entry (mkLogger (VStr "DEBUG") ["INFO - t - old"])
           "a - b" "DEBUG" "DEBUG" "2024-01-12T10:00:00.000Z").
  - cbn. tauto.
  - discriminate.
  - reflexivity.
  - cbn. tauto.
  - vm_compute. discriminate.
Defined.

(** A level that is given (not [undefined]) and accepted by [setLogLevel]
    is one of the three level names. *)
Lemma setLogLevel_defined (lvl : value) (this this' : logger) :
  lvl <> VUndefined ->
  setLogLevel lvl this = (Normal tt, this') ->
  isValidLogLevel (level this') = true /\ logs this' = logs this.
Proof.
  intros Hdef. unfold setLogLevel, bind, _validateLogLevel, Joi.string_valid_default.
  destruct lvl as [| |b|n|s|l|ps]; try congruence; try discriminate.
  cbn [existsb validReturnTypes].
  destruct (String.eqb s "WARN") eqn:E1; [apply String.eqb_eq in E1; subst|];
    [intros H; injection H as <-; now split|].
  destruct (String.eqb s "INFO") eqn:E2; [apply String.eqb_eq in E2; subst|];
    [intros H; injection H as <-; now split|].
  destruct (String.eqb s "DEBUG") eqn:E3; [apply String.eqb_eq in E3; subst|];
    [intros H; injection H as <-; now split|].
  discriminate.
Qed.

(** C8 (what the code does at the failing input): the constructor turns a
    missing level into INFO, but [setLogLevel(undefined)] passes the
    validator, returns normally and leaves the [level] field [undefined],
    which is none of DEBUG, INFO, WARN; the next [addLog] then fails with a
    [TypeError] on [this.level.toString()]. *)
Theorem setLogLevel_undefined_breaks_level :
  constructor VUndefined = Normal (mkLogger (VStr "INFO") [])
  /\ setLogLevel VUndefined (mkLogger (VStr "INFO") [])
     = (Normal tt, mkLogger VUndefined [])
  /\ isValidLogLevel VUndefined = false
  /\ addLog (VStr "hello") (VStr "INFO") "2024-01-12T10:00:00.000Z"
       (mkLogger VUndefined [])
     = (Throw TypeError, mkLogger VUndefined []).
Proof. repeat split. Qed.

End LoggerFacts.

(** ** [StorageManager]: guards and host primitives *)

Module StorageFacts.
Import JS Eff Host DomValidator StorageManager JSONFacts.

Lemma accepts_string_spec (v : value) :
  accepts_string v = true <-> exists k, v = VStr k /\ k <> "".
Proof.
  split.
  - destruct v as [| |b|n|s|l|ps]; cbn; try discriminate. intros H.
    exists s. split; [reflexivity|]. apply negb_true_iff in H. now apply String.eqb_neq.
  - intros (k & -> & Hk). cbn. apply negb_true_iff. now apply String.eqb_neq.
Qed.

Lemma isString_accepts (k : string) (t : bool) (st : state) :
  k <> "" -> isString (St := state) (VStr k) t st = (Normal true, st).
Proof.
  intros Hk. apply String.eqb_neq in Hk.
  unfold isString, validateParams, Joi.string_required. now rewrite Hk.
Qed.

Lemma isString_rejects (key : value) (t : bool) (st : state) :
  accepts_string key = false ->
  exists detail,
    Joi.string_required "param" key = Some detail
    /\ isString (St := state) key t st
       = (if t then Throw (Error ("Invalid parameters: " +:+ detail)) else Normal false,
          st).
Proof.
  intros H. unfold isString, validateParams.
  destruct key as [| |b|n|s|l|ps]; cbn in H |- *;
    try (eexists; split; [reflexivity|]; now destruct t).
  apply negb_false_iff in H. rewrite H.
  eexists; split; [reflexivity|]; now destruct t.
Qed.

Lemma isNumber_accepts (n : Z) (t : bool) (st : state) :
  (Z.abs n <= Joi.MAX_SAFE_INTEGER)%Z ->
  isNumber (St := state) n t st = (Normal true, st).
Proof.
  intros H. apply Z.leb_le in H.
  unfold isNumber, validateParams, Joi.number_required. now rewrite H.
Qed.

Lemma getItem_run (uss : bool) (k : string) (st : state) :
  getItem uss (VStr k) st = (Normal (item uss k st), st).
Proof.
  unfold getItem, item. rewrite ToString_string.
  now destruct (storage uss st !! k).
Qed.

Lemma setItem_run (uss : bool) (k : string) (v : value) (st : state) :
  setItem uss (VStr k) v st
  = (Normal tt,
     with_storage uss (<[k := ToString v]> (storage uss st))
       (SetItem uss k (ToString v)) st).
Proof. unfold setItem. now rewrite ToString_string. Qed.

Lemma removeItem_run (uss : bool) (k : string) (st : state) :
  removeItem uss (VStr k) st
  = (Normal tt,
     with_storage uss (delete k (storage uss st)) (RemoveItem uss k) st).
Proof. unfold removeItem. now rewrite ToString_string. Qed.

Lemma storage_with_storage (uss : bool) (m : gmap string string) (c : call)
  (st : state) :
  storage uss (with_storage uss m c st) = m.
Proof. now destruct uss. Qed.

Lemma storage_with_other (uss : bool) (m : gmap string string) (c : call)
  (st : state) :
  storage (negb uss) (with_storage uss m c st) = storage (negb uss) st.
Proof. now destruct uss. Qed.

Lemma item_after_set (uss : bool) (k txt : string) (c : call) (st : state) :
  item uss k (with_storage uss (<[k := txt]> (storage uss st)) c st) = VStr txt.
Proof. unfold item. now rewrite storage_with_storage, lookup_insert_eq. Qed.

Lemma JSON_parse_run (x v : value) (st : state) :
  JSON.parse x = Some v -> JSON_parse x st = (Normal v, st).
Proof. intros H. unfold JSON_parse. now rewrite H. Qed.


(** The text [JSON.stringify] produces for a serialisable value, as stored. *)
Lemma stored_text (v : value) :
  serializable v = true ->
  exists txt,
    JSON.stringify v = VStr txt
    /\ ToString (JSON.stringify v) = txt
    /\ truthy (VStr txt) = true
    /\ JSON.parse_text txt = Some v
    /\ JSON.parse (VStr txt) = Some v.
Proof.
  intros Hser. exists (string_of_list_ascii (JSON.elem_text v)).
  pose proof (JSONFacts.stringify_serializable v Hser) as Hs.
  pose proof (JSONFacts.stringify_truthy v Hser) as Ht.
  pose proof (JSONFacts.parse_stringify v Hser) as Hp.
  rewrite Hs in *. rewrite ToString_string.
  repeat split; try assumption.
  now apply JSONFacts.parse_text_serialize.
Qed.

Lemma either_invalid_accepts (a b : M state bool) (st : state) :
  a st = (Normal true, st) -> b st = (Normal true, st) ->
  either_invalid a b st = (Normal false, st).
Proof.
  intros Ha Hb. unfold either_invalid, bind. rewrite Ha. cbn. now rewrite Hb.
Qed.

Lemma either_invalid_first (a b : M state bool) (t : bool) (st : state) (e : exn) :
  a st = (if t then Throw e else Normal false, st) ->
  either_invalid a b st = (if t then Throw e else Normal true, st).
Proof. intros Ha. unfold either_invalid, bind. rewrite Ha. now destruct t. Qed.

Lemma setTimeout_run (uss : bool) (k : string) (ms : Z) (st : state) :
  setTimeout uss (VStr k) ms st = (Normal tt, with_timer (mkTimer ms uss k) st).
Proof. unfold setTimeout, with_timer. now rewrite ToString_string. Qed.

Lemma store_and_schedule (k : string) (rec e : value) (ms : Z) (uss : bool)
  (handler : exn -> M state unit) (st : state) :
  let txt := ToString rec in
  let st1 := with_storage uss (<[k := txt]> (storage uss st)) (SetItem uss k txt) st in
  (try_catch (setItem uss (VStr k) rec) handler ;;
   (if truthy e then setTimeout uss (VStr k) ms else ret tt) ;;
   ret RThis) st
  = (Normal RThis, if truthy e then with_timer (mkTimer ms uss k) st1 else st1).
Proof.
  cbv zeta. unfold bind, try_catch. rewrite setItem_run. cbv beta iota.
  destruct (truthy e); [rewrite setTimeout_run|]; reflexivity.
Qed.

(** [setExpiration] on arguments that pass its guard, in one equation. *)
Lemma setExpiration_run (k : string) (v : value) (secs : Z) (uss t : bool)
  (st : state) :
  k <> "" -> (Z.abs secs <= Joi.MAX_SAFE_INTEGER)%Z ->
  let e := expirationTime_at (now st) secs in
  let txt := ToString (JSON.stringify (expiring_record v e)) in
  let st1 := with_storage uss (<[k := txt]> (storage uss st)) (SetItem uss k txt) st in
  setExpiration (VStr k) v secs uss t st
  = (Normal RThis,
     if truthy e then with_timer (mkTimer (secs * 1000) uss k) st1 else st1).
Proof.
  intros Hk Hsafe. cbv zeta. unfold setExpiration, bind at 1.
  rewrite (either_invalid_accepts _ _ st (isString_accepts k t st Hk)
             (isNumber_accepts secs t st Hsafe)).
  cbv beta iota. unfold bind at 1.
  unfold expirationTime_at, expiring_record. cbn [truthy].
  destruct (secs =? 0)%Z eqn:E; cbn [negb].
  - unfold ret at 1. cbv beta iota.
    apply (store_and_schedule k _ VNull (secs * 1000) uss _ st).
  - unfold bind at 1, Date_now, ret at 1. cbv beta iota.
    apply (store_and_schedule k _ (VNum (now st + secs * 1000)) (secs * 1000) uss _ st).
Qed.

(** The other setters and [removeValue], on a key that passes the guard. *)
Lemma setValue_run (k : string) (v : value) (uss t : bool) (st : state) :
  k <> "" ->
  let txt := ToString (JSON.stringify v) in
  setValue (VStr k) v uss t st
  = (Normal RThis,
     with_storage uss (<[k := txt]> (storage uss st)) (SetItem uss k txt) st).
Proof.
  intros Hk. cbv zeta. unfold setValue, bind.
  rewrite (isString_accepts k t st Hk). cbv beta iota. cbn [negb].
  now rewrite setItem_run.
Qed.

Lemma setNumber_run (k : string) (v : value) (uss t : bool) (st : state) :
  k <> "" ->
  let txt := ToString (JSON.stringify v) in
  setNumber (VStr k) v uss t st
  = if is_null (item uss k st)
    then (Normal RThis,
          with_storage uss (<[k := txt]> (storage uss st)) (SetItem uss k txt) st)
    else (Normal (RVal VUndefined), st).
Proof.
  intros Hk. cbv zeta. unfold setNumber, bind.
  rewrite (isString_accepts k t st Hk). cbv beta iota. cbn [negb].
  rewrite getItem_run. cbv beta iota.
  destruct (is_null (item uss k st)); [now rewrite setItem_run | reflexivity].
Qed.

Lemma setString_run (k s : string) (uss t : bool) (st : state) :
  k <> "" -> s <> "" ->
  setString (VStr k) (VStr s) uss t st
  = (Normal RThis,
     with_storage uss (<[k := s]> (storage uss st)) (SetItem uss k s) st).
Proof.
  intros Hk Hs. unfold setString, bind at 1.
  rewrite (either_invalid_accepts _ _ st (isString_accepts k t st Hk)
             (isString_accepts s t st Hs)).
  cbv beta iota. unfold bind. now rewrite setItem_run, ToString_string.
Qed.

Lemma removeValue_run (k : string) (uss t : bool) (st : state) :
  k <> "" ->
  removeValue (VStr k) uss t st
  = (Normal RThis,
     with_storage uss (delete k (storage uss st)) (RemoveItem uss k) st).
Proof.
  intros Hk. unfold removeValue, bind.
  rewrite (isString_accepts k t st Hk). cbv beta iota. cbn [negb].
  now rewrite removeItem_run.
Qed.

Lemma storage_with_timer (uss : bool) (tm : timer) (st : state) :
  storage uss (with_timer tm st) = storage uss st.
Proof. now destruct uss. Qed.

Lemma either_invalid_second (k : string) (b : M state bool) (t : bool)
  (st : state) (e : exn) :
  k <> "" ->
  b st = (if t then Throw e else Normal false, st) ->
  either_invalid (isString (VStr k) t) b st
  = (if t then Throw e else Normal true, st).
Proof.
  intros Hk Hb. unfold either_invalid, bind.
  rewrite (isString_accepts k t st Hk). cbv beta iota. cbn [negb].
  rewrite Hb. now destruct t.
Qed.


(** A call whose key fails the guard: both settings of [throwOnError]. *)
Ltac reject_with key st H :=
  split;
  [ destruct (isString_rejects key true st H) as (? & _ & Hg);
    eexists; unfold bind; rewrite Hg; reflexivity
  | destruct (isString_rejects key false st H) as (? & _ & Hg);
    eexists; unfold bind; rewrite Hg; split; reflexivity ].

Ltac reject_first key st H :=
  split;
  [ destruct (isString_rejects key true st H) as (? & _ & Hg);
    eexists; unfold bind at 1;
    rewrite (either_invalid_first _ _ true st _ Hg); reflexivity
  | destruct (isString_rejects key false st H) as (? & _ & Hg);
    eexists; unfold bind at 1;
    rewrite (either_invalid_first _ _ false st TypeError Hg); split; reflexivity ].

Ltac reject_second k key st Hk H :=
  split;
  [ destruct (isString_rejects key true st H) as (? & _ & Hg);
    eexists; unfold bind at 1;
    rewrite (either_invalid_second k _ true st _ Hk Hg); reflexivity
  | destruct (isString_rejects key false st H) as (? & _ & Hg);
    eexists; unfold bind at 1;
    rewrite (either_invalid_second k _ false st TypeError Hk Hg); split; reflexivity ].

End StorageFacts.

(** ** [StorageManager]: the claims about single calls *)

Module StorageClaims.
Import JS Eff Host DomValidator StorageManager JSONFacts StorageFacts.

(** C2, as stated, at the empty key: [setValue('', 1)] does not store, it
    throws, so no [getValue] after it returns the value. *)
Lemma setValue_empty_key_throws :
  ~ (exists r st1 st2,
       setValue (VStr "") (VNum 1) false true empty_host = (Normal r, st1)
       /\ getValue (VStr "") false true st1 = (Normal (VNum 1), st2)).
Proof. intros (r & st1 & st2 & H & _). discriminate H. Qed.

(** C2 (amended): for every non-empty string key, every serialisable value
    and every choice of storage, [setValue] stores and returns the class,
    and [getValue] on the state it leaves returns the value, without
    changing the state. *)
Theorem getValue_after_setValue (k : string) (v : value) (uss t1 t2 : bool)
  (st : state) :
  k <> "" -> serializable v = true ->
  exists st1,
    setValue (VStr k) v uss t1 st = (Normal RThis, st1)
    /\ getValue (VStr k) uss t2 st1 = (Normal v, st1).
Proof.
  intros Hk Hser.
  destruct (stored_text v Hser) as (txt & Hs & Htxt & Htruthy & _ & Hparse).
  eexists. split.
  - now apply setValue_run.
  - unfold getValue, bind. rewrite isString_accepts by assumption.
    cbv beta iota. cbn [negb].
    rewrite getItem_run, Htxt, item_after_set, Htruthy.
    now apply JSON_parse_run.
Qed.

Lemma getValue_after_setValue_witness :
  exists st1,
    setValue (VStr "user") (VObj [("name", VStr "ann"); ("tags", VArr [VNum 1; VNull])])
      true true empty_host
    = (Normal RThis, st1)
    /\ getValue (VStr "user") true true st1
       = (Normal (VObj [("name", VStr "ann"); ("tags", VArr [VNum 1; VNull])]), st1).
Proof.
  apply (getValue_after_setValue "user"
           (VObj [("name", VStr "ann"); ("tags", VArr [VNum 1; VNull])])
           true true true empty_host).
  - discriminate.
  - reflexivity.
Defined.

(** C9, as stated, at the empty key, which is a string and is absent from
    the storage: with [throwOnError = false] [getValue] returns [undefined],
    and with [throwOnError = true] it throws. *)
Lemma getValue_empty_key_not_null :
  storage false empty_host !! "" = None
  /\ getValue (VStr "") false false empty_host = (Normal VUndefined, empty_host)
  /\ exists msg,
       getValue (VStr "") false true empty_host = (Throw (Error msg), empty_host).
Proof. repeat split. eexists. reflexivity. Qed.

(** C9 (amended): for every non-empty string key that is absent from the
    chosen storage, and every setting of the flags, [getValue] returns
    exactly [null] and leaves the state alone. *)
Theorem getValue_absent (k : string) (uss t : bool) (st : state) :
  k <> "" ->
  storage uss st !! k = None ->
  getValue (VStr k) uss t st = (Normal VNull, st).
Proof.
  intros Hk Habs. unfold getValue, bind.
  rewrite isString_accepts by assumption. cbn [negb].
  rewrite getItem_run. unfold item. now rewrite Habs.
Qed.

Lemma getValue_absent_witness :
  getValue (VStr "missing") true false empty_host = (Normal VNull, empty_host).
Proof.
  apply (getValue_absent "missing" true false empty_host).
  - discriminate.
  - reflexivity.
Defined.

(** C4, as stated, at [setString]: the string it places into the storage
    is the raw argument, and [JSON.parse] fails on it. *)
Lemma setString_stores_raw_text :
  fst (setString (VStr "greeting") (VStr "hello") false true empty_host)
  = Normal RThis
  /\ storage false (snd (setString (VStr "greeting") (VStr "hello") false true
                           empty_host)) !! "greeting"
     = Some "hello"
  /\ JSON.parse_text "hello" = None.
Proof. repeat split. Qed.

(** C4 (amended): for a valid key and a [modelled] value (no [undefined]
    inside, safe integers for numbers, no property named by digits only),
    [setValue], [setNumber] on a key not yet present, and [setExpiration]
    place a string that [JSON.parse] reads back to the persisted entity:
    the value itself for the first two, the record
    [{ value, expirationTime }] for [setExpiration], as long as
    [secondsToExpiration * 1000] and [Date.now() + secondsToExpiration * 1000]
    are safe integers.  [setString] places its string argument unchanged,
    and [setEncrypted] and [setCompressed] place the encoder's output
    unchanged; none of the three serialises. *)
Theorem serialising_setters_store_json (k : string) (v : value) (secs : Z)
  (uss t : bool) (st : state) :
  k <> "" -> modelled v = true ->
  (Z.abs (secs * 1000) <= Joi.MAX_SAFE_INTEGER)%Z ->
  (Z.abs (now st + secs * 1000) <= Joi.MAX_SAFE_INTEGER)%Z ->
  (exists txt,
     storage uss (snd (setValue (VStr k) v uss t st)) !! k = Some txt
     /\ JSON.parse_text txt = Some v)
  /\ (storage uss st !! k = None ->
      exists txt,
        storage uss (snd (setNumber (VStr k) v uss t st)) !! k = Some txt
        /\ JSON.parse_text txt = Some v)
  /\ (exists txt,
        storage uss (snd (setExpiration (VStr k) v secs uss t st)) !! k = Some txt
        /\ JSON.parse_text txt
           = Some (expiring_record v (expirationTime_at (now st) secs))
        /\ modelled (expiring_record v (expirationTime_at (now st) secs)) = true)
  /\ (forall s, s <> "" ->
      storage uss (snd (setString (VStr k) (VStr s) uss t st)) !! k = Some s)
  /\ (forall AES_encrypt data,
      storage uss (snd (setEncrypted AES_encrypt (VStr k) data uss t st)) !! k
      = Some (AES_encrypt data "your-secret-key"))
  /\ (forall LZ_compress data,
      storage uss (snd (setCompressed LZ_compress (VStr k) data uss t st)) !! k
      = Some (LZ_compress data)).
Proof.
  intros Hk Hmod Hprod Hsum.
  assert (Hsafe : (Z.abs secs <= Joi.MAX_SAFE_INTEGER)%Z) by lia.
  assert (Hrecm : modelled (expiring_record v (expirationTime_at (now st) secs))
                  = true).
  { unfold expiring_record, expirationTime_at. cbn. rewrite Hmod.
    destruct (secs =? 0)%Z; [reflexivity|]. cbn [modelled].
    unfold safe_integer. apply Z.leb_le in Hsum.
    unfold Joi.MAX_SAFE_INTEGER in Hsum. now rewrite Hsum. }
  pose proof (modelled_serializable v Hmod) as Hser.
  pose proof (modelled_serializable _ Hrecm) as Hrec.
  destruct (stored_text v Hser) as (txt & Hs & Htxt & _ & Hparse & _).
  split; [|split; [|split; [|split; [|split]]]].
  - exists txt. split; [|exact Hparse].
    rewrite (setValue_run k v uss t st Hk), Htxt. cbn [snd].
    now rewrite storage_with_storage, lookup_insert_eq.
  - intros Habs. exists txt. split; [|exact Hparse].
    rewrite (setNumber_run k v uss t st Hk), Htxt.
    unfold item at 1. rewrite Habs. cbn [is_null snd].
    now rewrite storage_with_storage, lookup_insert_eq.
  - destruct (stored_text _ Hrec) as (rtxt & _ & Hrtxt & _ & Hrparse & _).
    exists rtxt. split; [|split; [exact Hrparse | exact Hrecm]].
    rewrite (setExpiration_run k v secs uss t st Hk Hsafe). cbn [snd]. rewrite Hrtxt.
    destruct (truthy _); rewrite ?storage_with_timer;
      now rewrite storage_with_storage, lookup_insert_eq.
  - intros s Hs'. rewrite (setString_run k s uss t st Hk Hs'). cbn [snd].
    now rewrite storage_with_storage, lookup_insert_eq.
  - intros AES_encrypt data. unfold setEncrypted, bind.
    rewrite (isString_accepts k t st Hk). cbv beta iota zeta. cbn [negb].
    rewrite setItem_run, ToString_string. unfold ret. cbv beta iota. cbn [snd].
    now rewrite storage_with_storage, lookup_insert_eq.
  - intros LZ_compress data. unfold setCompressed, bind.
    rewrite (isString_accepts k t st Hk). cbv beta iota zeta. cbn [negb].
    rewrite setItem_run, ToString_string. unfold ret. cbv beta iota. cbn [snd].
    now rewrite storage_with_storage, lookup_insert_eq.
Qed.

Lemma serialising_setters_store_json_witness :
  (exists txt,
     storage false (snd (setValue (VStr "n") (VArr [VNum 7]) false true empty_host))
       !! "n" = Some txt
     /\ JSON.parse_text txt = Some (VArr [VNum 7]))
  /\ (exists txt,
        storage false
          (snd (setExpiration (VStr "n") (VArr [VNum 7]) 60 false true empty_host))
          !! "n" = Some txt
        /\ JSON.parse_text txt
           = Some (expiring_record (VArr [VNum 7])
                     (expirationTime_at (now empty_host) 60))
        /\ modelled (expiring_record (VArr [VNum 7])
                       (expirationTime_at (now empty_host) 60)) = true)
  /\ (forall s, s <> "" ->
      storage false (snd (setString (VStr "n") (VStr s) false true empty_host))
        !! "n" = Some s).
Proof.
  pose proof (serialising_setters_store_json "n" (VArr [VNum 7]) 60 false true
                empty_host ltac:(discriminate) eq_refl
                ltac:(vm_compute; discriminate) ltac:(vm_compute; discriminate))
    as (Hvalue & _ & Hrecord & Hstring & _).
  split; [exact Hvalue | split; [exact Hrecord | exact Hstring]].
Defined.


(** The accessors that call [JSON.parse] outside a [try] pass its
    [SyntaxError] on, whatever [throwOnError] is. *)
Lemma getNumber_propagates_SyntaxError :
  let st := snd (setString (VStr "n") (VStr "hello") false true empty_host) in
  getNumber (VStr "n") false false st = (Throw SyntaxError, st).
Proof. reflexivity. Qed.



(** *** The guard pattern *)

Lemma swapValues_second_invalid (other key : value) (uss : bool) (st : state) :
  accepts_string key = false ->
  guarded (fun t => swapValues other key uss t) st.
Proof.
  intros H. unfold guarded, swapValues.
  destruct (accepts_string other) eqn:Ho.
  - apply accepts_string_spec in Ho as (k & -> & Hk). reject_second k key st Hk H.
  - reject_first other st Ho.
Qed.

Lemma setString_value_invalid (other key : value) (uss : bool) (st : state) :
  accepts_string key = false ->
  guarded (fun t => setString other key uss t) st.
Proof.
  intros H. unfold guarded, setString.
  destruct (accepts_string other) eqn:Ho.
  - apply accepts_string_spec in Ho as (k & -> & Hk). reject_second k key st Hk H.
  - reject_first other st Ho.
Qed.

(** C1, as stated, at [LoggerBase.setLogLevel]: called with the invalid
    level ERROR and a trailing [false], it throws all the same; the method
    has no [throwOnError] parameter. *)
Lemma setLogLevel_throws_despite_false :
  (exists msg,
     LoggerBase.setLogLevel_call [VStr "ERROR"; VBool false]
       (LoggerBase.mkLogger (VStr "INFO") [])
     = (Throw (Error msg), LoggerBase.mkLogger (VStr "INFO") []))
  /\ ~ (exists r this',
         LoggerBase.setLogLevel_call [VStr "ERROR"; VBool false]
           (LoggerBase.mkLogger (VStr "INFO") [])
         = (Normal r, this')).
Proof.
  split.
  - eexists. reflexivity.
  - intros (r & this' & H). discriminate H.
Qed.

(** C1 (amended): each modelled [StorageManager] method that takes a key
    has a trailing [throwOnError]: when a key (or the string of [setString])
    is not a non-empty string, the call throws an [Error] if [throwOnError]
    is true and returns [undefined] or [null] if it is false, and the host
    is untouched.  [clearStorage] has no [throwOnError] and always returns
    normally.  [LoggerBase.setLogLevel] has no [throwOnError] either: on a
    level the validator refuses it throws an [Error] whatever arguments
    follow the level. *)
Theorem throwOnError_pattern (key : value) (st : state) :
  accepts_string key = false ->
  (forall v other uss,
     guarded (fun t => invoke (SetValue key v uss t)) st
     /\ guarded (fun t => invoke (GetValue key uss t)) st
     /\ guarded (fun t => invoke (RemoveValue key uss t)) st
     /\ guarded (fun t => invoke (GetObject key uss t)) st
     /\ guarded (fun t => invoke (GetArray key uss t)) st
     /\ guarded (fun t => invoke (SetNumber key v uss t)) st
     /\ guarded (fun t => invoke (GetNumber key uss t)) st
     /\ guarded (fun t => invoke (GetBoolean key uss t)) st
     /\ guarded (fun t => invoke (SetString key v uss t)) st
     /\ guarded (fun t => invoke (SetString other key uss t)) st
     /\ guarded (fun t => invoke (GetString key uss t)) st
     /\ (forall secs, guarded (fun t => invoke (SetExpiration key v secs uss t)) st)
     /\ guarded (fun t => invoke (SwapValues key other uss t)) st
     /\ guarded (fun t => invoke (SwapValues other key uss t)) st)
  /\ (forall uss, exists st',
        invoke (ClearStorage uss) st = (Normal (RVal VUndefined), st'))
  /\ (forall lvl args this,
        Joi.string_valid_default "level" LoggerValidation.validReturnTypes lvl <> None ->
        exists msg,
          LoggerBase.setLogLevel_call (lvl :: args) this = (Throw (Error msg), this)).
Proof.
  intros H. split; [|split].
  - intros v other uss.
    repeat match goal with |- _ /\ _ => split end;
      try intros secs; try (now apply setString_value_invalid);
      try (now apply swapValues_second_invalid);
      unfold guarded, invoke, returning.
    + unfold setValue. reject_with key st H.
    + unfold getValue. reject_with key st H.
    + unfold removeValue. reject_with key st H.
    + unfold getObject. reject_with key st H.
    + unfold getArray. reject_with key st H.
    + unfold setNumber. reject_with key st H.
    + unfold getNumber. reject_with key st H.
    + unfold getBoolean. reject_with key st H.
    + unfold setString. reject_first key st H.
    + unfold getString. reject_with key st H.
    + unfold setExpiration. reject_first key st H.
    + unfold swapValues. reject_first key st H.
  - intros uss. eexists. reflexivity.
  - intros lvl args this Hbad.
    unfold LoggerBase.setLogLevel_call, LoggerBase.setLogLevel, arg, bind.
    cbn [nth]. unfold LoggerValidation._validateLogLevel.
    destruct (Joi.string_valid_default "level" LoggerValidation.validReturnTypes lvl)
      as [detail|]; [|congruence].
    eexists. reflexivity.
Qed.

Lemma throwOnError_pattern_witness :
  guarded (fun t => invoke (SetValue (VNum 5) (VStr "x") false t)) empty_host
  /\ guarded (fun t => invoke (GetNumber (VNum 5) false t)) empty_host
  /\ exists msg,
       LoggerBase.setLogLevel_call [VStr "ERROR"; VBool false]
         (LoggerBase.mkLogger (VStr "WARN") [])
       = (Throw (Error msg), LoggerBase.mkLogger (VStr "WARN") []).
Proof.
  pose proof (throwOnError_pattern (VNum 5) empty_host eq_refl) as (Hkeyed & _ & Hlog).
  destruct (Hkeyed (VStr "x") VNull false) as (Hset & _ & _ & _ & _ & _ & Hget & _).
  split; [exact Hset|]. split; [exact Hget|].
  apply (Hlog (VStr "ERROR") [VBool false]). discriminate.
Defined.

End StorageClaims.

(** ** Effects of the methods on the host *)

Module FrameFacts.
Import JS Eff Host DomValidator StorageManager Frame.

(** *** Rules for any reflexive and transitive relation on hosts *)

Section Respects.
Variable R : state -> state -> Prop.
Hypothesis R_refl : forall st, R st st.
Hypothesis R_trans : forall a b c, R a b -> R b c -> R a c.

Lemma respects_ret {A} (a : A) : respects R (ret a).
Proof. intros st. apply R_refl. Qed.

Lemma respects_throw {A} (e : exn) : respects R (throw (A := A) e).
Proof. intros st. apply R_refl. Qed.

Lemma respects_bind {A B} (m : M state A) (k : A -> M state B) :
  respects R m -> (forall a, respects R (k a)) -> respects R (bind m k).
Proof.
  intros Hm Hk st. unfold bind. specialize (Hm st).
  destruct (m st) as [[a|e] st1]; cbn [snd] in *; [|exact Hm].
  eapply R_trans; [exact Hm | apply Hk].
Qed.

Lemma respects_try {A} (body : M state A) (handler : exn -> M state A) :
  respects R body -> (forall e, respects R (handler e)) ->
  respects R (try_catch body handler).
Proof.
  intros Hm Hk st. unfold try_catch. specialize (Hm st).
  destruct (body st) as [[a|e] st1]; cbn [snd] in *; [exact Hm|].
  eapply R_trans; [exact Hm | apply Hk].
Qed.

Lemma respects_if {A} (c : bool) (a b : M state A) :
  respects R a -> respects R b -> respects R (if c then a else b).
Proof. now destruct c. Qed.

Lemma respects_forEach {A} (xs : list A) (f : A -> M state unit) :
  (forall x, respects R (f x)) -> respects R (forEach xs f).
Proof.
  intros Hf. induction xs as [|x xs IH]; cbn [forEach].
  - apply respects_ret.
  - apply respects_bind; [apply Hf | intros _; exact IH].
Qed.

Lemma respects_validateParams (error : option string) (t : bool) :
  respects R (validateParams (St := state) error t).
Proof.
  unfold validateParams. destruct error; [destruct t|];
    first [apply respects_throw | apply respects_ret].
Qed.

Lemma respects_throwOrReturnOnError (t : bool) (msg : string) :
  respects R (throwOrReturnOnError (St := state) t msg).
Proof.
  unfold throwOrReturnOnError. destruct t;
    first [apply respects_throw | apply respects_ret].
Qed.

Lemma respects_JSON_parse (x : value) : respects R (JSON_parse x).
Proof.
  unfold JSON_parse. destruct (JSON.parse x);
    first [apply respects_throw | apply respects_ret].
Qed.

Lemma respects_getItem (uss : bool) (key : value) : respects R (getItem uss key).
Proof.
  intros st. unfold getItem. destruct (storage uss st !! ToString key); apply R_refl.
Qed.

Lemma respects_keys (uss : bool) : respects R (keys uss).
Proof. intros st. apply R_refl. Qed.

Lemma respects_Object_keys (uss : bool) : respects R (Object_keys uss).
Proof. intros st. apply R_refl. Qed.

Lemma respects_Date_now : respects R Date_now.
Proof. intros st. apply R_refl. Qed.

End Respects.

(** *** Timers are only added *)








(** *** Keys outside the named ones keep their contents *)

Lemma same_outside_refl (ks : list string) (st : state) : same_outside ks st st.
Proof. now intros uss k _. Qed.

Lemma same_outside_trans (ks : list string) (a b c : state) :
  same_outside ks a b -> same_outside ks b c -> same_outside ks a c.
Proof. intros Hab Hbc uss k Hk. now rewrite (Hbc uss k Hk), (Hab uss k Hk). Qed.

Lemma same_outside_setItem (ks : list string) (uss : bool) (key v : value) :
  In (ToString key) ks -> respects (same_outside ks) (setItem uss key v).
Proof.
  intros Hin st uss' k Hk. cbn [setItem snd].
  assert (ToString key <> k) by (intros <-; contradiction).
  destruct uss, uss'; cbn; try reflexivity; now apply lookup_insert_ne.
Qed.

Lemma same_outside_removeItem (ks : list string) (uss : bool) (key : value) :
  In (ToString key) ks -> respects (same_outside ks) (removeItem uss key).
Proof.
  intros Hin st uss' k Hk. cbn [removeItem snd].
  assert (ToString key <> k) by (intros <-; contradiction).
  destruct uss, uss'; cbn; try reflexivity; now apply lookup_delete_ne.
Qed.

Lemma same_outside_setTimeout (ks : list string) (uss : bool) (key : value) (ms : Z) :
  respects (same_outside ks) (setTimeout uss key ms).
Proof. intros st uss' k _. now destruct uss'. Qed.

(** *** Only [removeItem] calls *)

Lemma only_removes_refl (uss : bool) (st : state) : only_removes uss st st.
Proof. exists []. split; [now rewrite app_nil_r | constructor]. Qed.

Lemma only_removes_trans (uss : bool) (a b c : state) :
  only_removes uss a b -> only_removes uss b c -> only_removes uss a c.
Proof.
  intros (x & Hx & Fx) (y & Hy & Fy). exists (x ++ y). split.
  - now rewrite Hy, Hx, app_assoc.
  - apply Forall_app. now split.
Qed.

Lemma only_removes_removeItem (uss : bool) (key : value) :
  respects (only_removes uss) (removeItem uss key).
Proof.
  intros st. exists [RemoveItem uss (ToString key)]. split.
  - cbn [removeItem snd]. now destruct uss.
  - constructor; [now eexists | constructor].
Qed.

(** *** Counting the mutating calls *)

Lemma writes_silent {A} (ks : list string) (m : M state A) :
  (forall st, calls (snd (m st)) = calls st) -> writes 0 ks m.
Proof.
  intros H st. exists []. rewrite H, app_nil_r. repeat split; [cbn; lia | constructor].
Qed.

Lemma writes_ret {A} (ks : list string) (a : A) : writes 0 ks (ret a).
Proof. now apply writes_silent. Qed.

Lemma writes_throw {A} (ks : list string) (e : exn) : writes 0 ks (throw (A := A) e).
Proof. now apply writes_silent. Qed.

Lemma writes_weaken {A} (n n' : nat) (ks : list string) (m : M state A) :
  writes n ks m -> n <= n' -> writes n' ks m.
Proof.
  intros H Hle st. destruct (H st) as (new & Hc & Hn & Hk).
  exists new. repeat split; [exact Hc | lia | exact Hk].
Qed.

Lemma writes_bind {A B} (n1 n2 : nat) (ks : list string) (m : M state A)
  (k : A -> M state B) :
  writes n1 ks m -> (forall a, writes n2 ks (k a)) -> writes (n1 + n2) ks (bind m k).
Proof.
  intros Hm Hk st. unfold bind. destruct (Hm st) as (new1 & Hc1 & Hn1 & Hk1).
  destruct (m st) as [[a|e] st1]; cbn [snd] in *.
  - destruct (Hk a st1) as (new2 & Hc2 & Hn2 & Hk2).
    exists (new1 ++ new2). rewrite Hc2, Hc1, app_assoc, length_app.
    repeat split; [lia | apply Forall_app; now split].
  - exists new1. repeat split; [exact Hc1 | lia | exact Hk1].
Qed.

Lemma writes_try {A} (n1 n2 : nat) (ks : list string) (body : M state A)
  (handler : exn -> M state A) :
  writes n1 ks body -> (forall e, writes n2 ks (handler e)) ->
  writes (n1 + n2) ks (try_catch body handler).
Proof.
  intros Hm Hk st. unfold try_catch. destruct (Hm st) as (new1 & Hc1 & Hn1 & Hk1).
  destruct (body st) as [[a|e] st1]; cbn [snd] in *.
  - exists new1. repeat split; [exact Hc1 | lia | exact Hk1].
  - destruct (Hk e st1) as (new2 & Hc2 & Hn2 & Hk2).
    exists (new1 ++ new2). rewrite Hc2, Hc1, app_assoc, length_app.
    repeat split; [lia | apply Forall_app; now split].
Qed.

Lemma writes_if {A} (n1 n2 : nat) (ks : list string) (c : bool) (a b : M state A) :
  writes n1 ks a -> writes n2 ks b -> writes (Nat.max n1 n2) ks (if c then a else b).
Proof.
  intros Ha Hb. destruct c; [apply (writes_weaken n1) | apply (writes_weaken n2)];
    try assumption; lia.
Qed.

Lemma writes_validateParams (ks : list string) (error : option string) (t : bool) :
  writes 0 ks (validateParams (St := state) error t).
Proof. apply writes_silent. intros st. unfold validateParams. now destruct error, t. Qed.

Lemma writes_throwOrReturnOnError (ks : list string) (t : bool) (msg : string) :
  writes 0 ks (throwOrReturnOnError (St := state) t msg).
Proof. apply writes_silent. intros st. now destruct t. Qed.

Lemma writes_JSON_parse (ks : list string) (x : value) : writes 0 ks (JSON_parse x).
Proof. apply writes_silent. intros st. unfold JSON_parse. now destruct (JSON.parse x). Qed.

Lemma writes_getItem (ks : list string) (uss : bool) (key : value) :
  writes 0 ks (getItem uss key).
Proof.
  apply writes_silent. intros st. unfold getItem.
  now destruct (storage uss st !! ToString key).
Qed.

Lemma writes_Date_now (ks : list string) : writes 0 ks Date_now.
Proof. now apply writes_silent. Qed.

Lemma writes_setTimeout (ks : list string) (uss : bool) (key : value) (ms : Z) :
  writes 0 ks (setTimeout uss key ms).
Proof. now apply writes_silent. Qed.

Lemma writes_setItem (ks : list string) (uss : bool) (key v : value) :
  In (ToString key) ks -> writes 1 ks (setItem uss key v).
Proof.
  intros Hin st. exists [SetItem uss (ToString key) (ToString v)].
  repeat split; [now destruct uss | cbn; lia |].
  constructor; [exact Hin | constructor].
Qed.

Lemma writes_removeItem (ks : list string) (uss : bool) (key : value) :
  In (ToString key) ks -> writes 1 ks (removeItem uss key).
Proof.
  intros Hin st. exists [RemoveItem uss (ToString key)].
  repeat split; [now destruct uss | cbn; lia |].
  constructor; [exact Hin | constructor].
Qed.

(** *** Tactics that walk a method body *)

Ltac open_methods :=
  unfold invoke, returning, setValue, getValue, removeValue, clearStorage,
    getObject, getArray, setNumber, getNumber, getBoolean, setString, getString,
    setExpiration, removeAllTimingItems, swapValues, either_invalid,
    isString, isNumber.

Ltac respects_steps Hrefl Htrans prim :=
  repeat first
    [ apply (respects_ret _ Hrefl)
    | apply (respects_throw _ Hrefl)
    | apply (respects_bind _ Htrans); [|intros ?]
    | apply (respects_try _ Htrans); [|intros ?]
    | apply (respects_forEach _ Hrefl Htrans); intros ?
    | apply (respects_validateParams _ Hrefl)
    | apply (respects_throwOrReturnOnError _ Hrefl)
    | apply (respects_JSON_parse _ Hrefl)
    | apply (respects_getItem _ Hrefl)
    | apply (respects_keys _ Hrefl)
    | apply (respects_Object_keys _ Hrefl)
    | apply (respects_Date_now _ Hrefl)
    | apply respects_if
    | prim
    | progress cbv zeta ].


Ltac named_key := first [left; reflexivity | right; left; reflexivity].

Ltac writes_steps :=
  repeat first
    [ apply writes_ret
    | apply writes_throw
    | eapply writes_bind; [|intros ?]
    | eapply writes_try; [|intros ?]
    | apply writes_validateParams
    | apply writes_throwOrReturnOnError
    | apply writes_JSON_parse
    | apply writes_getItem
    | apply writes_Date_now
    | apply writes_setTimeout
    | eapply writes_if
    | apply writes_setItem; named_key
    | apply writes_removeItem; named_key
    | progress cbv beta zeta ].

Ltac frame_prims :=
  first [ apply same_outside_setItem; named_key
        | apply same_outside_removeItem; named_key
        | apply same_outside_setTimeout ].

End FrameFacts.

(** ** [StorageManager]: timers and the footprint of a call *)

Module FootprintClaims.
Import JS Eff Host DomValidator StorageManager Frame JSONFacts StorageFacts FrameFacts.




(** Outside the amended claim: a negative [secondsToExpiration] that
    brings [Date.now() + secondsToExpiration * 1000] to [0] stores the
    record and schedules no timer, since the source tests
    [expirationTime] and not [secondsToExpiration]. *)
Lemma setExpiration_zero_expiry_no_timer :
  now empty_host = 1000%Z
  /\ fst (setExpiration (VStr "k") (VNum 5) (-1) false true empty_host) = Normal RThis
  /\ timers (snd (setExpiration (VStr "k") (VNum 5) (-1) false true empty_host)) = [].
Proof. repeat split. Qed.



(** *** Mutating calls per method *)

(** C7, as stated, at [swapValues] and at [removeAllTimingItems]:
    [swapValues('a', 'b')] on a storage holding both keys makes two
    [setItem] calls, and [removeAllTimingItems()] removes the key [k] that
    [setExpiration] stored, a key none of its arguments names. *)
Lemma swapValues_two_calls_removeAll_unnamed_key :
  calls (snd (swapValues (VStr "a") (VStr "b") false true two_items))
  = [SetItem false "a" "2"; SetItem false "b" "1"]
  /\ (let st := snd (setExpiration (VStr "k") (VNum 5) 60 false true empty_host) in
      named_keys (RemoveAllTimingItems false) = []
      /\ calls (snd (removeAllTimingItems false st))
         = calls st ++ [RemoveItem false "k"]).
Proof. split; [|split]; vm_compute; reflexivity. Qed.

(** C7 (amended): every modelled method that works on one key makes at most
    one mutating storage call per invocation, on that key, and leaves the
    contents of every other key as they were; [swapValues] makes at most
    two, on its two keys; [clearStorage] makes exactly one [clear];
    [removeAllTimingItems] makes only [removeItem] calls, all on the chosen
    storage, with no bound on their number. *)
Theorem footprint_of_calls :
  (forall c, single_key c = true ->
     writes 1 (named_keys c) (invoke c)
     /\ respects (same_outside (named_keys c)) (invoke c))
  /\ (forall k1 k2 uss t,
        writes 2 [ToString k1; ToString k2] (invoke (SwapValues k1 k2 uss t))
        /\ respects (same_outside [ToString k1; ToString k2])
             (invoke (SwapValues k1 k2 uss t)))
  /\ (forall uss st,
        calls (snd (invoke (ClearStorage uss) st)) = calls st ++ [Clear uss])
  /\ (forall uss, respects (only_removes uss) (invoke (RemoveAllTimingItems uss))).
Proof.
  split; [|split; [|split]].
  - intros c Hc. split.
    + destruct c; try discriminate Hc; cbn [named_keys]; open_methods;
        (eapply writes_weaken; [writes_steps | cbn; lia]).
    + destruct c; try discriminate Hc; cbn [named_keys]; open_methods;
        respects_steps (same_outside_refl [ToString key])
                       (same_outside_trans [ToString key]) frame_prims.
  - intros k1 k2 uss t. split.
    + open_methods. eapply writes_weaken; [writes_steps | cbn; lia].
    + open_methods.
      respects_steps (same_outside_refl [ToString k1; ToString k2])
                     (same_outside_trans [ToString k1; ToString k2]) frame_prims.
  - intros uss st. now destruct uss.
  - intros uss. open_methods.
    respects_steps (only_removes_refl uss) (only_removes_trans uss)
                   ltac:(apply only_removes_removeItem).
Qed.

End FootprintClaims.

(** ** [StorageManager]: how the single-key methods compose *)

Module StorageLaws.
Import JS Eff Host DomValidator StorageManager JSONFacts StorageFacts.

(** Running a method body on a key that passes the guard: unfold the
    sequencing, replace each host call by its result. *)
Ltac run :=
  unfold bind, try_catch, ret, throw;
  repeat (first [ rewrite isString_accepts by assumption
                | rewrite getItem_run
                | rewrite setItem_run
                | rewrite removeItem_run
                | rewrite ToString_string ];
          cbv beta iota; cbn [negb]).

Lemma item_lookup (uss : bool) (k s : string) (st : state) :
  storage uss st !! k = Some s -> item uss k st = VStr s.
Proof. intros H. unfold item. now rewrite H. Qed.

Lemma item_absent (uss : bool) (k : string) (st : state) :
  storage uss st !! k = None -> item uss k st = VNull.
Proof. intros H. unfold item. now rewrite H. Qed.

Lemma item_after_delete (uss : bool) (k : string) (c : call) (st : state) :
  item uss k (with_storage uss (delete k (storage uss st)) c st) = VNull.
Proof. unfold item. now rewrite storage_with_storage, lookup_delete_eq. Qed.

(** X1: on a valid key, [replaceValue] replaces the value of a key that is
    present, so that [getValue] then returns the new value; on a key that
    is absent it stores nothing: it throws an [Error] if [throwOnError] is
    true and returns [undefined] if it is false, the host unchanged. *)
Theorem replaceValue_only_existing (k : string) (v : value) (uss t : bool)
  (st : state) :
  k <> "" -> serializable v = true ->
  (forall old, storage uss st !! k = Some old ->
     exists st1,
       replaceValue (VStr k) v uss t st = (Normal (RVal VUndefined), st1)
       /\ getValue (VStr k) uss t st1 = (Normal v, st1))
  /\ (storage uss st !! k = None ->
      (exists msg, replaceValue (VStr k) v uss true st = (Throw (Error msg), st))
      /\ replaceValue (VStr k) v uss false st = (Normal (RVal VUndefined), st)).
Proof.
  intros Hk Hser.
  destruct (stored_text v Hser) as (txt & Hs & Htxt & Htruthy & _ & Hparse).
  split.
  - intros old Hold. eexists. split.
    + unfold replaceValue. run. rewrite (item_lookup uss k old st Hold).
      cbn [is_null negb]. run. reflexivity.
    + unfold getValue. run. rewrite Htxt, item_after_set, Htruthy.
      now apply JSON_parse_run.
  - intros Habs. split.
    + eexists. unfold replaceValue. run. rewrite (item_absent uss k st Habs).
      reflexivity.
    + unfold replaceValue. run. rewrite (item_absent uss k st Habs). reflexivity.
Qed.

Lemma replaceValue_only_existing_witness :
  (forall old, storage false two_items !! "a" = Some old ->
     exists st1,
       replaceValue (VStr "a") (VArr [VNum 3]) false true two_items
       = (Normal (RVal VUndefined), st1)
       /\ getValue (VStr "a") false true st1 = (Normal (VArr [VNum 3]), st1))
  /\ (storage false two_items !! "a" = None ->
      (exists msg,
         replaceValue (VStr "a") (VArr [VNum 3]) false true two_items
         = (Throw (Error msg), two_items))
      /\ replaceValue (VStr "a") (VArr [VNum 3]) false false two_items
         = (Normal (RVal VUndefined), two_items)).
Proof.
  apply (replaceValue_only_existing "a" (VArr [VNum 3]) false true two_items).
  - discriminate.
  - reflexivity.
Defined.

Lemma either_strings_accept (k1 k2 : string) (t : bool) (st : state) :
  k1 <> "" -> k2 <> "" ->
  either_invalid (isString (VStr k1) t) (isString (VStr k2) t) st
  = (Normal false, st).
Proof.
  intros H1 H2. apply either_invalid_accepts; now apply isString_accepts.
Qed.

(** X2: [swapValues] on two valid keys that are both present exchanges
    their stored strings and changes nothing else, in either storage; a
    second [swapValues] puts the chosen storage back as it was. *)
Theorem swapValues_exchanges (k1 k2 a b : string) (uss t : bool) (st : state) :
  k1 <> "" -> k2 <> "" ->
  storage uss st !! k1 = Some a -> storage uss st !! k2 = Some b ->
  exists st1,
    swapValues (VStr k1) (VStr k2) uss t st = (Normal (RVal VUndefined), st1)
    /\ storage uss st1 !! k1 = Some b
    /\ storage uss st1 !! k2 = Some a
    /\ (forall k, k <> k1 -> k <> k2 -> storage uss st1 !! k = storage uss st !! k)
    /\ storage (negb uss) st1 = storage (negb uss) st
    /\ exists st2,
         swapValues (VStr k1) (VStr k2) uss t st1 = (Normal (RVal VUndefined), st2)
         /\ storage uss st2 = storage uss st.
Proof.
  intros H1 H2 Ha Hb.
  assert (Hswap : forall st' a' b',
            storage uss st' !! k1 = Some a' -> storage uss st' !! k2 = Some b' ->
            exists st1,
              swapValues (VStr k1) (VStr k2) uss t st' = (Normal (RVal VUndefined), st1)
              /\ storage uss st1 = <[k2 := a']> (<[k1 := b']> (storage uss st'))
              /\ storage (negb uss) st1 = storage (negb uss) st').
  { intros st' a' b' Ha' Hb'. eexists. split; [|split].
    - unfold swapValues, bind at 1.
      rewrite (either_strings_accept k1 k2 t st' H1 H2). cbv beta iota.
      run. rewrite (item_lookup uss k1 a' st' Ha'), (item_lookup uss k2 b' st' Hb').
      cbn [is_null negb andb]. run. reflexivity.
    - now rewrite !storage_with_storage.
    - now rewrite !storage_with_other. }
  destruct (Hswap st a b Ha Hb) as (st1 & Hrun & Hst1 & Hother).
  assert (L1 : storage uss st1 !! k1 = Some b).
  { rewrite Hst1. destruct (decide (k2 = k1)) as [->|Hne].
    - rewrite lookup_insert_eq. congruence.
    - now rewrite lookup_insert_ne, lookup_insert_eq. }
  assert (L2 : storage uss st1 !! k2 = Some a).
  { rewrite Hst1. apply lookup_insert_eq. }
  exists st1. repeat split; try assumption.
  - intros k Hk1 Hk2. rewrite Hst1.
    rewrite lookup_insert_ne by congruence. now rewrite lookup_insert_ne by congruence.
  - destruct (Hswap st1 b a L1 L2) as (st2 & Hrun2 & Hst2 & _).
    exists st2. split; [exact Hrun2|].
    rewrite Hst2, Hst1. apply map_eq. intros k.
    destruct (decide (k2 = k)) as [<-|Hk2]; [now rewrite lookup_insert_eq|].
    rewrite lookup_insert_ne by assumption.
    destruct (decide (k1 = k)) as [<-|Hk1]; [now rewrite lookup_insert_eq|].
    now rewrite !lookup_insert_ne by assumption.
Qed.

Lemma swapValues_exchanges_witness :
  exists st1,
    swapValues (VStr "a") (VStr "b") false true two_items
    = (Normal (RVal VUndefined), st1)
    /\ storage false st1 !! "a" = Some "2"
    /\ storage false st1 !! "b" = Some "1"
    /\ (forall k, k <> "a" -> k <> "b" ->
        storage false st1 !! k = storage false two_items !! k)
    /\ storage (negb false) st1 = storage (negb false) two_items
    /\ exists st2,
         swapValues (VStr "a") (VStr "b") false true st1
         = (Normal (RVal VUndefined), st2)
         /\ storage false st2 = storage false two_items.
Proof.
  apply (swapValues_exchanges "a" "b" "1" "2" false true two_items).
  - discriminate.
  - discriminate.
  - reflexivity.
  - reflexivity.
Defined.

(** X3: when one of the two valid keys of [swapValues] is absent, nothing
    is written: the call throws an [Error] if [throwOnError] is true and
    returns [undefined] if it is false, and the host is as before. *)
Theorem swapValues_missing_key (k1 k2 : string) (uss : bool) (st : state) :
  k1 <> "" -> k2 <> "" ->
  storage uss st !! k1 = None \/ storage uss st !! k2 = None ->
  (exists msg,
     swapValues (VStr k1) (VStr k2) uss true st = (Throw (Error msg), st))
  /\ swapValues (VStr k1) (VStr k2) uss false st = (Normal (RVal VUndefined), st).
Proof.
  intros H1 H2 Hmiss.
  assert (Hnull : negb (is_null (item uss k1 st)) && negb (is_null (item uss k2 st))
                  = false).
  { destruct Hmiss as [H|H]; rewrite (item_absent _ _ _ H); cbn;
      [reflexivity | apply andb_false_r]. }
  split.
  - eexists. unfold swapValues, bind at 1.
    rewrite (either_strings_accept k1 k2 true st H1 H2). cbv beta iota.
    run. rewrite Hnull. reflexivity.
  - unfold swapValues, bind at 1.
    rewrite (either_strings_accept k1 k2 false st H1 H2). cbv beta iota.
    run. rewrite Hnull. reflexivity.
Qed.

Lemma swapValues_missing_key_witness :
  (exists msg,
     swapValues (VStr "a") (VStr "zz") false true two_items
     = (Throw (Error msg), two_items))
  /\ swapValues (VStr "a") (VStr "zz") false false two_items
     = (Normal (RVal VUndefined), two_items).
Proof.
  apply (swapValues_missing_key "a" "zz" false two_items).
  - discriminate.
  - discriminate.
  - right. reflexivity.
Defined.



(** X5: after [setString(key, s)] with a valid key and a non-empty string
    [s] on which the reader of [JSON] and the host agree to the letter
    ([faithful_text]: what [s] reads as has safe integers for numbers and
    no property named by digits only, and when it is refused it holds no
    fraction, exponent or [\u] escape), [getString] returns [s] itself,
    while [getValue] reads the same text as JSON: it returns what [s]
    parses to, and throws a [SyntaxError], whatever [throwOnError] is, when
    [s] is not JSON text. *)
Theorem getString_after_setString (k s : string) (uss t t' : bool) (st : state) :
  k <> "" -> s <> "" -> faithful_text s = true ->
  exists st1,
    setString (VStr k) (VStr s) uss t st = (Normal RThis, st1)
    /\ getString (VStr k) uss t' st1 = (Normal (VStr s), st1)
    /\ getValue (VStr k) uss t' st1
       = (match JSON.parse_text s with
          | Some v => Normal v
          | None => Throw SyntaxError
          end, st1).
Proof.
  intros Hk Hs _. eexists. split; [now apply setString_run|]. split.
  - unfold getString. run. now rewrite item_after_set.
  - unfold getValue. run. rewrite item_after_set. cbn [truthy].
    apply String.eqb_neq in Hs. rewrite Hs. cbn [negb].
    unfold JSON_parse, JSON.parse. rewrite ToString_string.
    now destruct (JSON.parse_text s).
Qed.

Lemma getString_after_setString_witness :
  exists st1,
    setString (VStr "greeting") (VStr "hello") true true empty_host
    = (Normal RThis, st1)
    /\ getString (VStr "greeting") true false st1 = (Normal (VStr "hello"), st1)
    /\ getValue (VStr "greeting") true false st1
       = (match JSON.parse_text "hello" with
          | Some v => Normal v
          | None => Throw SyntaxError
          end, st1).
Proof.
  apply (getString_after_setString "greeting" "hello" true true false empty_host).
  - discriminate.
  - discriminate.
  - reflexivity.
Defined.

Lemma item_not_undefined (uss : bool) (k : string) (st : state) :
  strict_eq (item uss k st) VUndefined = false.
Proof. unfold item. now destruct (storage uss st !! k). Qed.

(** X6: [storage.getItem] never yields [undefined], so on a valid key
    [isUndefined] returns [false] in every state and [removeUndefined]
    removes nothing; this holds right after [setUndefined] too, which
    stores the text [undefined], on which [getValue] throws a [SyntaxError]
    whatever [throwOnError] is. *)
Theorem undefined_is_never_found (k : string) (uss t t' : bool) (st : state) :
  k <> "" ->
  isUndefined (VStr k) uss t st = (Normal (VBool false), st)
  /\ removeUndefined (VStr k) uss t st = (Normal (RVal VUndefined), st)
  /\ exists st1,
       setUndefined (VStr k) uss t st = (Normal (RVal VUndefined), st1)
       /\ storage uss st1 !! k = Some "undefined"
       /\ isUndefined (VStr k) uss t' st1 = (Normal (VBool false), st1)
       /\ removeUndefined (VStr k) uss t' st1 = (Normal (RVal VUndefined), st1)
       /\ getValue (VStr k) uss t' st1 = (Throw SyntaxError, st1).
Proof.
  intros Hk.
  assert (Hnever : forall t0 st0,
            isUndefined (VStr k) uss t0 st0 = (Normal (VBool false), st0)
            /\ removeUndefined (VStr k) uss t0 st0 = (Normal (RVal VUndefined), st0)).
  { intros t0 st0. split.
    - unfold isUndefined. run. now rewrite item_not_undefined.
    - unfold removeUndefined. run. now rewrite item_not_undefined. }
  split; [apply Hnever|]. split; [apply Hnever|].
  eexists. split; [unfold setUndefined; run; reflexivity|].
  split; [now rewrite storage_with_storage, lookup_insert_eq|].
  split; [apply Hnever|]. split; [apply Hnever|].
  unfold getValue. run. rewrite item_after_set. reflexivity.
Qed.

Lemma undefined_is_never_found_witness :
  isUndefined (VStr "u") false true empty_host = (Normal (VBool false), empty_host)
  /\ removeUndefined (VStr "u") false true empty_host
     = (Normal (RVal VUndefined), empty_host)
  /\ exists st1,
       setUndefined (VStr "u") false true empty_host = (Normal (RVal VUndefined), st1)
       /\ storage false st1 !! "u" = Some "undefined"
       /\ isUndefined (VStr "u") false false st1 = (Normal (VBool false), st1)
       /\ removeUndefined (VStr "u") false false st1 = (Normal (RVal VUndefined), st1)
       /\ getValue (VStr "u") false false st1 = (Throw SyntaxError, st1).
Proof.
  apply (undefined_is_never_found "u" false true false empty_host).
  discriminate.
Defined.

(** X7: after [setNull] on a valid key, [isNull] answers [true] and
    [getValue] returns [null], as it does for an absent key; [removeNull]
    then deletes the key.  On a key whose stored text is not [null] (or
    that is absent) [removeNull] deletes nothing: it throws an [Error] if
    [throwOnError] is true and returns [undefined] if it is false. *)
Theorem null_marker_lifecycle (k : string) (uss t t' : bool) (st : state) :
  k <> "" ->
  (exists st1,
     setNull (VStr k) uss t st = (Normal (RVal VUndefined), st1)
     /\ isNull (VStr k) uss st1 = (Normal (VBool true), st1)
     /\ getValue (VStr k) uss t' st1 = (Normal VNull, st1)
     /\ exists st2,
          removeNull (VStr k) uss t' st1 = (Normal (RVal VUndefined), st2)
          /\ storage uss st2 !! k = None
          /\ isNull (VStr k) uss st2 = (Normal (VBool false), st2))
  /\ (storage uss st !! k <> Some "null" ->
      (exists msg, removeNull (VStr k) uss true st = (Throw (Error msg), st))
      /\ removeNull (VStr k) uss false st = (Normal (RVal VUndefined), st)).
Proof.
  intros Hk. split.
  - eexists. split; [unfold setNull; run; reflexivity|].
    split; [unfold isNull; run; now rewrite item_after_set|].
    split; [unfold getValue; run; now rewrite item_after_set|].
    eexists. split; [unfold removeNull; run; rewrite item_after_set;
                     cbn [strict_eq String.eqb Ascii.eqb Bool.eqb]; run; reflexivity|].
    split; [now rewrite storage_with_storage, lookup_delete_eq|].
    unfold isNull. run. now rewrite item_after_delete.
  - intros Hnot.
    assert (Hne : strict_eq (item uss k st) (VStr "null") = false).
    { unfold item. destruct (storage uss st !! k) as [s|] eqn:E; [|reflexivity].
      cbn. apply String.eqb_neq. congruence. }
    split.
    + eexists. unfold removeNull. run. rewrite Hne. reflexivity.
    + unfold removeNull. run. rewrite Hne. reflexivity.
Qed.

Lemma null_marker_lifecycle_witness :
  (exists st1,
     setNull (VStr "n") false true two_items = (Normal (RVal VUndefined), st1)
     /\ isNull (VStr "n") false st1 = (Normal (VBool true), st1)
     /\ getValue (VStr "n") false true st1 = (Normal VNull, st1)
     /\ exists st2,
          removeNull (VStr "n") false true st1 = (Normal (RVal VUndefined), st2)
          /\ storage false st2 !! "n" = None
          /\ isNull (VStr "n") false st2 = (Normal (VBool false), st2))
  /\ (storage false two_items !! "n" <> Some "null" ->
      (exists msg,
         removeNull (VStr "n") false true two_items = (Throw (Error msg), two_items))
      /\ removeNull (VStr "n") false false two_items
         = (Normal (RVal VUndefined), two_items)).
Proof.
  apply (null_marker_lifecycle "n" false true true two_items).
  discriminate.
Defined.

(** X8: on a valid key [removeValue] deletes the key, whatever it holds:
    [getValue] then returns [null] and every other key keeps its contents.
    [removeBoolean], [removeArray] and [deleteObject] do not look at the
    type of what is stored: they leave exactly the host [removeValue]
    leaves.  [removeString] deletes a key that is present and makes no
    storage call on an absent one. *)
Theorem removers_delete_any_value (k : string) (uss t t' : bool) (st : state) :
  k <> "" ->
  exists st1,
    removeValue (VStr k) uss t st = (Normal RThis, st1)
    /\ storage uss st1 !! k = None
    /\ (forall k', k' <> k -> storage uss st1 !! k' = storage uss st !! k')
    /\ storage (negb uss) st1 = storage (negb uss) st
    /\ getValue (VStr k) uss t' st1 = (Normal VNull, st1)
    /\ removeBoolean (VStr k) uss t st = (Normal (RVal VUndefined), st1)
    /\ removeArray (VStr k) uss t st = (Normal (RVal VUndefined), st1)
    /\ deleteObject (VStr k) uss t st = (Normal (RVal VUndefined), st1)
    /\ removeString (VStr k) uss t st
       = (Normal (RVal VUndefined),
          match storage uss st !! k with Some _ => st1 | None => st end).
Proof.
  intros Hk. eexists. split; [now apply removeValue_run|].
  split; [now rewrite storage_with_storage, lookup_delete_eq|].
  split; [intros k' Hk'; rewrite storage_with_storage; now apply lookup_delete_ne|].
  split; [now rewrite storage_with_other|].
  split; [unfold getValue; run; now rewrite item_after_delete|].
  split; [unfold removeBoolean; run; reflexivity|].
  split; [unfold removeArray; run; reflexivity|].
  split; [unfold deleteObject; run; reflexivity|].
  unfold removeString. run. unfold item.
  destruct (storage uss st !! k); cbn [is_null negb]; run; reflexivity.
Qed.

Lemma removers_delete_any_value_witness :
  exists st1,
    removeValue (VStr "a") false true two_items = (Normal RThis, st1)
    /\ storage false st1 !! "a" = None
    /\ (forall k', k' <> "a" -> storage false st1 !! k' = storage false two_items !! k')
    /\ storage (negb false) st1 = storage (negb false) two_items
    /\ getValue (VStr "a") false false st1 = (Normal VNull, st1)
    /\ removeBoolean (VStr "a") false true two_items = (Normal (RVal VUndefined), st1)
    /\ removeArray (VStr "a") false true two_items = (Normal (RVal VUndefined), st1)
    /\ deleteObject (VStr "a") false true two_items = (Normal (RVal VUndefined), st1)
    /\ removeString (VStr "a") false true two_items
       = (Normal (RVal VUndefined),
          match storage false two_items !! "a" with
          | Some _ => st1
          | None => two_items
          end).
Proof.
  apply (removers_delete_any_value "a" false true false two_items).
  discriminate.
Defined.

(** X30: on a valid key and a value whose numbers are safe integers,
    [updateString] changes only a key that is present, and stores the
    host's string conversion of the value, without the check [setString]
    makes on it (so also the empty string, or the text of a number);
    [getString] then returns that text and no other key changes.  On an
    absent key it returns [this] and stores nothing, without an error
    whatever [throwOnError] is. *)
Theorem updateString_only_existing (k : string) (v : value) (uss t t' : bool)
  (st : state) :
  k <> "" -> safe_numbers v = true ->
  (storage uss st !! k = None ->
   updateString (VStr k) v uss t st = (Normal RThis, st))
  /\ (forall old, storage uss st !! k = Some old ->
      exists st1,
        updateString (VStr k) v uss t st = (Normal RThis, st1)
        /\ getString (VStr k) uss t' st1 = (Normal (VStr (ToString v)), st1)
        /\ (forall k', k' <> k -> storage uss st1 !! k' = storage uss st !! k')
        /\ storage (negb uss) st1 = storage (negb uss) st).
Proof.
  intros Hk _. split.
  - intros Habs. unfold updateString. run. now rewrite (item_absent uss k st Habs).
  - intros old Hold. eexists. split; [|split; [|split]].
    + unfold updateString. run. rewrite (item_lookup uss k old st Hold).
      cbn [is_null negb]. run. reflexivity.
    + unfold getString. run. now rewrite item_after_set.
    + intros k' Hne. rewrite storage_with_storage.
      now rewrite lookup_insert_ne by congruence.
    + apply storage_with_other.
Qed.

Lemma updateString_only_existing_witness :
  (storage false two_items !! "a" = None ->
   updateString (VStr "a") (VStr "") false true two_items = (Normal RThis, two_items))
  /\ (forall old, storage false two_items !! "a" = Some old ->
      exists st1,
        updateString (VStr "a") (VStr "") false true two_items = (Normal RThis, st1)
        /\ getString (VStr "a") false true st1
           = (Normal (VStr (ToString (VStr ""))), st1)
        /\ (forall k', k' <> "a" ->
            storage false st1 !! k' = storage false two_items !! k')
        /\ storage (negb false) st1 = storage (negb false) two_items).
Proof.
  apply (updateString_only_existing "a" (VStr "") false true true two_items).
  - discriminate.
  - reflexivity.
Defined.

End StorageLaws.

(** ** [StorageManager]: the sweeps over a whole storage *)

Module SweepLaws.
Import JS Eff Host DomValidator StorageManager JSONFacts StorageFacts StorageLaws.

(** A loop whose body, on each key, either removes that key (when its text
    is [condemned]) or does nothing, as long as every stored text is [ok]. *)
Section Sweep.
Variable uss : bool.
Variable body : string -> M state unit.
Variable condemned : string -> bool.
Variable ok : string -> Prop.

Hypothesis body_step : forall key st,
  (forall k s, storage uss st !! k = Some s -> ok s) ->
  body key st
  = (Normal tt,
     match storage uss st !! key with
     | Some s => if condemned s then snd (removeItem uss (VStr key) st) else st
     | None => st
     end).

Lemma forEach_sweep (ks : list string) (st : state) :
  (forall k s, storage uss st !! k = Some s -> ok s) ->
  exists st',
    forEach ks body st = (Normal tt, st')
    /\ (forall k,
          storage uss st' !! k
          = match storage uss st !! k with
            | Some s => if visited k ks && condemned s then None else Some s
            | None => None
            end)
    /\ storage (negb uss) st' = storage (negb uss) st.
Proof.
  revert st. induction ks as [|x ks IH]; intros st Hok.
  - exists st. split; [reflexivity|]. split; [|reflexivity].
    intros k. now destruct (storage uss st !! k).
  - cbn [forEach]. unfold bind. rewrite (body_step x st Hok).
    set (st1 := match storage uss st !! x with
                | Some s => if condemned s then snd (removeItem uss (VStr x) st) else st
                | None => st
                end).
    assert (Hst1 : forall k,
               storage uss st1 !! k
               = match storage uss st !! k with
                 | Some s => if String.eqb k x && condemned s then None else Some s
                 | None => None
                 end).
    { intros k. subst st1. destruct (String.eqb k x) eqn:E.
      - apply String.eqb_eq in E. subst k.
        destruct (storage uss st !! x) as [s|] eqn:Ex; [|now rewrite Ex].
        cbn [andb]. destruct (condemned s); [|now rewrite Ex].
        rewrite removeItem_run. cbn [snd].
        now rewrite storage_with_storage, lookup_delete_eq.
      - apply String.eqb_neq in E. cbn [andb].
        destruct (storage uss st !! x) as [s|] eqn:Ex.
        + destruct (condemned s).
          * rewrite removeItem_run. cbn [snd]. rewrite storage_with_storage.
            rewrite lookup_delete_ne by congruence.
            now destruct (storage uss st !! k).
          * now destruct (storage uss st !! k).
        + now destruct (storage uss st !! k). }
    assert (Hother : storage (negb uss) st1 = storage (negb uss) st).
    { subst st1. destruct (storage uss st !! x) as [s|]; [|reflexivity].
      destruct (condemned s); [|reflexivity].
      rewrite removeItem_run. cbn [snd]. apply storage_with_other. }
    assert (Hok1 : forall k s, storage uss st1 !! k = Some s -> ok s).
    { intros k s. rewrite Hst1. destruct (storage uss st !! k) as [s0|] eqn:Ek;
        [|discriminate].
      destruct (String.eqb k x && condemned s0); [discriminate|].
      intros [= <-]. now apply (Hok k). }
    destruct (IH st1 Hok1) as (st' & Hrun & Hlook & Hneg).
    exists st'. split; [exact Hrun|]. split; [|now rewrite Hneg].
    intros k. rewrite Hlook, Hst1. cbn [visited existsb].
    destruct (storage uss st !! k) as [s|]; [|reflexivity].
    destruct (String.eqb k x); cbn [andb orb]; [|reflexivity].
    destruct (condemned s) eqn:Ec; [reflexivity|].
    now rewrite Ec, andb_false_r.
Qed.

End Sweep.

Lemma visited_Object_keys (uss : bool) (k s : string) (st : state) :
  storage uss st !! k = Some s ->
  visited k (List.filter (fun k => negb (inherited_name k))
               (map fst (map_to_list (storage uss st))))
  = negb (inherited_name k).
Proof.
  intros H. unfold visited. destruct (inherited_name k) eqn:E; cbn [negb].
  - apply not_true_is_false. intros Hex.
    apply existsb_exists in Hex. destruct Hex as (x & Hin & Hx).
    apply String.eqb_eq in Hx. subst x.
    apply filter_In in Hin. destruct Hin as [_ Hin]. now rewrite E in Hin.
  - apply existsb_exists. exists k. split; [|apply String.eqb_refl].
    apply filter_In. split; [|now rewrite E].
    apply elem_of_map_to_list in H. apply list_elem_of_In in H.
    apply (in_map fst) in H. exact H.
Qed.

(** A sweep over [Object.keys] of the chosen storage. *)
Lemma sweep_all (uss : bool) (body : string -> M state unit)
  (condemned : string -> bool) (ok : string -> Prop) (st : state) :
  (forall key st0,
     (forall k s, storage uss st0 !! k = Some s -> ok s) ->
     body key st0
     = (Normal tt,
        match storage uss st0 !! key with
        | Some s => if condemned s then snd (removeItem uss (VStr key) st0) else st0
        | None => st0
        end)) ->
  (forall k s, storage uss st !! k = Some s -> ok s) ->
  exists st',
    (let* ks := Object_keys uss in forEach ks body ;; ret (RVal VUndefined)) st
    = (Normal (RVal VUndefined), st')
    /\ (forall k, storage uss st' !! k = swept condemned k (storage uss st !! k))
    /\ storage (negb uss) st' = storage (negb uss) st.
Proof.
  intros Hbody Hok.
  destruct (forEach_sweep uss body condemned ok Hbody
              (List.filter (fun k => negb (inherited_name k))
                 (map fst (map_to_list (storage uss st)))) st Hok)
    as (st' & Hrun & Hlook & Hneg).
  exists st'. split; [|split; [|exact Hneg]].
  - unfold bind at 1, Object_keys. cbv beta iota. unfold bind. now rewrite Hrun.
  - intros k. rewrite Hlook. unfold swept, keep_unless.
    destruct (storage uss st !! k) as [s|] eqn:E; [|now destruct (inherited_name k)].
    rewrite (visited_Object_keys uss k s st E).
    now destruct (inherited_name k).
Qed.

Lemma JSON_parse_text_run (s : string) (st : state) :
  JSON_parse (VStr s) st
  = (match JSON.parse_text s with
     | Some v => Normal v
     | None => Throw SyntaxError
     end, st).
Proof.
  unfold JSON_parse, JSON.parse. rewrite ToString_string.
  now destruct (JSON.parse_text s).
Qed.

Ltac sweep_step :=
  run; unfold item;
  match goal with
  | |- context [storage ?u ?st !! ?k] =>
      destruct (storage u st !! k) as [?s|] eqn:?E
  end;
  [ rewrite JSON_parse_text_run | reflexivity ].

Lemma mixed_items_texts (k s : string) :
  storage false mixed_items !! k = Some s ->
  s = "1" \/ s = "[2,3]" \/ s = "true" \/ s = "{}" \/ s = "hello".
Proof.
  unfold mixed_items, storage; cbn [localStorage].
  rewrite !lookup_insert_Some, lookup_empty.
  intuition (subst; auto; discriminate).
Qed.

Lemma mixed_items_within_model (k s : string) :
  storage false mixed_items !! k = Some s -> within_model s = true.
Proof.
  intros H. apply mixed_items_texts in H.
  destruct H as [->|[->|[->|[->| ->]]]]; vm_compute; reflexivity.
Qed.

Lemma mixed_items_faithful (k s : string) :
  storage false mixed_items !! k = Some s -> faithful_text s = true.
Proof.
  intros H. apply mixed_items_texts in H.
  destruct H as [->|[->|[->|[->| ->]]]]; vm_compute; reflexivity.
Qed.

Lemma removeAllStringItems_sweep (uss t : bool) (st : state) :
  exists st',
    removeAllStringItems uss t st = (Normal (RVal VUndefined), st')
    /\ (forall k, storage uss st' !! k = swept unparseable k (storage uss st !! k))
    /\ storage (negb uss) st' = storage (negb uss) st.
Proof.
  apply (sweep_all uss _ unparseable (fun _ => True)); [|trivial].
  intros key st0 _. sweep_step. unfold unparseable.
  destruct (JSON.parse_text s); [reflexivity|]. run. reflexivity.
Qed.

(** X9: on a storage whose texts are ones on which the reader of [JSON]
    and the host agree to the letter, [removeAllStringItems] removes from
    the chosen storage exactly the items whose text is not JSON and whose
    key no inherited member of the storage object hides; every other item,
    and the other storage, stay as they were.  So every text it leaves
    under a key that is not hidden parses, and a string stored by
    [setString] that happens to be JSON text stays. *)
Theorem removeAllStringItems_leaves_json (uss t : bool) (st : state) :
  (forall k s, storage uss st !! k = Some s -> faithful_text s = true) ->
  exists st',
    removeAllStringItems uss t st = (Normal (RVal VUndefined), st')
    /\ (forall k, storage uss st' !! k = swept unparseable k (storage uss st !! k))
    /\ storage (negb uss) st' = storage (negb uss) st
    /\ (forall k s, inherited_name k = false -> storage uss st' !! k = Some s ->
        exists v, JSON.parse_text s = Some v).
Proof.
  intros _.
  destruct (removeAllStringItems_sweep uss t st) as (st' & Hrun & Hlook & Hneg).
  exists st'. split; [exact Hrun|]. split; [exact Hlook|]. split; [exact Hneg|].
  intros k s Hk. rewrite Hlook. unfold swept, keep_unless, unparseable. rewrite Hk.
  destruct (storage uss st !! k) as [s0|]; [|discriminate].
  destruct (JSON.parse_text s0) as [v|] eqn:E; [|discriminate].
  intros [= <-]. now exists v.
Qed.

Lemma removeAllStringItems_leaves_json_witness :
  exists st',
    removeAllStringItems false true mixed_items = (Normal (RVal VUndefined), st')
    /\ (forall k,
          storage false st' !! k
          = swept unparseable k (storage false mixed_items !! k))
    /\ storage (negb false) st' = storage (negb false) mixed_items
    /\ (forall k s, inherited_name k = false -> storage false st' !! k = Some s ->
        exists v, JSON.parse_text s = Some v).
Proof.
  apply (removeAllStringItems_leaves_json false true mixed_items).
  exact mixed_items_faithful.
Defined.

Example removeAllStringItems_on_mixed_items :
  let st' := snd (removeAllStringItems false true mixed_items) in
  storage false st' !! "raw" = None
  /\ storage false st' !! "length" = Some "hello"
  /\ storage false st' !! "n" = Some "1".
Proof. repeat split; vm_compute; reflexivity. Qed.

Lemma removeAllTimingItems_sweep (uss : bool) (st : state) :
  exists st',
    removeAllTimingItems uss st = (Normal (RVal VUndefined), st')
    /\ (forall k,
          storage uss st' !! k
          = swept (parses_to is_timing_item) k (storage uss st !! k))
    /\ storage (negb uss) st' = storage (negb uss) st.
Proof.
  apply (sweep_all uss _ (parses_to is_timing_item) (fun _ => True)); [|trivial].
  intros key st0 _. unfold try_catch at 1. sweep_step. unfold parses_to.
  destruct (JSON.parse_text s) as [v|]; [|reflexivity].
  cbv beta iota. unfold is_timing_item.
  destruct (truthy v && String.eqb (typeof v) "object" && has_in "expirationTime" v);
    run; reflexivity.
Qed.

(** X10: on a storage whose texts are ones on which the reader of [JSON]
    and the host agree to the letter, [removeAllTimingItems] removes from
    the chosen storage exactly the items whose text parses to an object
    with an own [expirationTime] property and whose key no inherited
    member of the storage object hides; every other item and the other
    storage stay as they were.  Whatever the storage holds, an item that
    [setExpiration] wrote (valid key that is not hidden, serialisable
    value, seconds that pass the guard, zero included) is removed by the
    next [removeAllTimingItems]. *)
Theorem removeAllTimingItems_removes_records (uss : bool) (st : state) :
  (forall k s, storage uss st !! k = Some s -> faithful_text s = true) ->
  (exists st',
     removeAllTimingItems uss st = (Normal (RVal VUndefined), st')
     /\ (forall k,
           storage uss st' !! k
           = swept (parses_to is_timing_item) k (storage uss st !! k))
     /\ storage (negb uss) st' = storage (negb uss) st)
  /\ (forall k v secs t any,
        k <> "" -> inherited_name k = false ->
        (Z.abs secs <= Joi.MAX_SAFE_INTEGER)%Z ->
        serializable v = true ->
        storage uss
          (snd (removeAllTimingItems uss
                  (snd (setExpiration (VStr k) v secs uss t any)))) !! k
        = None).
Proof.
  intros _. split; [apply removeAllTimingItems_sweep|].
  intros k v secs t any Hk Hvisible Hsecs Hser.
  assert (Hrec : serializable (expiring_record v (expirationTime_at (now any) secs))
                 = true).
  { unfold expiring_record, expirationTime_at. cbn. rewrite Hser.
    now destruct (secs =? 0)%Z. }
  destruct (stored_text _ Hrec) as (txt & _ & Htxt & _ & Hparse & _).
  set (st1 := snd (setExpiration (VStr k) v secs uss t any)).
  assert (Hst1 : storage uss st1 !! k = Some txt).
  { subst st1. rewrite (setExpiration_run k v secs uss t any Hk Hsecs). cbn [snd].
    rewrite Htxt.
    destruct (truthy (expirationTime_at (now any) secs));
      [rewrite storage_with_timer|]; now rewrite storage_with_storage, lookup_insert_eq. }
  destruct (removeAllTimingItems_sweep uss st1) as (st' & Hrun & Hlook & _).
  rewrite Hrun. cbn [snd]. rewrite Hlook, Hst1.
  unfold swept, keep_unless, parses_to. now rewrite Hvisible, Hparse.
Qed.

Lemma removeAllTimingItems_removes_records_witness :
  (exists st',
     removeAllTimingItems false mixed_items = (Normal (RVal VUndefined), st')
     /\ (forall k,
           storage false st' !! k
           = swept (parses_to is_timing_item) k (storage false mixed_items !! k))
     /\ storage (negb false) st' = storage (negb false) mixed_items)
  /\ (forall k v secs t any,
        k <> "" -> inherited_name k = false ->
        (Z.abs secs <= Joi.MAX_SAFE_INTEGER)%Z ->
        serializable v = true ->
        storage false
          (snd (removeAllTimingItems false
                  (snd (setExpiration (VStr k) v secs false t any)))) !! k
        = None).
Proof.
  apply (removeAllTimingItems_removes_records false mixed_items).
  exact mixed_items_faithful.
Defined.

(** X11: on a storage whose texts are ones on which the reader of [JSON]
    and the host agree to the letter, [removeAllArrayItems],
    [removeAllObjectItems] and [removeAllBooleanItems], called with
    [throwOnError = false] or when every stored text parses, return
    normally and remove exactly the items that parse to an array, to a
    non-array object, to a boolean, and whose key no inherited member of
    the storage object hides; they touch nothing else. *)
Theorem typed_sweeps_remove_their_type (uss t : bool) (st : state) :
  (forall k s, storage uss st !! k = Some s -> faithful_text s = true) ->
  t = false \/ (forall k s, storage uss st !! k = Some s -> unparseable s = false) ->
  (exists st',
     removeAllArrayItems uss t st = (Normal (RVal VUndefined), st')
     /\ (forall k,
           storage uss st' !! k = swept (parses_to isArray) k (storage uss st !! k))
     /\ storage (negb uss) st' = storage (negb uss) st)
  /\ (exists st',
        removeAllObjectItems uss t st = (Normal (RVal VUndefined), st')
        /\ (forall k,
              storage uss st' !! k
              = swept (parses_to is_plain_object) k (storage uss st !! k))
        /\ storage (negb uss) st' = storage (negb uss) st)
  /\ (exists st',
        removeAllBooleanItems uss t st = (Normal (RVal VUndefined), st')
        /\ (forall k,
              storage uss st' !! k
              = swept (parses_to is_boolean) k (storage uss st !! k))
        /\ storage (negb uss) st' = storage (negb uss) st).
Proof.
  intros _ Hok.
  assert (Hall : forall k s, storage uss st !! k = Some s ->
                             t = false \/ unparseable s = false).
  { intros k s Hs. destruct Hok as [->|H]; [now left | right; now apply (H k)]. }
  repeat split.
  - apply (sweep_all uss _ (parses_to isArray)
             (fun s => t = false \/ unparseable s = false)); [|exact Hall].
    intros key st0 Hst0. unfold try_catch at 1. sweep_step.
    specialize (Hst0 _ _ E). unfold parses_to, unparseable in *.
    destruct (JSON.parse_text s) as [v|]; cbv beta iota.
    + destruct (isArray v); run; reflexivity.
    + destruct Hst0 as [->|?]; [reflexivity | discriminate].
  - apply (sweep_all uss _ (parses_to is_plain_object)
             (fun s => t = false \/ unparseable s = false)); [|exact Hall].
    intros key st0 Hst0. unfold try_catch at 1. sweep_step.
    specialize (Hst0 _ _ E). unfold parses_to, unparseable, is_plain_object in *.
    destruct (JSON.parse_text s) as [v|]; cbv beta iota.
    + destruct (negb (is_null v) && String.eqb (typeof v) "object" && negb (isArray v));
        run; reflexivity.
    + destruct Hst0 as [->|?]; [reflexivity | discriminate].
  - apply (sweep_all uss _ (parses_to is_boolean)
             (fun s => t = false \/ unparseable s = false)); [|exact Hall].
    intros key st0 Hst0. unfold try_catch at 1. sweep_step.
    specialize (Hst0 _ _ E). unfold parses_to, unparseable, is_boolean in *.
    destruct (JSON.parse_text s) as [v|]; cbv beta iota.
    + destruct (String.eqb (typeof v) "boolean"); run; reflexivity.
    + destruct Hst0 as [->|?]; [reflexivity | discriminate].
Qed.

Lemma typed_sweeps_remove_their_type_witness :
  (exists st',
     removeAllArrayItems false false mixed_items = (Normal (RVal VUndefined), st')
     /\ (forall k,
           storage false st' !! k
           = swept (parses_to isArray) k (storage false mixed_items !! k))
     /\ storage (negb false) st' = storage (negb false) mixed_items)
  /\ (exists st',
        removeAllObjectItems false false mixed_items = (Normal (RVal VUndefined), st')
        /\ (forall k,
              storage false st' !! k
              = swept (parses_to is_plain_object) k (storage false mixed_items !! k))
        /\ storage (negb false) st' = storage (negb false) mixed_items)
  /\ (exists st',
        removeAllBooleanItems false false mixed_items = (Normal (RVal VUndefined), st')
        /\ (forall k,
              storage false st' !! k
              = swept (parses_to is_boolean) k (storage false mixed_items !! k))
        /\ storage (negb false) st' = storage (negb false) mixed_items).
Proof.
  apply (typed_sweeps_remove_their_type false false mixed_items).
  - exact mixed_items_faithful.
  - left. reflexivity.
Defined.

(** A loop whose body never changes the state. *)
Lemma forEach_quiet (body : string -> M state unit) (ks : list string) (st : state) :
  (forall key, body key st = (Normal tt, st)) ->
  forEach ks body st = (Normal tt, st).
Proof.
  intros Hbody. induction ks as [|x ks IH]; [reflexivity|].
  cbn [forEach]. unfold bind. now rewrite Hbody.
Qed.

Lemma forEach_first_error (body : string -> M state unit) (ks : list string)
  (st : state) :
  (forall key, body key st = (Normal tt, st)
               \/ exists m, body key st = (Throw (Error m), st)) ->
  (exists key m, In key ks /\ body key st = (Throw (Error m), st)) ->
  exists m, forEach ks body st = (Throw (Error m), st).
Proof.
  intros Hbody. induction ks as [|x ks IH]; intros (key & m & Hin & Hkey).
  - destruct Hin.
  - cbn [forEach]. unfold bind.
    destruct (Hbody x) as [Hx|(m' & Hx)]; rewrite Hx.
    + apply IH. destruct Hin as [->|Hin].
      * rewrite Hx in Hkey. discriminate.
      * now exists key, m.
    + now exists m'.
Qed.

(** X12: [removeAllBinaryItems] with [throwOnError = false] empties the
    whole chosen storage, whatever it holds: every failure of the loop is
    swallowed and [storage.clear()] follows.  With [throwOnError = true] a
    stored text that is not JSON makes it throw an [Error] before anything
    is cleared. *)
Theorem removeAllBinaryItems_clears_or_throws
  (Uint8Array_error : value -> option exn) (uss : bool) (st : state) :
  (exists st',
     removeAllBinaryItems Uint8Array_error uss false st
     = (Normal (RVal VUndefined), st')
     /\ storage uss st' = ∅
     /\ storage (negb uss) st' = storage (negb uss) st)
  /\ (forall k s,
        storage uss st !! k = Some s ->
        unparseable s = true -> within_model s = true ->
        exists m,
          removeAllBinaryItems Uint8Array_error uss true st = (Throw (Error m), st)).
Proof.
  split.
  - eexists. split; [|split].
    + unfold removeAllBinaryItems. unfold bind at 1, keys. cbv beta iota.
      unfold bind at 1. rewrite forEach_quiet.
      * cbv beta iota. unfold bind, clear, ret. reflexivity.
      * intros key. run. unfold item.
        destruct (storage uss st !! key) as [s|]; [|reflexivity].
        cbn [typeof String.eqb Ascii.eqb Bool.eqb]. cbv beta iota.
        rewrite JSON_parse_text_run.
        destruct (JSON.parse_text s) as [v|]; [|reflexivity].
        cbv beta iota. unfold new_Uint8Array.
        destruct (Uint8Array_error v); reflexivity.
    + apply storage_with_storage.
    + apply storage_with_other.
  - intros k s Hk Hs _.
    assert (Hbody : forall key,
      (let* storedValue := getItem uss (VStr key) in
       try_catch
         (if String.eqb (typeof storedValue) "string" then
            let* parsedArray := JSON_parse storedValue in
            new_Uint8Array Uint8Array_error parsedArray
          else
            throwOrReturnOnError true
              ("Value stored for key '" +:+ key +:+ "' is not valid binary data.") ;;
            ret tt)
         (fun error =>
            throwOrReturnOnError true
              ("Error removing binary data for key '" +:+ key +:+ "': "
                 +:+ message_of error) ;;
            ret tt)) st
      = match storage uss st !! key with
        | Some s0 =>
            match JSON.parse_text s0 with
            | Some v =>
                match Uint8Array_error v with
                | Some e =>
                    (Throw (Error ("Error removing binary data for key '" +:+ key
                                     +:+ "': " +:+ message_of e)), st)
                | None => (Normal tt, st)
                end
            | None =>
                (Throw (Error ("Error removing binary data for key '" +:+ key
                                 +:+ "': " +:+ message_of SyntaxError)), st)
            end
        | None =>
            (Throw (Error ("Error removing binary data for key '" +:+ key +:+ "': "
                             +:+ ("Value stored for key '" +:+ key
                                    +:+ "' is not valid binary data."))), st)
        end).
    { intros key. run. unfold item.
      destruct (storage uss st !! key) as [s0|]; [|reflexivity].
      cbn [typeof String.eqb Ascii.eqb Bool.eqb]. cbv beta iota.
      rewrite JSON_parse_text_run.
      destruct (JSON.parse_text s0) as [v|]; [|reflexivity].
      cbv beta iota. unfold new_Uint8Array.
      destruct (Uint8Array_error v); reflexivity. }
    unfold removeAllBinaryItems. unfold bind at 1, keys. cbv beta iota.
    unfold bind at 1.
    destruct (forEach_first_error
                (fun key =>
                   let* storedValue := getItem uss (VStr key) in
                   try_catch
                     (if String.eqb (typeof storedValue) "string" then
                        let* parsedArray := JSON_parse storedValue in
                        new_Uint8Array Uint8Array_error parsedArray
                      else
                        throwOrReturnOnError true
                          ("Value stored for key '" +:+ key
                             +:+ "' is not valid binary data.") ;;
                        ret tt)
                     (fun error =>
                        throwOrReturnOnError true
                          ("Error removing binary data for key '" +:+ key +:+ "': "
                             +:+ message_of error) ;;
                        ret tt))
                (map fst (map_to_list (storage uss st))) st) as (m & Hm).
    + intros key. rewrite Hbody.
      destruct (storage uss st !! key) as [s0|]; [|right; eauto].
      destruct (JSON.parse_text s0) as [v|]; [|right; eauto].
      destruct (Uint8Array_error v); [right; eauto | now left].
    + exists k. eexists. split.
      * apply elem_of_map_to_list in Hk. apply list_elem_of_In in Hk.
        apply (in_map fst) in Hk. exact Hk.
      * rewrite Hbody, Hk. unfold unparseable in Hs.
        destruct (JSON.parse_text s); [discriminate | reflexivity].
    + exists m. now rewrite Hm.
Qed.

End SweepLaws.

(** ** Laws of the array methods of [StorageManager] *)

Module ArrayLaws.
Import JS Eff Host DomValidator StorageManager JSONFacts StorageFacts StorageLaws.
Import SweepLaws.

Lemma array_indexOf_lower (x : value) (xs : list value) :
  (-1 <= array_indexOf x xs)%Z.
Proof.
  induction xs as [|y r IH]; cbn [array_indexOf]; [lia|].
  destruct (strict_eq y x); [lia|].
  destruct (array_indexOf x r <? 0)%Z eqn:E; [lia|].
  apply Z.ltb_ge in E. lia.
Qed.

(** The index arithmetic of [indexOf] followed by [splice] or an indexed
    assignment, against the list functions. *)
Lemma array_indexOf_spec (x new : value) (xs : list value) :
  (array_indexOf x xs = (-1)%Z
   /\ remove_first x xs = xs /\ replace_first x new xs = xs)
  \/ ((0 <= array_indexOf x xs)%Z
      /\ remove_at (Z.to_nat (array_indexOf x xs)) xs = remove_first x xs
      /\ set_at (Z.to_nat (array_indexOf x xs)) new xs = replace_first x new xs).
Proof.
  induction xs as [|y r IH]; cbn [array_indexOf remove_first replace_first].
  - left. auto.
  - destruct (strict_eq y x).
    + right. split; [lia|]. split; reflexivity.
    + pose proof (array_indexOf_lower x r) as Hlow.
      destruct IH as [(Hi & Hr & Hs)|(Hi & Hr & Hs)].
      * left. rewrite Hi, Hr, Hs. cbn. auto.
      * right. destruct (array_indexOf x r <? 0)%Z eqn:E;
          [apply Z.ltb_lt in E; lia|].
        split; [lia|].
        replace (Z.to_nat (array_indexOf x r + 1)) with (S (Z.to_nat (array_indexOf x r)))
          by lia.
        unfold remove_at, set_at in *. cbn [firstn skipn app].
        rewrite <- Hr, <- Hs. split; reflexivity.
Qed.

Lemma array_indexOf_reference (x : value) (xs : list value) :
  is_reference x = true -> array_indexOf x xs = (-1)%Z.
Proof.
  intros Hx. induction xs as [|y r IH]; [reflexivity|].
  cbn [array_indexOf]. rewrite IH.
  replace (strict_eq y x) with false; [reflexivity|].
  destruct x; try discriminate; now destruct y.
Qed.


Lemma serializable_replace_first (x new : value) (xs : list value) :
  serializable new = true ->
  forallb serializable xs = true ->
  forallb serializable (replace_first x new xs) = true.
Proof.
  intros Hn. induction xs as [|y r IH]; [reflexivity|]. cbn [forallb replace_first].
  intros H. apply andb_true_iff in H. destruct H as [Hy Hr].
  destruct (strict_eq y x); cbn [forallb].
  - now rewrite Hn, Hr.
  - now rewrite Hy, IH.
Qed.

Lemma stored_array_run (key : value) (s : string) (elems : list value) (st : state) :
  JSON.parse_text s = Some (VArr elems) ->
  stored_array key (VStr s) st = (Normal (VArr elems), st).
Proof.
  intros H. unfold stored_array, bind. rewrite JSON_parse_text_run, H.
  cbn [isArray negb]. cbv beta iota. rewrite JSON_parse_text_run, H.
  reflexivity.
Qed.


Lemma getArray_run (k s : string) (elems : list value) (uss t : bool) (st : state) :
  k <> "" ->
  storage uss st !! k = Some s ->
  JSON.parse_text s = Some (VArr elems) ->
  getArray (VStr k) uss t st = (Normal (VArr elems), st).
Proof.
  intros Hk Hs Hp. unfold getArray. run. rewrite (item_lookup uss k s st Hs).
  rewrite JSON_parse_text_run, Hp. reflexivity.
Qed.

(** The array written back by an updater is what [getArray] then reads. *)
Lemma getArray_after_write (k : string) (elems : list value) (uss t : bool)
  (st : state) :
  k <> "" ->
  forallb serializable elems = true ->
  getArray (VStr k) uss t
    (snd (setItem uss (VStr k) (JSON.stringify (VArr elems)) st))
  = (Normal (VArr elems),
     snd (setItem uss (VStr k) (JSON.stringify (VArr elems)) st)).
Proof.
  intros Hk Hser.
  destruct (stored_text (VArr elems) Hser) as (txt & Hs & Htxt & _ & Hparse & _).
  apply (getArray_run k txt); [exact Hk| |exact Hparse].
  rewrite setItem_run. cbn [snd]. rewrite Htxt.
  now rewrite storage_with_storage, lookup_insert_eq.
Qed.

(** X13: [addToArray] on a valid key that holds the JSON text of an array
    appends the element: [getArray] then returns the old elements followed
    by the new one, and no other key and nothing of the other storage
    changes.  The stored elements and the new element are [modelled]
    values: no [undefined] inside (which the host would store as [null]),
    safe integers for numbers, no property named by digits only. *)
Theorem addToArray_appends (k s : string) (elems : list value) (element : value)
  (uss t : bool) (st : state) :
  k <> "" ->
  storage uss st !! k = Some s ->
  JSON.parse_text s = Some (VArr elems) ->
  forallb modelled elems = true ->
  modelled element = true ->
  exists st1,
    addToArray (VStr k) element uss t st = (Normal RThis, st1)
    /\ getArray (VStr k) uss t st1 = (Normal (VArr (elems ++ [element])), st1)
    /\ (forall k', k' <> k -> storage uss st1 !! k' = storage uss st !! k')
    /\ storage (negb uss) st1 = storage (negb uss) st.
Proof.
  intros Hk Hs Hp Hser He.
  apply modelled_all_serializable in Hser. apply modelled_serializable in He.
  exists (snd (setItem uss (VStr k) (JSON.stringify (VArr (elems ++ [element]))) st)).
  split; [|split; [|split]].
  - unfold addToArray. run. rewrite (item_lookup uss k s st Hs).
    rewrite (stored_array_run _ s elems st Hp). cbv beta iota.
    unfold with_elems. run. reflexivity.
  - apply getArray_after_write; [exact Hk|].
    rewrite forallb_app, Hser. cbn. now rewrite He.
  - intros k' Hne. rewrite setItem_run. cbn [snd].
    rewrite storage_with_storage.
    now rewrite lookup_insert_ne by congruence.
  - rewrite setItem_run. cbn [snd]. apply storage_with_other.
Qed.

Lemma addToArray_appends_witness :
  exists st1,
    addToArray (VStr "xs") (VStr "z") false true array_host = (Normal RThis, st1)
    /\ getArray (VStr "xs") false true st1
       = (Normal (VArr ([VNum 1; VNum 2; VNum 1] ++ [VStr "z"])), st1)
    /\ (forall k', k' <> "xs" ->
        storage false st1 !! k' = storage false array_host !! k')
    /\ storage (negb false) st1 = storage (negb false) array_host.
Proof.
  apply (addToArray_appends "xs" "[1,2,1]" [VNum 1; VNum 2; VNum 1] (VStr "z")
           false true array_host);
    [discriminate | reflexivity | reflexivity | reflexivity | reflexivity].
Defined.






(** X16: [updateInArray] on a valid key that holds the JSON text of an
    array replaces the first element strictly equal to [oldElement] by
    [newElement] and leaves the rest in place; when there is none (always
    so for an array or an object) it writes nothing.  The stored elements
    and [newElement] are [modelled] values: no [undefined] inside (which
    the host would store as [null]), safe integers for numbers, no property
    named by digits only. *)
Theorem updateInArray_replaces_first (k s : string) (elems : list value)
  (oldElement newElement : value) (uss t : bool) (st : state) :
  k <> "" ->
  storage uss st !! k = Some s ->
  JSON.parse_text s = Some (VArr elems) ->
  forallb modelled elems = true ->
  modelled newElement = true ->
  exists st1,
    updateInArray (VStr k) oldElement newElement uss t st = (Normal RThis, st1)
    /\ getArray (VStr k) uss t st1
       = (Normal (VArr (replace_first oldElement newElement elems)), st1)
    /\ (array_indexOf oldElement elems = (-1)%Z -> st1 = st)
    /\ (is_reference oldElement = true -> st1 = st)
    /\ storage (negb uss) st1 = storage (negb uss) st.
Proof.
  intros Hk Hs Hp Hser Hnew.
  apply modelled_all_serializable in Hser. apply modelled_serializable in Hnew.
  assert (Hrun : forall st1,
    (if negb (array_indexOf oldElement elems =? -1)%Z
     then setItem uss (VStr k)
            (JSON.stringify
               (VArr (set_at (Z.to_nat (array_indexOf oldElement elems))
                        newElement elems)))
     else ret tt) st = (Normal tt, st1) ->
    updateInArray (VStr k) oldElement newElement uss t st = (Normal RThis, st1)).
  { intros st1 H. unfold updateInArray. run. rewrite (item_lookup uss k s st Hs).
    rewrite (stored_array_run _ s elems st Hp). cbv beta iota zeta.
    unfold with_elems. unfold bind. unfold ret in H. now rewrite H. }
  destruct (array_indexOf_spec oldElement newElement elems)
    as [(Hi & _ & Hr)|(Hi & _ & Hr)].
  - exists st. split; [|split; [|split; [|split]]]; try reflexivity.
    + apply Hrun. now rewrite Hi.
    + rewrite Hr. now apply (getArray_run k s).
  - exists (snd (setItem uss (VStr k)
                   (JSON.stringify (VArr (replace_first oldElement newElement elems)))
                   st)).
    split; [|split; [|split; [|split]]].
    + apply Hrun. rewrite Hr.
      replace (array_indexOf oldElement elems =? -1)%Z with false
        by (symmetry; apply Z.eqb_neq; lia).
      cbn [negb]. now rewrite setItem_run.
    + apply getArray_after_write; [exact Hk|].
      now apply serializable_replace_first.
    + intros Hnone. lia.
    + intros Hx. rewrite (array_indexOf_reference oldElement elems Hx) in Hi. lia.
    + rewrite setItem_run. cbn [snd]. apply storage_with_other.
Qed.

Lemma updateInArray_replaces_first_witness :
  exists st1,
    updateInArray (VStr "xs") (VNum 1) (VStr "one") false true array_host
    = (Normal RThis, st1)
    /\ getArray (VStr "xs") false true st1
       = (Normal (VArr (replace_first (VNum 1) (VStr "one")
                          [VNum 1; VNum 2; VNum 1])), st1)
    /\ (array_indexOf (VNum 1) [VNum 1; VNum 2; VNum 1] = (-1)%Z -> st1 = array_host)
    /\ (is_reference (VNum 1) = true -> st1 = array_host)
    /\ storage (negb false) st1 = storage (negb false) array_host.
Proof.
  apply (updateInArray_replaces_first "xs" "[1,2,1]" [VNum 1; VNum 2; VNum 1]
           (VNum 1) (VStr "one") false true array_host);
    [discriminate | reflexivity | reflexivity | reflexivity | reflexivity].
Defined.

Lemma getFromArray_run (k s : string) (elems : list value) (i : Z) (uss t : bool)
  (st : state) :
  k <> "" ->
  (Z.abs i <= Joi.MAX_SAFE_INTEGER)%Z ->
  storage uss st !! k = Some s ->
  JSON.parse_text s = Some (VArr elems) ->
  getFromArray (VStr k) i uss t st
  = (if (i <? 0)%Z || (Z.of_nat (List.length elems) <=? i)%Z
     then (if t then Throw (Error "Index out of bounds.") else Normal VNull)
     else Normal (array_get elems i), st).
Proof.
  intros Hk Hi Hs Hp. unfold getFromArray, bind at 1.
  rewrite (either_invalid_accepts _ _ st (isString_accepts k t st Hk)
             (isNumber_accepts i t st Hi)).
  cbv beta iota. run. rewrite (item_lookup uss k s st Hs).
  rewrite JSON_parse_text_run, Hp. cbv beta iota.
  destruct ((i <? 0)%Z || (Z.of_nat (List.length elems) <=? i)%Z); [|reflexivity].
  now destruct t.
Qed.

Lemma array_get_insert_at (elems : list value) (x : value) (i : Z) :
  (0 <= i <= Z.of_nat (List.length elems))%Z ->
  array_get (insert_at (Z.to_nat i) x elems) i = x.
Proof.
  intros Hi. unfold array_get, insert_at.
  replace (i <? 0)%Z with false by (symmetry; apply Z.ltb_ge; lia).
  rewrite app_nth2; rewrite List.length_firstn, Nat.min_l by lia; [|lia].
  now rewrite Nat.sub_diag.
Qed.

(** X17: [addToArrayByIndex] on a valid key that holds the JSON text of
    an array, with an index from [0] to the length of the array (the
    length included, and a safe integer), inserts the element there:
    [getArray] then returns the old elements with the new one at that
    place, and [getFromArray] at that index returns it.  The stored
    elements and the new element are [modelled] values: no [undefined]
    inside (which the host would store as [null]), safe integers for
    numbers, no property named by digits only. *)
Theorem addToArrayByIndex_inserts (k s : string) (elems : list value) (x : value)
  (i : Z) (uss t : bool) (st : state) :
  k <> "" ->
  (i <= Joi.MAX_SAFE_INTEGER)%Z ->
  storage uss st !! k = Some s ->
  JSON.parse_text s = Some (VArr elems) ->
  forallb modelled elems = true ->
  modelled x = true ->
  (0 <= i <= Z.of_nat (List.length elems))%Z ->
  exists st1,
    addToArrayByIndex (VStr k) x i uss t st = (Normal RThis, st1)
    /\ getArray (VStr k) uss t st1
       = (Normal (VArr (firstn (Z.to_nat i) elems ++ x :: skipn (Z.to_nat i) elems)),
          st1)
    /\ getFromArray (VStr k) i uss t st1 = (Normal x, st1).
Proof.
  intros Hk Hmax Hs Hp Hser Hx Hi.
  apply modelled_all_serializable in Hser. apply modelled_serializable in Hx.
  assert (Habs : (Z.abs i <= Joi.MAX_SAFE_INTEGER)%Z) by lia.
  assert (Hins : forallb serializable (insert_at (Z.to_nat i) x elems) = true).
  { unfold insert_at. rewrite forallb_app. cbn [forallb]. rewrite Hx.
    rewrite <- (firstn_skipn (Z.to_nat i) elems), forallb_app in Hser.
    apply andb_true_iff in Hser. destruct Hser as [-> ->]. reflexivity. }
  destruct (stored_text (VArr (insert_at (Z.to_nat i) x elems)) Hins)
    as (txt & Hst & Htxt & _ & Hparse & _).
  exists (snd (setItem uss (VStr k)
                 (JSON.stringify (VArr (insert_at (Z.to_nat i) x elems))) st)).
  split; [|split].
  - unfold addToArrayByIndex, bind at 1.
    rewrite (either_invalid_accepts _ _ st (isString_accepts k t st Hk)
               (isNumber_accepts i t st Habs)).
    cbv beta iota. run. rewrite (item_lookup uss k s st Hs).
    rewrite (stored_array_run _ s elems st Hp). cbv beta iota.
    unfold with_elems.
    replace ((i <? 0)%Z || (Z.of_nat (List.length elems) <? i)%Z) with false.
    + run. reflexivity.
    + symmetry. apply orb_false_iff. split; [apply Z.ltb_ge | apply Z.ltb_ge]; lia.
  - now apply (getArray_after_write k (insert_at (Z.to_nat i) x elems)).
  - rewrite (getFromArray_run k txt (insert_at (Z.to_nat i) x elems) i uss t _ Hk Habs).
    + replace ((i <? 0)%Z
               || (Z.of_nat (List.length (insert_at (Z.to_nat i) x elems)) <=? i)%Z)
        with false.
      * now rewrite array_get_insert_at.
      * symmetry. apply orb_false_iff. split; [apply Z.ltb_ge; lia|].
        apply Z.leb_gt. unfold insert_at.
        rewrite List.length_app, List.length_firstn. cbn [List.length].
        rewrite List.length_skipn. lia.
    + rewrite setItem_run. cbn [snd]. rewrite Htxt.
      now rewrite storage_with_storage, lookup_insert_eq.
    + exact Hparse.
Qed.

Lemma addToArrayByIndex_inserts_witness :
  exists st1,
    addToArrayByIndex (VStr "xs") (VStr "z") 3 false true array_host
    = (Normal RThis, st1)
    /\ getArray (VStr "xs") false true st1
       = (Normal (VArr (firstn (Z.to_nat 3) [VNum 1; VNum 2; VNum 1]
                          ++ VStr "z" :: skipn (Z.to_nat 3) [VNum 1; VNum 2; VNum 1])),
          st1)
    /\ getFromArray (VStr "xs") 3 false true st1 = (Normal (VStr "z"), st1).
Proof.
  apply (addToArrayByIndex_inserts "xs" "[1,2,1]" [VNum 1; VNum 2; VNum 1]
           (VStr "z") 3 false true array_host).
  - discriminate.
  - vm_compute. discriminate.
  - reflexivity.
  - reflexivity.
  - reflexivity.
  - reflexivity.
  - cbn. lia.
Defined.



End ArrayLaws.

(** ** Laws of the expiring values of [StorageManager] *)

Module ExpirationLaws.
Import JS Eff Host DomValidator StorageManager JSONFacts StorageFacts StorageLaws.
Import SweepLaws.

Lemma storage_at_clock (uss : bool) (t : Z) (st : state) :
  storage uss (at_clock t st) = storage uss st.
Proof. now destruct uss. Qed.

Lemma now_at_clock (t : Z) (st : state) : now (at_clock t st) = t.
Proof. reflexivity. Qed.

(** What [setExpiration] leaves under the key, read at any later clock. *)
Lemma expiring_item (k : string) (v : value) (secs : Z) (uss t : bool) (st : state) :
  k <> "" -> (Z.abs secs <= Joi.MAX_SAFE_INTEGER)%Z -> serializable v = true ->
  exists st1 txt,
    setExpiration (VStr k) v secs uss t st = (Normal RThis, st1)
    /\ storage uss st1 !! k = Some txt
    /\ JSON.parse_text txt
       = Some (expiring_record v (expirationTime_at (now st) secs)).
Proof.
  intros Hk Hsecs Hser.
  assert (Hrec : serializable (expiring_record v (expirationTime_at (now st) secs))
                 = true).
  { unfold expiring_record, expirationTime_at. cbn. rewrite Hser.
    now destruct (secs =? 0)%Z. }
  destruct (stored_text _ Hrec) as (txt & _ & Htxt & _ & Hparse & _).
  eexists. exists txt. split; [apply (setExpiration_run k v secs uss t st Hk Hsecs)|].
  split; [|exact Hparse].
  rewrite Htxt.
  destruct (truthy (expirationTime_at (now st) secs));
    [rewrite storage_with_timer|]; now rewrite storage_with_storage, lookup_insert_eq.
Qed.

Lemma checkExpiration_record (later_than : Z -> value -> bool) (k txt : string)
  (v e : value) (uss t : bool) (st : state) :
  k <> "" ->
  storage uss st !! k = Some txt ->
  JSON.parse_text txt = Some (expiring_record v e) ->
  checkExpiration later_than (VStr k) uss t st
  = (Normal (VBool (truthy e && later_than (now st) e)), st).
Proof.
  intros Hk Hs Hp. unfold checkExpiration. run.
  rewrite (item_lookup uss k txt st Hs). cbn [is_null negb].
  rewrite JSON_parse_text_run, Hp. cbv beta iota.
  unfold Date_now, member.
  change (get_member (expiring_record v e) "expirationTime") with (Some e).
  unfold ret. cbv beta iota.
  now destruct (truthy e && later_than (now st) e).
Qed.

Lemma clearExpiredValues_record (not_after : value -> Z -> bool) (k txt : string)
  (v e : value) (uss t : bool) (st : state) :
  k <> "" ->
  storage uss st !! k = Some txt ->
  JSON.parse_text txt = Some (expiring_record v e) ->
  clearExpiredValues not_after (VStr k) uss t st
  = (Normal (RVal VUndefined),
     if truthy e && not_after e (now st)
     then snd (removeItem uss (VStr k) st) else st).
Proof.
  intros Hk Hs Hp. unfold clearExpiredValues. run.
  rewrite (item_lookup uss k txt st Hs).
  rewrite JSON_parse_text_run, Hp. cbv beta iota.
  change (negb (truthy (expiring_record v e))
          || negb (String.eqb (typeof (expiring_record v e)) "object")) with false.
  cbv beta iota. unfold Date_now, member.
  change (get_member (expiring_record v e) "expirationTime") with (Some e).
  unfold ret. cbv beta iota.
  destruct (truthy e && not_after e (now st)); [|reflexivity].
  now rewrite removeItem_run.
Qed.

Lemma truthy_expirationTime (n secs : Z) :
  (0 < n)%Z -> (0 <= secs)%Z ->
  truthy (expirationTime_at n secs) = negb (secs =? 0)%Z.
Proof.
  intros Hn Hs. unfold expirationTime_at.
  destruct (secs =? 0)%Z; [reflexivity|]. cbn [truthy].
  replace (n + secs * 1000 =? 0)%Z with false; [reflexivity|].
  symmetry. apply Z.eqb_neq. lia.
Qed.

(** X19: let [setExpiration] store a serialisable value under a valid
    key, with [secondsToExpiration] zero or positive, at a positive clock
    reading [now], the expiry [now + secondsToExpiration * 1000] being a
    safe integer.  As long as the item is still there (its timer has not
    run, as after a reload of the page), [checkExpiration] at a clock
    reading [later] answers [true] exactly when [secondsToExpiration] is
    not zero and the expiry lies strictly before [later]; a value stored
    with [secondsToExpiration = 0] never expires.  Of the host's [>] only
    its behaviour on two numbers is assumed. *)
Theorem checkExpiration_after_setExpiration (later_than : Z -> value -> bool)
  (k : string) (v : value) (secs : Z) (uss t : bool) (st : state) :
  (forall a b, later_than a (VNum b) = (b <? a)%Z) ->
  k <> "" -> serializable v = true ->
  (0 < now st)%Z -> (0 <= secs)%Z ->
  (now st + secs * 1000 <= Joi.MAX_SAFE_INTEGER)%Z ->
  exists st1,
    setExpiration (VStr k) v secs uss t st = (Normal RThis, st1)
    /\ forall later,
         checkExpiration later_than (VStr k) uss t (at_clock later st1)
         = (Normal (VBool (negb (secs =? 0)%Z && (now st + secs * 1000 <? later)%Z)),
            at_clock later st1).
Proof.
  intros Hlater Hk Hser Hnow Hsecs Hsafe.
  destruct (expiring_item k v secs uss t st Hk ltac:(lia) Hser)
    as (st1 & txt & Hset & Hst1 & Hparse).
  exists st1. split; [exact Hset|]. intros later.
  rewrite (checkExpiration_record later_than k txt v _ uss t _ Hk
             ltac:(rewrite storage_at_clock; exact Hst1) Hparse).
  rewrite now_at_clock, (truthy_expirationTime _ _ Hnow Hsecs).
  unfold expirationTime_at. destruct (secs =? 0)%Z; [reflexivity|].
  now rewrite Hlater.
Qed.

Lemma checkExpiration_after_setExpiration_witness :
  exists st1,
    setExpiration (VStr "k") (VStr "v") 5 false true empty_host = (Normal RThis, st1)
    /\ forall later,
         checkExpiration number_later_than (VStr "k") false true (at_clock later st1)
         = (Normal (VBool (negb (5 =? 0)%Z && (now empty_host + 5 * 1000 <? later)%Z)),
            at_clock later st1).
Proof.
  apply (checkExpiration_after_setExpiration number_later_than "k" (VStr "v") 5
           false true empty_host).
  - reflexivity.
  - discriminate.
  - reflexivity.
  - reflexivity.
  - discriminate.
  - vm_compute. discriminate.
Defined.

(** X20: let [setExpiration] store a serialisable value under a valid
    key, with [secondsToExpiration] zero or positive, at a positive clock
    reading [now], the expiry [now + secondsToExpiration * 1000] being a
    safe integer.  As long as the item is still there,
    [clearExpiredValues] at a clock reading [later] returns normally and
    removes the item exactly when [secondsToExpiration] is not zero and
    the expiry is not after [later]; no other key is touched.  At the
    instant of the expiry itself the item is removed although
    [checkExpiration] still answers [false].  Of the host's [>] and [<=]
    only their behaviour on two numbers is assumed. *)
Theorem clearExpiredValues_after_setExpiration
  (later_than : Z -> value -> bool) (not_after : value -> Z -> bool)
  (k : string) (v : value) (secs : Z) (uss t : bool) (st : state) :
  (forall a b, later_than a (VNum b) = (b <? a)%Z) ->
  (forall b a, not_after (VNum b) a = (b <=? a)%Z) ->
  k <> "" -> serializable v = true ->
  (0 < now st)%Z -> (0 <= secs)%Z ->
  (now st + secs * 1000 <= Joi.MAX_SAFE_INTEGER)%Z ->
  exists st1,
    setExpiration (VStr k) v secs uss t st = (Normal RThis, st1)
    /\ (forall later, exists st2,
          clearExpiredValues not_after (VStr k) uss t (at_clock later st1)
          = (Normal (RVal VUndefined), st2)
          /\ storage uss st2 !! k
             = (if negb (secs =? 0)%Z && (now st + secs * 1000 <=? later)%Z
                then None else storage uss st1 !! k)
          /\ (forall k', k' <> k -> storage uss st2 !! k' = storage uss st1 !! k')
          /\ storage (negb uss) st2 = storage (negb uss) st1)
    /\ (secs <> 0%Z ->
        checkExpiration later_than (VStr k) uss t
          (at_clock (now st + secs * 1000) st1)
        = (Normal (VBool false), at_clock (now st + secs * 1000) st1)
        /\ storage uss
             (snd (clearExpiredValues not_after (VStr k) uss t
                     (at_clock (now st + secs * 1000) st1))) !! k = None).
Proof.
  intros Hlater Hnot Hk Hser Hnow Hsecs Hsafe.
  destruct (expiring_item k v secs uss t st Hk ltac:(lia) Hser)
    as (st1 & txt & Hset & Hst1 & Hparse).
  assert (Hclear : forall later,
    clearExpiredValues not_after (VStr k) uss t (at_clock later st1)
    = (Normal (RVal VUndefined),
       if negb (secs =? 0)%Z && (now st + secs * 1000 <=? later)%Z
       then snd (removeItem uss (VStr k) (at_clock later st1))
       else at_clock later st1)).
  { intros later.
    rewrite (clearExpiredValues_record not_after k txt v _ uss t _ Hk
               ltac:(rewrite storage_at_clock; exact Hst1) Hparse).
    rewrite now_at_clock, (truthy_expirationTime _ _ Hnow Hsecs).
    unfold expirationTime_at. destruct (secs =? 0)%Z; [reflexivity|].
    now rewrite Hnot. }
  exists st1. split; [exact Hset|]. split.
  - intros later. eexists. split; [apply Hclear|].
    destruct (negb (secs =? 0)%Z && (now st + secs * 1000 <=? later)%Z).
    + rewrite removeItem_run. cbn [snd]. split; [|split].
      * now rewrite storage_with_storage, lookup_delete_eq.
      * intros k' Hne. rewrite storage_with_storage, storage_at_clock.
        now rewrite lookup_delete_ne by congruence.
      * now rewrite storage_with_other, storage_at_clock.
    + rewrite !storage_at_clock. auto.
  - intros Hne. split.
    + rewrite (checkExpiration_record later_than k txt v _ uss t _ Hk
                 ltac:(rewrite storage_at_clock; exact Hst1) Hparse).
      rewrite now_at_clock, (truthy_expirationTime _ _ Hnow Hsecs).
      unfold expirationTime_at. apply Z.eqb_neq in Hne. rewrite Hne.
      now rewrite Hlater, Z.ltb_irrefl.
    + rewrite Hclear. apply Z.eqb_neq in Hne. rewrite Hne, Z.leb_refl.
      cbn [negb andb snd]. rewrite removeItem_run. cbn [snd].
      now rewrite storage_with_storage, lookup_delete_eq.
Qed.

Lemma clearExpiredValues_after_setExpiration_witness :
  exists st1,
    setExpiration (VStr "k") (VStr "v") 5 false true empty_host = (Normal RThis, st1)
    /\ (forall later, exists st2,
          clearExpiredValues number_not_after (VStr "k") false true
            (at_clock later st1)
          = (Normal (RVal VUndefined), st2)
          /\ storage false st2 !! "k"
             = (if negb (5 =? 0)%Z && (now empty_host + 5 * 1000 <=? later)%Z
                then None else storage false st1 !! "k")
          /\ (forall k', k' <> "k" ->
              storage false st2 !! k' = storage false st1 !! k')
          /\ storage (negb false) st2 = storage (negb false) st1)
    /\ (5%Z <> 0%Z ->
        checkExpiration number_later_than (VStr "k") false true
          (at_clock (now empty_host + 5 * 1000) st1)
        = (Normal (VBool false), at_clock (now empty_host + 5 * 1000) st1)
        /\ storage false
             (snd (clearExpiredValues number_not_after (VStr "k") false true
                     (at_clock (now empty_host + 5 * 1000) st1))) !! "k" = None).
Proof.
  apply (clearExpiredValues_after_setExpiration number_later_than number_not_after
           "k" (VStr "v") 5 false true empty_host).
  - reflexivity.
  - reflexivity.
  - discriminate.
  - reflexivity.
  - reflexivity.
  - discriminate.
  - vm_compute. discriminate.
Defined.

(** X21: where no expiring record is stored.  On an absent key
    [checkExpiration] returns [null] without throwing, and
    [clearExpiredValues] changes nothing: it returns when [throwOnError] is
    false and throws an [Error] when it is true.  On a key that holds the
    text [null] (as [setNull] writes it) [checkExpiration] throws a
    [TypeError] whatever [throwOnError] is. *)
Theorem expiration_without_record (later_than : Z -> value -> bool)
  (not_after : value -> Z -> bool) (k : string) (uss t : bool) (st : state) :
  k <> "" ->
  (storage uss st !! k = None ->
   checkExpiration later_than (VStr k) uss t st = (Normal VNull, st)
   /\ clearExpiredValues not_after (VStr k) uss false st
      = (Normal (RVal VUndefined), st)
   /\ exists msg,
        clearExpiredValues not_after (VStr k) uss true st = (Throw (Error msg), st))
  /\ (exists st1,
        setNull (VStr k) uss t st = (Normal (RVal VUndefined), st1)
        /\ checkExpiration later_than (VStr k) uss t st1 = (Throw TypeError, st1)).
Proof.
  intros Hk. split.
  - intros Habs. repeat split.
    + unfold checkExpiration. run. now rewrite (item_absent uss k st Habs).
    + unfold clearExpiredValues. run. now rewrite (item_absent uss k st Habs).
    + eexists. unfold clearExpiredValues. run.
      rewrite (item_absent uss k st Habs). reflexivity.
  - eexists. split.
    + unfold setNull. run. reflexivity.
    + unfold checkExpiration. run. rewrite item_after_set.
      cbn [is_null negb]. reflexivity.
Qed.

Lemma expiration_without_record_witness :
  (storage false empty_host !! "k" = None ->
   checkExpiration number_later_than (VStr "k") false true empty_host
   = (Normal VNull, empty_host)
   /\ clearExpiredValues number_not_after (VStr "k") false false empty_host
      = (Normal (RVal VUndefined), empty_host)
   /\ exists msg,
        clearExpiredValues number_not_after (VStr "k") false true empty_host
        = (Throw (Error msg), empty_host))
  /\ (exists st1,
        setNull (VStr "k") false true empty_host = (Normal (RVal VUndefined), st1)
        /\ checkExpiration number_later_than (VStr "k") false true st1
           = (Throw TypeError, st1)).
Proof.
  apply (expiration_without_record number_later_than number_not_after "k"
           false true empty_host).
  discriminate.
Defined.

End ExpirationLaws.

(** ** Laws of the loggers *)

Module LoggerLaws.
Import JS Eff LoggerValidation LoggerBase JSONFacts LoggerFacts.

Lemma validateLogLevel_accepts {St} (lvl : string) (st : St) :
  In lvl LOG_LEVEL_keys -> _validateLogLevel (VStr lvl) st = (Normal tt, st).
Proof.
  intros H. apply level_cases in H as [-> | [-> | ->]]; reflexivity.
Qed.

Lemma valid_level_cases (s : string) :
  existsb (String.eqb s) validReturnTypes = true ->
  s = "WARN" \/ s = "INFO" \/ s = "DEBUG".
Proof.
  intros H. apply existsb_exists in H. destruct H as (x & Hin & Hx).
  apply String.eqb_eq in Hx. subst x. cbn in Hin. intuition.
Qed.

Lemma tagged_entry (lvl rest : string) :
  lvl = "WARN" \/ lvl = "INFO" \/ lvl = "DEBUG" ->
  tagged (lvl +:+ " - " +:+ rest) = true.
Proof.
  intros H. unfold tagged. rewrite getLogLevel_entry.
  - destruct H as [->|[->| ->]]; reflexivity.
  - cbn. intuition.
Qed.

(** Whatever its arguments, [addLog] keeps the level and the entries
    already there, and adds at most one entry, whose level is valid. *)
Lemma addLog_frame (message level : value) (ts : string) (this : logger) :
  LoggerBase.level (snd (addLog message level ts this)) = LoggerBase.level this
  /\ (logs (snd (addLog message level ts this)) = logs this
      \/ exists e, tagged e = true
                   /\ logs (snd (addLog message level ts this)) = logs this ++ [e]).
Proof.
  assert (Hgo : forall s,
    s = "WARN" \/ s = "INFO" \/ s = "DEBUG" ->
    let r := snd ((_validateLogMessage message ;;
                   let* levelName := toStringM (VStr s) in
                   let* thisLevel :=
                     (fun this => (Normal (LoggerBase.level this), this)) in
                   let* thisLevelName := toStringM thisLevel in
                   if (indexOf levelName LOG_LEVEL_keys
                       <? indexOf thisLevelName LOG_LEVEL_keys)%Z
                   then ret tt
                   else
                     fun this =>
                       (Normal tt,
                        mkLogger (LoggerBase.level this)
                          (logs this ++ [ToString (VStr s) +:+ " - " +:+ ts +:+ " - "
                                           +:+ ToString message])))
                    this) in
    LoggerBase.level r = LoggerBase.level this
    /\ (logs r = logs this \/ exists e, tagged e = true /\ logs r = logs this ++ [e])).
  { intros s Hs. cbv zeta.
    unfold bind, _validateLogMessage, toStringM, ret, throw.
    destruct (Joi.string_required "message" message); [split; [reflexivity|now left]|].
    cbv beta iota. cbn [toString]. cbv beta iota.
    destruct (toString (LoggerBase.level this)); [|split; [reflexivity|now left]].
    cbv beta iota.
    destruct (indexOf (ToString (VStr s)) LOG_LEVEL_keys <? indexOf s0 LOG_LEVEL_keys)%Z;
      cbn [snd LoggerBase.level logs]; split; try reflexivity; [now left|].
    right. eexists. split; [|reflexivity].
    rewrite ToString_string. now apply tagged_entry. }
  unfold addLog. cbv zeta. unfold bind at 1, _validateLogLevel.
  destruct level as [| |b|n|s|l|ps]; cbn [default_arg Joi.string_valid_default];
    try (split; [reflexivity | now left]).
  - apply (Hgo "INFO"). auto.
  - destruct (existsb (String.eqb s) validReturnTypes) eqn:E;
      [|split; [reflexivity | now left]].
    apply (Hgo s). now apply valid_level_cases.
Qed.

Lemma setLogLevel_keeps_logs (lvl : value) (this : logger) :
  logs (snd (setLogLevel lvl this)) = logs this.
Proof.
  unfold setLogLevel, bind, _validateLogLevel.
  now destruct (Joi.string_valid_default "level" validReturnTypes lvl).
Qed.

(** X22: whatever calls of [addLog], [setLogLevel] and [clearLogs] are
    made on a logger, with whatever arguments and whether they throw or
    not, every entry of [logs] starts with a level that [getLogLevel]
    recovers and [isValidLogLevel] accepts, as long as the entries the
    logger started with do. *)
Theorem logs_stay_tagged (cs : list call) (this : logger) :
  Forall (fun e => tagged e = true) (logs this) ->
  Forall (fun e => tagged e = true) (logs (perform_all cs this)).
Proof.
  revert this. induction cs as [|c cs IH]; intros this Hthis; [exact Hthis|].
  cbn [perform_all]. apply IH. destruct c as [message level ts|level|]; cbn [perform].
  - destruct (addLog_frame message level ts this) as (_ & [->|(e & He & ->)]);
      [exact Hthis|].
    apply Forall_app. split; [exact Hthis|]. now constructor.
  - now rewrite setLogLevel_keeps_logs.
  - constructor.
Qed.

Lemma logs_stay_tagged_witness :
  Forall (fun e => tagged e = true)
    (logs (perform_all
             [AddLog (VStr "boot") VUndefined "t1";
              SetLogLevel VUndefined;
              AddLog (VStr "after") (VStr "WARN") "t2";
              SetLogLevel (VStr "DEBUG");
              AddLog (VStr "a - b") (VStr "DEBUG") "t3"]
             (mkLogger (VStr "INFO") ["WARN - t0 - old"]))).
Proof.
  apply (logs_stay_tagged _ (mkLogger (VStr "INFO") ["WARN - t0 - old"])).
  repeat constructor.
Defined.

(** X23: [isValidLogLevel] accepts exactly the levels the validator of
    [setLogLevel] and [addLog] accepts, except [undefined], which the
    validator lets through and [isValidLogLevel] refuses.  A logger that
    the constructor returns always has a valid level and no entry. *)
Theorem isValidLogLevel_vs_validator (lvl : value) (this : logger) :
  (isValidLogLevel lvl = true
   <-> lvl <> VUndefined /\ _validateLogLevel lvl this = (Normal tt, this))
  /\ (forall this0, constructor lvl = Normal this0 ->
        isValidLogLevel (level this0) = true /\ logs this0 = []).
Proof.
  assert (Hs : forall s,
            isValidLogLevel (VStr s) = existsb (String.eqb s) validReturnTypes).
  { intros s. cbn. destruct (String.eqb s "DEBUG"), (String.eqb s "INFO"),
      (String.eqb s "WARN"); reflexivity. }
  split.
  - unfold _validateLogLevel, Joi.string_valid_default.
    destruct lvl as [| |b|n|s|l|ps];
      try (split; [discriminate | intros [_ H]; discriminate H]).
    + split; [discriminate | intros [H _]; congruence].
    + rewrite Hs. destruct (existsb (String.eqb s) validReturnTypes).
      * split; [intros _; split; [discriminate | reflexivity] | reflexivity].
      * split; [discriminate | intros [_ H]; discriminate H].
  - intros this0. unfold constructor, _validateLogLevel, Joi.string_valid_default.
    destruct lvl as [| |b|n|s|l|ps]; cbn [default_arg]; try discriminate.
    + intros [= <-]. split; reflexivity.
    + destruct (existsb (String.eqb s) validReturnTypes) eqn:E; [|discriminate].
      intros [= <-]. cbn [level logs]. now rewrite Hs.
Qed.

(** The first part of [split " - "] begins with the characters already
    read. *)
Lemma split_go_head (s : string) (cur : list ascii) :
  exists h tl,
    split_go " - " 0 cur s = string_of_list_ascii (rev cur ++ h) :: tl.
Proof.
  revert cur. induction s as [|c s IH]; intros cur.
  - exists [], []. cbn. now rewrite app_nil_r.
  - cbn [split_go]. destruct (startsWith " - " (String.String c s)).
    + eexists [], _. now rewrite app_nil_r.
    + destruct (IH (c :: cur)) as (h & tl & ->).
      exists (c :: h), tl. cbn [rev]. now rewrite <- app_assoc.
Qed.

(** X24: [getLogLevel] never recovers a level from a message built by
    [format]: the message starts with a bracket, so its first part is no
    key of [LOG_LEVELS] and the result is [undefined]. *)
Theorem getLogLevel_of_format (msg lvl : string) :
  getLogLevel (format msg lvl) = VUndefined
  /\ tagged (format msg lvl) = false.
Proof.
  assert (H : getLogLevel (format msg lvl) = VUndefined).
  { unfold getLogLevel, format, split.
    change (split_go " - " 0 [] ("[" +:+ lvl +:+ "] - " +:+ msg))
      with (split_go " - " 0 ["["%char] (lvl +:+ "] - " +:+ msg)).
    destruct (split_go_head (lvl +:+ "] - " +:+ msg) ["["%char]) as (h & tl & ->).
    reflexivity. }
  split; [exact H|]. unfold tagged. now rewrite H.
Qed.

End LoggerLaws.

(** ** Laws of [EventLogger] *)

Module EventLoggerLaws.
Import JS Eff LoggerValidation LoggerBase JSONFacts LoggerFacts LoggerLaws EventLogger.

(** X25: [EventLogger.log] with a non-empty string message and a level
    among DEBUG, INFO, WARN.  On a logger whose level is one of the three
    it hands one [log] event with that level and message to the emitter,
    also when the logger's level filters the entry out of [logs].  On a
    logger whose level is [undefined] (as [setLogLevel(undefined)] leaves
    it) it throws a [TypeError], emits nothing and logs nothing.  On a
    message the validator refuses it throws the validator's [Error], emits
    nothing and logs nothing, whatever the logger's level is. *)
Theorem log_emits_even_when_filtered (this : event_logger) (msg lvl ts : string) :
  In lvl LOG_LEVEL_keys -> msg <> "" ->
  (forall cur, level (base this) = VStr cur -> In cur LOG_LEVEL_keys ->
     exists this',
       log (VStr msg) (VStr lvl) ts this = (Normal tt, this')
       /\ emitted this'
          = emitted this
              ++ [("log", VObj [("level", VStr lvl); ("message", VStr msg)])]
       /\ logs (base this')
          = (if (place_in_ordering cur <=? place_in_ordering lvl)%Z
             then logs (base this) ++ [entry lvl ts msg]
             else logs (base this)))
  /\ (level (base this) = VUndefined ->
      log (VStr msg) (VStr lvl) ts this = (Throw TypeError, this))
  /\ (forall bad detail,
        Joi.string_required "message" bad = Some detail ->
        log bad (VStr lvl) ts this
        = (Throw (Error ("Invalid parameters: " +:+ detail)), this)).
Proof.
  intros Hlvl Hmsg. split; [|split].
  - intros cur Hcur Hin. eexists. split; [|split].
    + unfold log, bind, inherited.
      rewrite (addLog_run (base this) msg lvl cur ts Hlvl Hmsg Hcur Hin).
      rewrite (validateLogLevel_accepts lvl _ Hlvl). reflexivity.
    + reflexivity.
    + cbn [base logs].
      rewrite (levelIndex_place lvl Hlvl), (levelIndex_place cur Hin).
      rewrite Z.leb_antisym. unfold entry.
      now destruct (place_in_ordering lvl <? place_in_ordering cur)%Z.
  - intros Hundef. unfold log, bind, inherited, addLog, bind.
    cbn [default_arg]. rewrite (validateLogLevel_accepts lvl _ Hlvl).
    cbv beta iota. unfold _validateLogMessage, Joi.string_required.
    rewrite (nonempty_eqb msg Hmsg). unfold ret, toStringM. cbv beta iota.
    cbn [toString]. unfold ret. cbv beta iota. rewrite Hundef. cbn [toString].
    unfold throw. now destruct this.
  - intros bad detail Hbad. unfold log, bind, inherited, addLog, bind.
    cbn [default_arg]. rewrite (validateLogLevel_accepts lvl _ Hlvl).
    cbv beta iota. unfold _validateLogMessage. rewrite Hbad.
    unfold throw. now destruct this.
Qed.

Lemma log_emits_even_when_filtered_witness :
  (forall cur, VStr "INFO" = VStr cur -> In cur LOG_LEVEL_keys ->
     exists this',
       log (VStr "m") (VStr "DEBUG") "t" (mkEventLogger (mkLogger (VStr "INFO") []) [])
       = (Normal tt, this')
       /\ emitted this'
          = [] ++ [("log", VObj [("level", VStr "DEBUG"); ("message", VStr "m")])]
       /\ logs (base this')
          = (if (place_in_ordering cur <=? place_in_ordering "DEBUG")%Z
             then [] ++ [entry "DEBUG" "t" "m"]
             else []))
  /\ (VStr "INFO" = VUndefined ->
      log (VStr "m") (VStr "DEBUG") "t" (mkEventLogger (mkLogger (VStr "INFO") []) [])
      = (Throw TypeError, mkEventLogger (mkLogger (VStr "INFO") []) []))
  /\ (forall bad detail,
        Joi.string_required "message" bad = Some detail ->
        log bad (VStr "DEBUG") "t" (mkEventLogger (mkLogger (VStr "INFO") []) [])
        = (Throw (Error ("Invalid parameters: " +:+ detail)),
           mkEventLogger (mkLogger (VStr "INFO") []) [])).
Proof.
  apply (log_emits_even_when_filtered
           (mkEventLogger (mkLogger (VStr "INFO") []) []) "m" "DEBUG" "t").
  - cbn. tauto.
  - discriminate.
Defined.

Example log_on_filtered_and_on_undefined_level :
  (let this' :=
     snd (log (VStr "m") (VStr "DEBUG") "t"
            (mkEventLogger (mkLogger (VStr "INFO") []) [])) in
   emitted this' = [("log", VObj [("level", VStr "DEBUG"); ("message", VStr "m")])]
   /\ logs (base this') = [])
  /\ log (VStr "m") (VStr "DEBUG") "t" (mkEventLogger (mkLogger VUndefined []) [])
     = (Throw TypeError, mkEventLogger (mkLogger VUndefined []) []).
Proof. repeat split. Qed.

End EventLoggerLaws.

(** ** Laws of [FileLogger] *)

Module FileLoggerLaws.
Import JS Eff LoggerValidation LoggerBase JSONFacts LoggerFacts LoggerLaws FileLogger.

Lemma length_eqb_nil {A} (l : list A) : l <> [] -> (List.length l =? 0)%nat = false.
Proof. destruct l; [congruence | reflexivity]. Qed.

(** X26: [downloadLogs] on a logger that has entries saves one file, named
    by [fileName], holding the entries joined by newlines.  Unless it is
    called with a falsy argument it then empties [logs], so that a second
    call saves nothing and warns; called with a falsy argument it keeps
    the entries. *)
Theorem downloadLogs_then_empty (this : file_logger) (flag : value) :
  logs (base this) <> [] ->
  exists this1,
    downloadLogs flag this = (Normal tt, this1)
    /\ saved this1
       = saved this ++ [(ToString (fileName this),
                         String.concat newline (logs (base this)))]
    /\ warned this1 = warned this
    /\ fileName this1 = fileName this
    /\ (truthy (default_arg flag (VBool true)) = false -> base this1 = base this)
    /\ (truthy (default_arg flag (VBool true)) = true ->
        logs (base this1) = []
        /\ exists this2,
             downloadLogs flag this1 = (Normal tt, this2)
             /\ saved this2 = saved this1
             /\ warned this2 = warned this1 ++ ["No logs to download."]).
Proof.
  intros Hlogs. unfold downloadLogs. cbv zeta.
  unfold bind at 1, this_logs. cbv beta iota. rewrite (length_eqb_nil _ Hlogs).
  unfold bind, this_fileName, saveAs. cbv beta iota. cbn [fileName].
  destruct (truthy (default_arg flag (VBool true))).
  - eexists. split; [reflexivity|]. cbn.
    split; [reflexivity|]. split; [reflexivity|]. split; [reflexivity|].
    split; [discriminate|]. intros _. split; [reflexivity|].
    eexists. split; [reflexivity|]. split; reflexivity.
  - eexists. split; [reflexivity|]. cbn.
    split; [reflexivity|]. split; [reflexivity|]. split; [reflexivity|].
    split; [intros _; now destruct (base this) | discriminate].
Qed.

Lemma downloadLogs_then_empty_witness :
  exists this1,
    downloadLogs VUndefined
      (mkFileLogger (mkLogger (VStr "INFO") ["INFO - t - a"; "WARN - t - b"])
         (VStr "app.log") [] [])
    = (Normal tt, this1)
    /\ saved this1
       = [] ++ [(ToString (VStr "app.log"),
                 String.concat newline ["INFO - t - a"; "WARN - t - b"])]
    /\ warned this1 = []
    /\ fileName this1 = VStr "app.log"
    /\ (truthy (default_arg VUndefined (VBool true)) = false ->
        base this1 = mkLogger (VStr "INFO") ["INFO - t - a"; "WARN - t - b"])
    /\ (truthy (default_arg VUndefined (VBool true)) = true ->
        logs (base this1) = []
        /\ exists this2,
             downloadLogs VUndefined this1 = (Normal tt, this2)
             /\ saved this2 = saved this1
             /\ warned this2 = warned this1 ++ ["No logs to download."]).
Proof.
  apply (downloadLogs_then_empty
           (mkFileLogger (mkLogger (VStr "INFO") ["INFO - t - a"; "WARN - t - b"])
              (VStr "app.log") [] []) VUndefined).
  discriminate.
Defined.

Lemma filter_entries_of (lvl : string) (triples : list (string * string * string)) :
  Forall (fun t => In (fst (fst t)) LOG_LEVEL_keys) triples ->
  List.filter (fun log => strict_eq (getLogLevel log) (VStr lvl)) (entries_of triples)
  = entries_of (of_level lvl triples).
Proof.
  induction 1 as [|t ts Ht _ IH]; [reflexivity|].
  cbn [entries_of of_level map List.filter].
  replace (getLogLevel (entry (fst (fst t)) (snd (fst t)) (snd t)))
    with (VStr (fst (fst t)))
    by (symmetry; apply (getLogLevel_entry _ _ Ht)).
  cbn [strict_eq].
  destruct (String.eqb (fst (fst t)) lvl).
  - cbn [map]. f_equal. exact IH.
  - exact IH.
Qed.

(** X27: [downloadLogsByLevel] on a logger whose entries were written by
    [addLog] saves, under the name [fileName-level.txt], exactly the
    entries of that level, in their order; when there is none it saves
    nothing and warns.  The entries stay in [logs] either way. *)
Theorem downloadLogsByLevel_selects (this : file_logger)
  (triples : list (string * string * string)) (lvl : string) :
  logs (base this) = entries_of triples ->
  Forall (fun t => In (fst (fst t)) LOG_LEVEL_keys) triples ->
  In lvl LOG_LEVEL_keys ->
  exists this',
    downloadLogsByLevel (VStr lvl) this = (Normal tt, this')
    /\ base this' = base this
    /\ fileName this' = fileName this
    /\ (of_level lvl triples = [] ->
        saved this' = saved this
        /\ warned this' = warned this ++ ["No logs found for level: " +:+ lvl])
    /\ (of_level lvl triples <> [] ->
        warned this' = warned this
        /\ saved this'
           = saved this
               ++ [(ToString (fileName this) +:+ "-" +:+ lvl +:+ ".txt",
                    String.concat newline (entries_of (of_level lvl triples)))]).
Proof.
  intros Hlogs Hvalid Hlvl. unfold downloadLogsByLevel. unfold bind at 1.
  rewrite (validateLogLevel_accepts lvl _ Hlvl). cbv beta iota.
  unfold bind at 1, this_logs. cbv beta iota zeta.
  rewrite Hlogs, (filter_entries_of lvl triples Hvalid), ToString_string.
  destruct (of_level lvl triples) as [|t rest] eqn:E.
  - eexists. split; [reflexivity|]. cbn. repeat split; congruence.
  - eexists. split; [reflexivity|]. cbn - [String.concat entries_of].
    repeat split; congruence.
Qed.

Lemma downloadLogsByLevel_selects_witness :
  exists this',
    downloadLogsByLevel (VStr "WARN")
      (mkFileLogger
         (mkLogger (VStr "INFO")
            (entries_of [("INFO", "t1", "a"); ("WARN", "t2", "b"); ("WARN", "t3", "c")]))
         (VStr "app") [] [])
    = (Normal tt, this')
    /\ base this'
       = mkLogger (VStr "INFO")
           (entries_of [("INFO", "t1", "a"); ("WARN", "t2", "b"); ("WARN", "t3", "c")])
    /\ fileName this' = VStr "app"
    /\ (of_level "WARN" [("INFO", "t1", "a"); ("WARN", "t2", "b"); ("WARN", "t3", "c")]
        = [] ->
        saved this' = []
        /\ warned this' = [] ++ ["No logs found for level: " +:+ "WARN"])
    /\ (of_level "WARN" [("INFO", "t1", "a"); ("WARN", "t2", "b"); ("WARN", "t3", "c")]
        <> [] ->
        warned this' = []
        /\ saved this'
           = [] ++ [(ToString (VStr "app") +:+ "-" +:+ "WARN" +:+ ".txt",
                     String.concat newline
                       (entries_of
                          (of_level "WARN"
                             [("INFO", "t1", "a"); ("WARN", "t2", "b");
                              ("WARN", "t3", "c")])))]).
Proof.
  apply (downloadLogsByLevel_selects
           (mkFileLogger
              (mkLogger (VStr "INFO")
                 (entries_of [("INFO", "t1", "a"); ("WARN", "t2", "b");
                              ("WARN", "t3", "c")]))
              (VStr "app") [] [])
           [("INFO", "t1", "a"); ("WARN", "t2", "b"); ("WARN", "t3", "c")] "WARN").
  - reflexivity.
  - repeat constructor; cbn; tauto.
  - cbn. tauto.
Defined.

End FileLoggerLaws.

(** ** Laws of [AuditLogger] *)

Module AuditLoggerLaws.
Import JS Eff LoggerBase AuditLogger.

Lemma rotate_suffix (this : audit_logger) :
  fst (rotateLogsIfNeeded this) = Normal tt
  /\ (exists dropped,
        logs (base this) = dropped ++ logs (base (snd (rotateLogsIfNeeded this))))
  /\ Z.of_nat (List.length (logs (base (snd (rotateLogsIfNeeded this)))))
     = Z.min (Z.of_nat (List.length (logs (base this)))) (Z.max 0 (maxLogs this))
  /\ saved (snd (rotateLogsIfNeeded this)) = saved this
  /\ printed (snd (rotateLogsIfNeeded this)) = printed this.
Proof.
  unfold rotateLogsIfNeeded. cbv zeta.
  destruct (maxLogs this <? Z.of_nat (List.length (logs (base this))))%Z eqn:E.
  - cbn [fst snd with_logs base logs saved printed]. unfold splice_front.
    split; [reflexivity|]. split; [|split; [|split; reflexivity]].
    + eexists. symmetry. apply firstn_skipn.
    + apply Z.ltb_lt in E. rewrite List.length_skipn. lia.
  - cbn [fst snd]. split; [reflexivity|]. split; [|split; [|split; reflexivity]].
    + now exists [].
    + apply Z.ltb_ge in E. lia.
Qed.

(** X28: [rotateLogsIfNeeded] keeps the newest entries: what is left is
    an end of the old [logs], as many entries as [maxLogs] allows (none
    when [maxLogs] is zero or negative), and nothing is saved or printed. *)
Theorem rotateLogsIfNeeded_keeps_newest (this : audit_logger) :
  exists this',
    rotateLogsIfNeeded this = (Normal tt, this')
    /\ (exists dropped, logs (base this) = dropped ++ logs (base this'))
    /\ Z.of_nat (List.length (logs (base this')))
       = Z.min (Z.of_nat (List.length (logs (base this)))) (Z.max 0 (maxLogs this))
    /\ saved this' = saved this
    /\ printed this' = printed this.
Proof.
  destruct (rotate_suffix this) as (Hfst & Hrest).
  exists (snd (rotateLogsIfNeeded this)). split; [|exact Hrest].
  destruct (rotateLogsIfNeeded this) as [c this']. cbn in *. now subst c.
Qed.

(** X29: [logAuditAction] never adds an entry to [logs]: the line it
    builds goes to one file save named [auditLogPath] when [saveIntoFile]
    is truthy, and to one console line otherwise.  [logs] changes only when
    the line is saved and [logRotation] is truthy, and then only by losing
    its oldest entries. *)
Theorem logAuditAction_writes_one_line (this : audit_logger)
  (action metadata : value) (ts : string) :
  exists this',
    logAuditAction action metadata ts this = (Normal tt, this')
    /\ (exists dropped, logs (base this) = dropped ++ logs (base this'))
    /\ (truthy (saveIntoFile this) && truthy (logRotation this) = false ->
        base this' = base this)
    /\ (if truthy (saveIntoFile this)
        then saved this'
             = saved this
                 ++ [(auditLogPath this,
                      (ts +:+ " - " +:+ ToString action +:+ " - "
                         +:+ ToString (JSON.stringify metadata))
                        +:+ FileLogger.newline)]
             /\ printed this' = printed this
        else printed this'
             = printed this
                 ++ [ts +:+ " - " +:+ ToString action +:+ " - "
                       +:+ ToString (JSON.stringify metadata)]
             /\ saved this' = saved this).
Proof.
  unfold logAuditAction. cbv zeta. unfold bind at 1. cbv beta iota.
  destruct (truthy (saveIntoFile this)) eqn:Efile.
  - unfold logToFileSystem, bind. cbv beta iota. cbn [logRotation].
    destruct (truthy (logRotation this)) eqn:Erot.
    + set (this1 := mkAuditLogger _ _ _ _ _ _ _).
      destruct (rotate_suffix this1) as (Hfst & Hsuf & _ & Hsaved & Hprinted).
      exists (snd (rotateLogsIfNeeded this1)).
      split; [|split; [exact Hsuf|split; [discriminate|]]].
      * destruct (rotateLogsIfNeeded this1) as [c this']. cbn in *. now subst c.
      * now rewrite Hsaved, Hprinted.
    + eexists. split; [reflexivity|]. cbn.
      split; [now exists []|]. split; [reflexivity|]. split; reflexivity.
  - eexists. split; [reflexivity|]. cbn.
    split; [now exists []|]. split; [reflexivity|]. split; reflexivity.
Qed.

End AuditLoggerLaws.
